(** * Lumen Next.js starter: state-sync provider and streaming chat route

    A shallow embedding of
      - [src/providers/sync-provider.tsx]  (loadInitialState, updateState),
      - [lib/constants]                    (AVAILABLE_MODELS),
      - [src/app/(chat)/api/chat/route.ts] (POST),
      - [src/app/(chat)/api/chat/anthropic-helper.ts] (anthropicStream),
    followed by the properties of the specification that concern them. *)

From Stdlib Require Import ZArith Ascii String List Lia Bool.
From Stdlib Require Import Decimal DecimalFacts DecimalString DecimalPos.
From stdpp Require Import base option list gmap strings.

Local Open Scope string_scope.
Local Open Scope list_scope.
Local Open Scope Z_scope.

(** ** JavaScript values that cross the JSON boundary *)

(** Everything the two subsystems store or receive is a JSON value.  Numbers
    are the integers (the values stored by the application are identifiers,
    counters and nested records); an object keeps its properties in
    insertion order, as [JSON.stringify] observes that order. *)
#[local] Unset Elimination Schemes.
Inductive json : Type :=
| JNull
| JBool (b : bool)
| JNum (n : Z)
| JStr (s : string)
| JArr (xs : list json)
| JObj (fields : list (string * json)).
#[local] Set Elimination Schemes.

Section json_induction.
Variable P : json -> Prop.
Hypothesis Hnull : P JNull.
Hypothesis Hbool : forall b, P (JBool b).
Hypothesis Hnum : forall n, P (JNum n).
Hypothesis Hstr : forall s, P (JStr s).
Hypothesis Harr : forall xs, Forall P xs -> P (JArr xs).
Hypothesis Hobj : forall fs, Forall (fun kv => P (snd kv)) fs -> P (JObj fs).

Fixpoint json_nested_ind (v : json) : P v :=
  match v with
  | JNull => Hnull
  | JBool b => Hbool b
  | JNum n => Hnum n
  | JStr s => Hstr s
  | JArr xs =>
      Harr xs ((fix go (l : list json) : Forall P l :=
                  match l with
                  | [] => @List.Forall_nil _ _
                  | x :: l' => @List.Forall_cons _ _ x l' (json_nested_ind x) (go l')
                  end) xs)
  | JObj fs =>
      Hobj fs ((fix go (l : list (string * json))
                 : Forall (fun kv => P (snd kv)) l :=
                  match l with
                  | [] => @List.Forall_nil _ _
                  | kv :: l' =>
                      @List.Forall_cons _ _ kv l' (json_nested_ind (snd kv)) (go l')
                  end) fs)
  end.
End json_induction.

(** JavaScript truthiness ([!x], [x || y], [if (x)]) of a JSON value. *)
Definition truthy (v : json) : bool :=
  match v with
  | JNull => false
  | JBool b => b
  | JNum n => negb (n =? 0)
  | JStr s => negb (String.eqb s "")
  | JArr _ | JObj _ => true
  end.

(** Truthiness of a property read: [undefined] (absent) is falsy. *)
Definition truthy_opt (o : option json) : bool :=
  match o with
  | None => false
  | Some v => truthy v
  end.

(** Own-property read [o[k]] on an object literal held as a property list
    (first match; well-formed objects have no repeated keys). *)
Fixpoint assoc (k : string) (fs : list (string * json)) : option json :=
  match fs with
  | [] => None
  | (k', v) :: fs' => if String.eqb k k' then Some v else assoc k fs'
  end.

(** [o[k] = v] on a property list: overwrite in place or append. *)
Fixpoint obj_set (k : string) (v : json) (fs : list (string * json))
  : list (string * json) :=
  match fs with
  | [] => [(k, v)]
  | (k', v') :: fs' =>
      if String.eqb k k' then (k, v) :: fs' else (k', v') :: obj_set k v fs'
  end.

(** A value is well formed when no object in it repeats a key. *)
Fixpoint keys_fresh (ks : list string) : bool :=
  match ks with
  | [] => true
  | k :: ks' => negb (existsb (String.eqb k) ks') && keys_fresh ks'
  end.

Fixpoint json_wf (v : json) : bool :=
  match v with
  | JArr xs => forallb json_wf xs
  | JObj fs =>
      keys_fresh (map fst fs) && forallb (fun kv => json_wf (snd kv)) fs
  | _ => true
  end.

(** ** String primitives of the platform *)

Definition dquote : ascii := "034"%char.
Definition newline : ascii := "010"%char.
Definition NL : string := String newline "".

(** [s.startsWith(p)] *)
Definition startsWith (s p : string) : bool := String.prefix p s.

(** [s.includes(p)] *)
Fixpoint includes (s p : string) : bool :=
  String.prefix p s ||
  match s with
  | EmptyString => false
  | String _ s' => includes s' p
  end.

(** [s.slice(n)] for [0 <= n]. *)
Fixpoint slice (n : nat) (s : string) : string :=
  match n, s with
  | O, _ => s
  | S n', String _ s' => slice n' s'
  | S _, EmptyString => EmptyString
  end.

(** [s.split(sep)] for a one-character separator. *)
Fixpoint split (sep : ascii) (s : string) : list string :=
  match s with
  | EmptyString => [EmptyString]
  | String c s' =>
      if Ascii.eqb c sep then EmptyString :: split sep s'
      else match split sep s' with
           | [] => [String c EmptyString]
           | l :: ls => String c l :: ls
           end
  end.

(** [s.length] *)
Definition strlen (s : string) : Z := Z.of_nat (String.length s).

(** ** The JSON codec of the platform

    [JSON.stringify] and [JSON.parse] are built-ins of the JavaScript
    runtime, not code of this repository.  The programs below are written
    against this interface; its laws are the ones every conforming runtime
    satisfies on the values above: a well-formed value survives
    serialisation, serialised text is a single line, and neither the empty
    string nor the SSE sentinel is JSON text (JSON.parse throws a
    SyntaxError on both, rendered here as [None]). *)
Class JSON := {
  JSON_stringify : json -> string;
  JSON_parse : string -> option json;
  JSON_parse_stringify :
    forall v, json_wf v = true -> JSON_parse (JSON_stringify v) = Some v;
  JSON_stringify_one_line :
    forall v, includes (JSON_stringify v) NL = false;
  JSON_parse_empty : JSON_parse "" = None;
  JSON_parse_DONE : JSON_parse "[DONE]" = None
}.

(** *** A reference codec

    A compact serialiser following ECMA-262 [JSON.stringify] (no
    indentation, minimal escapes) and a recursive-descent parser for RFC 8259
    text.  Characters are code units below 256; numerals with a fraction or
    an exponent and [\u] escapes above code 255 are not values of [json] and
    are rejected. *)
Module Codec.

Definition hex_digit (n : N) : ascii :=
  if (n <? 10)%N then ascii_of_N (48 + n) else ascii_of_N (87 + n).

Definition escape_char (c : ascii) : string :=
  if Ascii.eqb c dquote then String "\" (String dquote "")
  else if Ascii.eqb c "\" then "\\"
  else if Ascii.eqb c "008" then "\b"
  else if Ascii.eqb c "009" then "\t"
  else if Ascii.eqb c "010" then "\n"
  else if Ascii.eqb c "012" then "\f"
  else if Ascii.eqb c "013" then "\r"
  else if (N_of_ascii c <? 32)%N then
    "\u00" +:+ String (hex_digit (N_of_ascii c / 16))
                (String (hex_digit (N_of_ascii c mod 16)) "")
  else String c "".

Fixpoint escape (s : string) : string :=
  match s with
  | EmptyString => EmptyString
  | String c s' => escape_char c +:+ escape s'
  end.

Definition quote (s : string) : string :=
  String dquote (escape s +:+ String dquote "").

Definition number (n : Z) : string := NilZero.string_of_int (Z.to_int n).

Definition elements (f : json -> string) : list json -> string :=
  fix go (l : list json) : string :=
    match l with
    | [] => "]"
    | x :: l' =>
        match l' with
        | [] => f x +:+ "]"
        | _ :: _ => f x +:+ "," +:+ go l'
        end
    end.

Definition members (f : json -> string) : list (string * json) -> string :=
  fix go (l : list (string * json)) : string :=
    match l with
    | [] => "}"
    | kv :: l' =>
        match l' with
        | [] => quote kv.1 +:+ ":" +:+ f kv.2 +:+ "}"
        | _ :: _ => quote kv.1 +:+ ":" +:+ f kv.2 +:+ "," +:+ go l'
        end
    end.

Fixpoint stringify (v : json) : string :=
  match v with
  | JNull => "null"
  | JBool true => "true"
  | JBool false => "false"
  | JNum n => number n
  | JStr s => quote s
  | JArr xs => "[" +:+ elements stringify xs
  | JObj fs => "{" +:+ members stringify fs
  end.

Definition is_ws (c : ascii) : bool :=
  Ascii.eqb c " " || Ascii.eqb c "009" || Ascii.eqb c "010"
  || Ascii.eqb c "013".

Fixpoint skip_ws (s : string) : string :=
  match s with
  | String c s' => if is_ws c then skip_ws s' else s
  | EmptyString => s
  end.

Definition is_digit (c : ascii) : bool :=
  (48 <=? N_of_ascii c)%N && (N_of_ascii c <=? 57)%N.

Fixpoint span_digits (s : string) : string * string :=
  match s with
  | String c s' =>
      if is_digit c then
        let '(ds, r) := span_digits s' in (String c ds, r)
      else (EmptyString, s)
  | EmptyString => (EmptyString, EmptyString)
  end.

(** Digits of a numeral: at least one, and no leading zero before another. *)
Definition parse_nat (s : string) : option (Z * string) :=
  let '(ds, r) := span_digits s in
  if String.eqb ds "" then None
  else if String.prefix "0" ds && negb (String.eqb ds "0") then None
  else u ← NilEmpty.uint_of_string ds; Some (Z.of_uint u, r).

Definition parse_number (s : string) : option (Z * string) :=
  match s with
  | String c s' =>
      if Ascii.eqb c "-" then '(n, r) ← parse_nat s'; Some (- n, r)
      else parse_nat s
  | EmptyString => None
  end.

Definition hex_value (c : ascii) : option N :=
  let n := N_of_ascii c in
  if (48 <=? n)%N && (n <=? 57)%N then Some (n - 48)%N
  else if (97 <=? n)%N && (n <=? 102)%N then Some (n - 87)%N
  else if (65 <=? n)%N && (n <=? 70)%N then Some (n - 55)%N
  else None.

Definition unicode_escape (a b c d : ascii) : option ascii :=
  a' ← hex_value a; b' ← hex_value b; c' ← hex_value c; d' ← hex_value d;
  if ((a' =? 0) && (b' =? 0))%N then Some (ascii_of_N (16 * c' + d'))
  else None.

Definition push (x : ascii) (rest : option (string * string))
  : option (string * string) :=
  '(str, r) ← rest; Some (String x str, r).

(** The characters of a string literal, after its opening quote. *)
Fixpoint parse_chars (s : string) : option (string * string) :=
  match s with
  | EmptyString => None
  | String c r =>
      if Ascii.eqb c dquote then Some (EmptyString, r)
      else if Ascii.eqb c "\" then
        match r with
        | String e r' =>
            if Ascii.eqb e dquote then push dquote (parse_chars r')
            else if Ascii.eqb e "\" then push "\"%char (parse_chars r')
            else if Ascii.eqb e "/" then push "/"%char (parse_chars r')
            else if Ascii.eqb e "b" then push "008"%char (parse_chars r')
            else if Ascii.eqb e "t" then push "009"%char (parse_chars r')
            else if Ascii.eqb e "n" then push "010"%char (parse_chars r')
            else if Ascii.eqb e "f" then push "012"%char (parse_chars r')
            else if Ascii.eqb e "r" then push "013"%char (parse_chars r')
            else if Ascii.eqb e "u" then
              match r' with
              | String h1 (String h2 (String h3 (String h4 r''))) =>
                  x ← unicode_escape h1 h2 h3 h4; push x (parse_chars r'')
              | _ => None
              end
            else None
        | EmptyString => None
        end
      else if (N_of_ascii c <? 32)%N then None
      else push c (parse_chars r)
  end.

Definition expect (lit : string) (s : string) (v : json)
  : option (json * string) :=
  if String.prefix lit s then Some (v, slice (String.length lit) s)
  else None.

(** The next significant character and what follows it. *)
Definition next (s : string) : option (ascii * string) :=
  match skip_ws s with
  | String c r => Some (c, r)
  | EmptyString => None
  end.

Definition object_of (fs : list (string * json)) : json :=
  JObj (fold_left (fun o kv => obj_set kv.1 kv.2 o) fs []).

Fixpoint parse_value (fuel : nat) (s : string) : option (json * string) :=
  match fuel with
  | O => None
  | S fuel' =>
      '(c, r) ← next s;
      if Ascii.eqb c "n" then expect "ull" r JNull
      else if Ascii.eqb c "t" then expect "rue" r (JBool true)
      else if Ascii.eqb c "f" then expect "alse" r (JBool false)
      else if Ascii.eqb c dquote then
        '(str, r') ← parse_chars r; Some (JStr str, r')
      else if Ascii.eqb c "[" then
        if String.prefix "]" (skip_ws r)
        then Some (JArr [], slice 1 (skip_ws r))
        else '(xs, r') ← parse_elements fuel' r; Some (JArr xs, r')
      else if Ascii.eqb c "{" then
        if String.prefix "}" (skip_ws r)
        then Some (JObj [], slice 1 (skip_ws r))
        else '(fs, r') ← parse_members fuel' r; Some (object_of fs, r')
      else '(n, r') ← parse_number (String c r); Some (JNum n, r')
  end
with parse_elements (fuel : nat) (s : string)
  : option (list json * string) :=
  match fuel with
  | O => None
  | S fuel' =>
      '(x, r) ← parse_value fuel' s;
      '(c, r') ← next r;
      if Ascii.eqb c "," then
        '(xs, r'') ← parse_elements fuel' r'; Some (x :: xs, r'')
      else if Ascii.eqb c "]" then Some ([x], r')
      else None
  end
with parse_members (fuel : nat) (s : string)
  : option (list (string * json) * string) :=
  match fuel with
  | O => None
  | S fuel' =>
      '(c, r) ← next s;
      if Ascii.eqb c dquote then
        '(k, r1) ← parse_chars r;
        '(c1, r2) ← next r1;
        if Ascii.eqb c1 ":" then
          '(x, r3) ← parse_value fuel' r2;
          '(c3, r4) ← next r3;
          if Ascii.eqb c3 "," then
            '(fs, r5) ← parse_members fuel' r4; Some ((k, x) :: fs, r5)
          else if Ascii.eqb c3 "}" then Some ([(k, x)], r4)
          else None
        else None
      else None
  end.

Definition parse (s : string) : option json :=
  '(v, r) ← parse_value (2 * String.length s + 2) s;
  if String.eqb (skip_ws r) "" then Some v else None.

End Codec.

(** ** The allow-list of models ([src/lib/constants]) *)

Record model_info := {
  id : string;
  name : string;
  description : string;
  provider : string
}.

Definition AVAILABLE_MODELS : list model_info :=
  [ {| id := "gpt-3.5-turbo"; name := "GPT-3.5 Turbo";
       description := "Fast and efficient"; provider := "openai" |};
    {| id := "gpt-4o"; name := "GPT-4o";
       description := "Optimized for conversations"; provider := "openai" |};
    {| id := "gpt-4o-mini"; name := "GPT-4o Mini";
       description := "Lightweight version"; provider := "openai" |};
    {| id := "claude-sonnet-4-20250514"; name := "Claude Sonnet 4";
       description := "Balanced cost and quality"; provider := "anthropic" |} ].

(** ** The state-sync provider ([src/providers/sync-provider.tsx]) *)

Module Sync.

(** An error object of the Supabase (PostgREST) client. *)
Record pg_error := { code : string }.

(** Requests sent to Supabase, in the order they are issued. *)
Inductive request :=
| GetUser
| Select
| Update (data : gmap string json)
| Insert (data : gmap string json).

(** The provider's React state ([state], [isSync], [isSyncing],
    [isLoading]), the browser's [localStorage] ([None] when the window has
    none), and the remote side: whether [supabase.auth.getUser()] yields a
    user, and that user's single [user_data] row, whose [data] column holds
    the whole mapping ([None]: no row).  The application only ever writes an
    object into [data]; rows with a null [data] are not represented.

    The JavaScript objects used as mappings ([state], [localState], the
    remote blob) are finite maps: the loops over their entries treat each
    key on its own, so the order of enumeration plays no role.  Keys are
    ordinary property names; names that resolve through [Object.prototype]
    (such as [__proto__]) are not represented. *)
Record world := {
  state : gmap string json;
  isSync : bool;
  isSyncing : bool;
  isLoading : bool;
  localStorage : option (gmap string string);
  user : bool;
  user_data : option (gmap string json);
  requests : list request
}.

(** What the network does to the requests of one call: an error returned
    for the [select], and one for the [update] / [insert]. *)
Record network := {
  select_fault : option pg_error;
  write_fault : option pg_error
}.

Definition online : network := {| select_fault := None; write_fault := None |}.

(** The provider as mounted: [useState] initial values. *)
Definition mount (ls : option (gmap string string)) (u : bool)
    (row : option (gmap string json)) : world :=
  {| state := ∅; isSync := true; isSyncing := false; isLoading := true;
     localStorage := ls; user := u; user_data := row; requests := [] |}.

(** A restart of the application: React state is lost, both stores
    persist. *)
Definition restart (w : world) : world :=
  mount (localStorage w) (user w) (user_data w).

(** *** Effects: state passing with exceptions *)

Inductive completion (A : Type) :=
| Normal (a : A)
| Thrown (e : pg_error).
Arguments Normal {A} a.
Arguments Thrown {A} e.

Definition M (A : Type) : Type := world -> completion A * world.

#[export] Instance M_ret : MRet M := fun A a w => (Normal a, w).
#[export] Instance M_bind : MBind M := fun A B f m w =>
  match m w with
  | (Normal a, w') => f a w'
  | (Thrown e, w') => (Thrown e, w')
  end.

Definition throw {A} (e : pg_error) : M A := fun w => (Thrown e, w).

(** [try { body } catch (error) { handler } finally { final }]; the handlers
    of this file do not throw. *)
Definition try_catch_finally (body : M unit) (handler : pg_error -> M unit)
    (final : M unit) : M unit := fun w =>
  match body w with
  | (Normal _, w') => final w'
  | (Thrown e, w') => (handler e ≫= fun _ => final) w'
  end.

Definition setState (f : gmap string json -> gmap string json) : M unit :=
  fun w =>
  (Normal (),
   {| state := f (state w); isSync := isSync w; isSyncing := isSyncing w;
      isLoading := isLoading w; localStorage := localStorage w;
      user := user w; user_data := user_data w; requests := requests w |}).

Definition setIsSync (b : bool) : M unit := fun w =>
  (Normal (),
   {| state := state w; isSync := b; isSyncing := isSyncing w;
      isLoading := isLoading w; localStorage := localStorage w;
      user := user w; user_data := user_data w; requests := requests w |}).

Definition setIsSyncing (b : bool) : M unit := fun w =>
  (Normal (),
   {| state := state w; isSync := isSync w; isSyncing := b;
      isLoading := isLoading w; localStorage := localStorage w;
      user := user w; user_data := user_data w; requests := requests w |}).

Definition setIsLoading (b : bool) : M unit := fun w =>
  (Normal (),
   {| state := state w; isSync := isSync w; isSyncing := isSyncing w;
      isLoading := b; localStorage := localStorage w;
      user := user w; user_data := user_data w; requests := requests w |}).

Definition set_localStorage (ls : option (gmap string string)) (w : world)
  : world :=
  {| state := state w; isSync := isSync w; isSyncing := isSyncing w;
     isLoading := isLoading w; localStorage := ls;
     user := user w; user_data := user_data w; requests := requests w |}.

Definition set_remote (row : option (gmap string json)) (r : request)
    (w : world) : world :=
  {| state := state w; isSync := isSync w; isSyncing := isSyncing w;
     isLoading := isLoading w; localStorage := localStorage w;
     user := user w; user_data := row; requests := requests w ++ [r] |}.

(** [typeof window !== "undefined" && "localStorage" in window] *)
Definition isLocalStorageAvailable : M bool := fun w =>
  (Normal (bool_decide (is_Some (localStorage w))), w).

(** [localStorage.setItem(key, value)] *)
Definition localStorage_setItem (key value : string) : M unit := fun w =>
  (Normal (), set_localStorage (insert key value <$> localStorage w) w).

(** [localStorage.removeItem(key)] *)
Definition localStorage_removeItem (key : string) : M unit := fun w =>
  (Normal (), set_localStorage (delete key <$> localStorage w) w).

(** [await supabase.auth.getUser()] *)
Definition auth_getUser : M bool := fun w =>
  (Normal (user w), set_remote (user_data w) GetUser w).

Definition PGRST116 : pg_error := {| code := "PGRST116" |}.

(** [await supabase.from("user_data").select("data").single()]: the pair
    [(userData?.data, error)]; no row is the error PGRST116. *)
Definition select_single (net : network)
  : M (option (gmap string json) * option pg_error) := fun w =>
  (Normal match select_fault net with
          | Some e => (None, Some e)
          | None =>
              match user_data w with
              | Some d => (Some d, None)
              | None => (None, Some PGRST116)
              end
          end,
   set_remote (user_data w) Select w).

(** [await supabase.from("user_data").update({ data }).neq("data", null)]:
    every visible row receives the blob; no row, no change and no error. *)
Definition update_row (net : network) (data : gmap string json)
  : M (option pg_error) := fun w =>
  match write_fault net with
  | Some e => (Normal (Some e), set_remote (user_data w) (Update data) w)
  | None =>
      (Normal None,
       set_remote (match user_data w with
                   | Some _ => Some data
                   | None => None
                   end) (Update data) w)
  end.

(** Modelled from the spec: the table's schema is not part of the sources;
    the remote store holds a single row per identity, so an [insert] while a
    row exists is refused (unique violation, SQLSTATE 23505).

    [await supabase.from("user_data").insert({ data })] *)
Definition insert_row (net : network) (data : gmap string json)
  : M (option pg_error) := fun w =>
  match write_fault net with
  | Some e => (Normal (Some e), set_remote (user_data w) (Insert data) w)
  | None =>
      match user_data w with
      | None => (Normal None, set_remote (Some data) (Insert data) w)
      | Some _ =>
          (Normal (Some {| code := "23505" |}),
           set_remote (user_data w) (Insert data) w)
      end
  end.

Section programs.
Context {codec : JSON}.

(** [key && !key.startsWith("sb-") && !key.includes("api_key")] *)
Definition eligible (key : string) : bool :=
  negb (String.eqb key "") && negb (startsWith key "sb-")
  && negb (includes key "api_key").

(** [try { JSON.parse(item) } catch { item }] *)
Definition parse_or_raw (item : string) : json :=
  match JSON_parse item with
  | Some v => v
  | None => JStr item
  end.

(** The loop over [localStorage.key(i)]: each stored key is visited once. *)
Definition read_localStorage (ls : gmap string string) : gmap string json :=
  map_fold (fun key item localState =>
              if eligible key then
                if negb (String.eqb item "")
                then <[key := parse_or_raw item]> localState
                else localState
              else localState) ∅ ls.

(** [!localState[key] ||
     JSON.stringify(localState[key]) !== JSON.stringify(value)] *)
Definition remote_wins (local : option json) (value : json) : bool :=
  match local with
  | None => true
  | Some l =>
      negb (truthy l)
      || negb (String.eqb (JSON_stringify l) (JSON_stringify value))
  end.

(** The loop over [Object.entries(supabaseData)], on
    [(mergedState, localStorage, hasUpdates)]. *)
Definition merge_entries (localState supabaseData : gmap string json)
    (ls : gmap string string)
  : gmap string json * gmap string string * bool :=
  map_fold (fun key value acc =>
              if remote_wins (localState !! key) value
              then (<[key := value]> acc.1.1,
                    <[key := JSON_stringify value]> acc.1.2, true)
              else acc) (localState, ls, false) supabaseData.

Definition loadInitialState (net : network) : M unit :=
  available ← isLocalStorageAvailable;
  if negb available then setIsLoading false
  else
    try_catch_finally
      (fun w =>
         let ls := default ∅ (localStorage w) in
         let localState := read_localStorage ls in
         (setState (fun _ => localState);;
          user ← auth_getUser;
          if user : bool then
            '(userData, error) ← select_single net;
            match error, userData with
            | None, Some supabaseData =>
                let '(mergedState, ls', hasUpdates) :=
                  merge_entries localState supabaseData ls in
                (fun w' => (Normal (), set_localStorage (Some ls') w'));;
                if hasUpdates : bool then setState (fun _ => mergedState)
                else mret ()
            | _, _ => mret ()
            end
          else mret ()) w)
      (fun error => mret ())
      (setIsLoading false).

Definition updateState (net : network) (key : string) (data : json)
  : M unit :=
  available ← isLocalStorageAvailable;
  if negb available then mret ()
  else
    setIsSyncing true;;
    setIsSync false;;
    try_catch_finally
      (setState (fun prevState => <[key := data]> prevState);;
       let serializedData := JSON_stringify data in
       localStorage_setItem key serializedData;;
       user ← auth_getUser;
       (if user : bool then
          '(userData, fetchError) ← select_single net;
          match fetchError with
          | Some e =>
              if negb (String.eqb (code e) "PGRST116") then throw e
              else mret ()
          | None => mret ()
          end;;
          let currentData := default ∅ userData in
          let updatedData := <[key := data]> currentData in
          match userData with
          | Some _ =>
              updateError ← update_row net updatedData;
              match updateError with
              | Some e => throw e
              | None => mret ()
              end
          | None =>
              insertError ← insert_row net updatedData;
              match insertError with
              | Some e => throw e
              | None => mret ()
              end
          end
        else mret ());;
       setIsSync true)
      (fun error => setIsSync false)
      (setIsSyncing false).

(** [clearState]: the [try] has a [catch] that only logs, and no
    [finally]. *)
Definition clearState (net : network) (key : string) : M unit :=
  available ← isLocalStorageAvailable;
  if negb available then mret ()
  else
    try_catch_finally
      (setState (fun prevState => delete key prevState);;
       localStorage_removeItem key;;
       user ← auth_getUser;
       (if user : bool then
          '(userData, fetchError) ← select_single net;
          match fetchError, userData with
          | None, Some data =>
              let updatedData := delete key data in
              updateError ← update_row net updatedData;
              match updateError with
              | Some e => throw e
              | None => mret ()
              end
          | _, _ => mret ()
          end
        else mret ());;
       setIsSync true)
      (fun error => mret ())
      (mret ()).

(** *** [updateState] between its suspension points

    An [async] function runs from one [await] to the next without
    interruption; other calls may run while it is suspended.  A suspended
    request takes effect on the remote side when the call resumes. *)
Inductive stage :=
| Called
| AwaitingUser
| AwaitingRow
| AwaitingWrite (updatedData : gmap string json) (existing : bool)
| Settled.

Record call := {
  c_net : network;
  c_key : string;
  c_data : json;
  c_stage : stage
}.

Definition at_stage (c : call) (s : stage) : call :=
  {| c_net := c_net c; c_key := c_key c; c_data := c_data c; c_stage := s |}.

Definition exec (m : M unit) (w : world) : world := (m w).2.

(** The end of the [try] block, then [finally]. *)
Definition settle_ok : M unit := setIsSync true;; setIsSyncing false.
(** [catch], then [finally]. *)
Definition settle_error : M unit := setIsSync false;; setIsSyncing false.

Definition step (c : call) (w : world) : call * world :=
  match c_stage c with
  | Called =>
      match localStorage w with
      | None => (at_stage c Settled, w)
      | Some _ =>
          (at_stage c AwaitingUser,
           exec (setIsSyncing true;;
                 setIsSync false;;
                 setState (fun prevState => <[c_key c := c_data c]> prevState);;
                 localStorage_setItem (c_key c) (JSON_stringify (c_data c))) w)
      end
  | AwaitingUser =>
      match auth_getUser w with
      | (Normal true, w') => (at_stage c AwaitingRow, w')
      | (_, w') => (at_stage c Settled, exec settle_ok w')
      end
  | AwaitingRow =>
      match select_single (c_net c) w with
      | (Normal (userData, fetchError), w') =>
          match fetchError with
          | Some e =>
              if negb (String.eqb (code e) "PGRST116")
              then (at_stage c Settled, exec settle_error w')
              else (at_stage c
                      (AwaitingWrite (<[c_key c := c_data c]> (default ∅ userData))
                                     (bool_decide (is_Some userData))), w')
          | None =>
              (at_stage c
                 (AwaitingWrite (<[c_key c := c_data c]> (default ∅ userData))
                                (bool_decide (is_Some userData))), w')
          end
      | (Thrown _, w') => (at_stage c Settled, exec settle_error w')
      end
  | AwaitingWrite updatedData existing =>
      match (if existing then update_row (c_net c) updatedData
             else insert_row (c_net c) updatedData) w with
      | (Normal None, w') => (at_stage c Settled, exec settle_ok w')
      | (_, w') => (at_stage c Settled, exec settle_error w')
      end
  | Settled => (c, w)
  end.

(** Two calls in flight, resumed in the order the schedule gives. *)
Inductive turn := First | Second.

Fixpoint run (schedule : list turn) (a b : call) (w : world)
  : call * call * world :=
  match schedule with
  | [] => (a, b, w)
  | First :: rest => let '(a', w') := step a w in run rest a' b w'
  | Second :: rest => let '(b', w') := step b w in run rest a b' w'
  end.

End programs.
End Sync.

(** ** The chat route ([src/app/(chat)/api/chat]) *)

Module Chat.

(** *** Provider side *)

(** A chunk of the OpenAI SDK's stream (type [ChatCompletionChunk]). *)
Record choice := {
  delta_content : option string;
  finish_reason : option string
}.

Record completion_usage := {
  prompt_tokens : Z;
  completion_tokens : Z;
  total_tokens : Z
}.

Record openai_chunk := {
  choices : list choice;
  usage : option completion_usage
}.

(** How a provider stream ends: exhausted, or the read rejects. *)
Inductive stream_end := Finished | Interrupted.

(** [openaiClient.chat.completions.create] rejects on a non-success status
    (the SDK throws an [APIError]); otherwise it yields the chunks. *)
Inductive openai_reply :=
| OpenAIRejected (status : Z)
| OpenAIStream (chunks : list openai_chunk) (fin : stream_end).

(** The [Response] of [fetch] to the Anthropic API: [reads] are the decoded
    texts that successive [reader.read()] calls deliver. *)
Record anthropic_reply := {
  ok : bool;
  status : Z;
  statusText : string;
  body : option (list string * stream_end)
}.

Record providers := {
  openai : openai_reply;
  anthropic : anthropic_reply;
  OPENAI_API_KEY : option string;
  ANTHROPIC_API_KEY : option string
}.

(** Requests made to a completion provider. *)
Inductive provider_call :=
| OpenAICreate (model messages : json) (stream include_usage : bool)
    (apiKey : option json)
| AnthropicFetch (url method : string) (apiKey : option json)
    (request_body : string).

(** JavaScript errors raised by the route. *)
Inductive error :=
| APIError (status : Z)
| AnthropicAPIError (status : Z) (statusText : string)
| BodyUnreadable
| StreamFailure
| UnknownProvider (provider : json)
| ModelNotSupported (model : json)
| RequestBodyError.

(** Calls on the [ReadableStreamDefaultController], in order. *)
Inductive controller_op :=
| Enqueue (frame : string)
| Close
| Error (e : error).

(** *** Property reads on parsed JSON *)

(** [v.k] where [v] is not null: own property of an object, [undefined]
    otherwise (none of the names read here exist on primitives or arrays). *)
Definition prop (v : json) (k : string) : option json :=
  match v with
  | JObj fs => assoc k fs
  | _ => None
  end.

(** [o?.k] *)
Definition opt_chain (o : option json) (k : string) : option json :=
  match o with
  | None | Some JNull => None
  | Some v => prop v k
  end.

(** [o === "lit"] *)
Definition is_str (o : option json) (lit : string) : bool :=
  match o with
  | Some (JStr s) => String.eqb s lit
  | _ => false
  end.

(** [x || 0] *)
Definition or_zero (o : option json) : json :=
  if truthy_opt o then default (JNum 0) o else JNum 0.

(** [t.length] as a summand: a number for strings and arrays; [undefined]
    for numbers and booleans, which turns the sum into NaN ([None]).  For an
    object the own property [length] is read; only a numeric one is
    followed. *)
Definition js_length (t : json) : option Z :=
  match t with
  | JStr s => Some (strlen s)
  | JArr l => Some (Z.of_nat (length l))
  | JObj fs =>
      match assoc "length" fs with
      | Some (JNum n) => Some n
      | _ => None
      end
  | _ => None
  end.

(** [a + b] on token counts; [None] when an operand is not a number. *)
Definition js_add (a b : json) : option Z :=
  match a, b with
  | JNum x, JNum y => Some (x + y)
  | _, _ => None
  end.

Record anthropic_usage := {
  input_tokens : json;
  output_tokens : json;
  characters : option Z
}.

Record usage_log := {
  totalTokens : option Z;
  inputTokens : json;
  outputTokens : json;
  totalCharacters : Z;
  finishReason : string
}.

Section programs.
Context {codec : JSON}.

(** [`data: ${JSON.stringify(v)}\n\n`] *)
Definition sse (v : json) : string :=
  "data: " +:+ JSON_stringify v +:+ NL +:+ NL.

Definition metadata_frame (model : json) : string :=
  sse (JObj [("type", JStr "metadata"); ("model", model)]).

Definition content_frame (content : json) : string :=
  sse (JObj [("type", JStr "content"); ("content", content)]).

Definition done_frame : string := "data: [DONE]" +:+ NL +:+ NL.

(** *** anthropic-helper.ts *)

(** The body of the [try] for one [data: ] line; [None] when it throws
    (SyntaxError from [JSON.parse], TypeError on a null receiver), which the
    [catch] logs.  Nothing has been changed when that happens. *)
Definition on_data (data : string)
    (st : anthropic_usage * list controller_op)
  : option (anthropic_usage * list controller_op) :=
  parsed ← JSON_parse data;
  match parsed with
  | JNull => None
  | _ =>
      let type := prop parsed "type" in
      st1 ←
        (if is_str type "content_block_delta"
            && is_str (opt_chain (prop parsed "delta") "type") "text_delta"
         then
           match opt_chain (prop parsed "delta") "text" with
           | None | Some JNull => None
           | Some text =>
               Some ({| input_tokens := input_tokens st.1;
                        output_tokens := output_tokens st.1;
                        characters :=
                          c ← characters st.1; l ← js_length text;
                          Some (c + l) |},
                     st.2 ++ [Enqueue (content_frame text)])
           end
         else Some st);
      let st2 :=
        if is_str type "message_start"
           && truthy_opt (opt_chain (prop parsed "message") "usage")
        then ({| input_tokens :=
                   or_zero (opt_chain (opt_chain (prop parsed "message") "usage")
                                      "input_tokens");
                 output_tokens := output_tokens st1.1;
                 characters := characters st1.1 |}, st1.2)
        else st1 in
      let st3 :=
        if is_str type "message_delta" && truthy_opt (prop parsed "usage")
        then ({| input_tokens := input_tokens st2.1;
                 output_tokens :=
                   or_zero (opt_chain (prop parsed "usage") "output_tokens");
                 characters := characters st2.1 |}, st2.2)
        else st2 in
      Some st3
  end.

(** [for (const line of lines)], with its [break] on the sentinel. *)
Fixpoint on_lines (lines : list string)
    (st : anthropic_usage * list controller_op)
  : anthropic_usage * list controller_op :=
  match lines with
  | [] => st
  | line :: rest =>
      if startsWith line "data: " then
        let data := slice 6 line in
        if String.eqb data "[DONE]" then st
        else on_lines rest (default st (on_data data st))
      else on_lines rest st
  end.

(** [while (true)] over [reader.read()]. *)
Fixpoint on_reads (reads : list string)
    (st : anthropic_usage * list controller_op)
  : anthropic_usage * list controller_op :=
  match reads with
  | [] => st
  | chunk :: rest => on_reads rest (on_lines (split newline chunk) st)
  end.

Definition anthropic_request (model messages : json) (apiKey : option json)
  : provider_call :=
  AnthropicFetch "https://api.anthropic.com/v1/messages" "POST" apiKey
    (JSON_stringify
       (JObj [("model", model); ("messages", messages);
              ("max_tokens", JNum 1024); ("stream", JBool true)])).

(** [anthropicStream(params, encoder, controller)]: the request it makes,
    the controller calls it adds, and its completion. *)
Definition anthropicStream (model messages : json) (apiKey : option json)
    (reply : anthropic_reply) (trace : list controller_op)
  : provider_call * list controller_op * (error + anthropic_usage) :=
  let request := anthropic_request model messages apiKey in
  if negb (ok reply) then
    (request, trace, inl (AnthropicAPIError (status reply) (statusText reply)))
  else
    match body reply with
    | None => (request, trace, inl BodyUnreadable)
    | Some (reads, fin) =>
        let usage0 := {| input_tokens := JNum 0; output_tokens := JNum 0;
                         characters := Some 0 |} in
        let '(usage, trace') := on_reads reads (usage0, trace) in
        match fin with
        | Finished => (request, trace', inr usage)
        | Interrupted => (request, trace', inl StreamFailure)
        end
    end.

(** *** route.ts *)

Record http_request := {
  session : option string;
  entitled : bool;
  request_json : option json
}.

Inductive response :=
| JsonResponse (status : Z) (error : string)
| EventStream (trace : list controller_op).

(** What a request leaves behind: the response, the provider requests made,
    the error given to [console.error] by the outer [catch], the usage
    totals written to the log, and whether [sendEvent] ran. *)
Record outcome := {
  response_of : response;
  calls : list provider_call;
  caught : option error;
  logged : option usage_log;
  event_sent : bool
}.

(** The loop [for await (const chunk of stream)] on
    [(totals, controller calls)]. *)
Definition on_chunk (chunk : openai_chunk)
    (st : usage_log * list controller_op) : usage_log * list controller_op :=
  let content := default "" (head (choices chunk) ≫= delta_content) in
  let st1 :=
    if negb (String.eqb content "") then
      ({| totalTokens := totalTokens st.1; inputTokens := inputTokens st.1;
          outputTokens := outputTokens st.1;
          totalCharacters := totalCharacters st.1 + strlen content;
          finishReason := finishReason st.1 |},
       st.2 ++ [Enqueue (content_frame (JStr content))])
    else st in
  let st2 :=
    match usage chunk with
    | Some u =>
        ({| totalTokens := Some (total_tokens u);
            inputTokens := JNum (prompt_tokens u);
            outputTokens := JNum (completion_tokens u);
            totalCharacters := totalCharacters st1.1;
            finishReason := finishReason st1.1 |}, st1.2)
    | None => st1
    end in
  match head (choices chunk) ≫= finish_reason with
  | Some r =>
      if negb (String.eqb r "") then
        ({| totalTokens := totalTokens st2.1; inputTokens := inputTokens st2.1;
            outputTokens := outputTokens st2.1;
            totalCharacters := totalCharacters st2.1;
            finishReason := r |}, st2.2)
      else st2
  | None => st2
  end.

(** [userApiKey || process.env.KEY] *)
Definition api_key (userApiKey : option json) (env : option string)
  : option json :=
  if truthy_opt userApiKey then userApiKey else JStr <$> env.

(** [start(controller)] of the response stream: the provider requests it
    makes, the controller calls in order, and the usage totals it logs when
    it reaches the end.  The SDK client is taken to accept the key it is
    given.  ([new OpenAI] is code of the SDK: it refuses to build a client
    when it is given no key at all, neither [userApiKey] nor
    [OPENAI_API_KEY], and no request is made then.  The replies of
    [openai env] stand for the runs in which the client was built; what is
    proved of the request to OpenAI itself is stated for a key that is
    present.) *)
Definition start (env : providers) (model messages provider : json)
    (userApiKey : option json)
  : list provider_call * list controller_op * option usage_log :=
  let trace := [Enqueue (metadata_frame model)] in
  let totals := {| totalTokens := Some 0; inputTokens := JNum 0;
                   outputTokens := JNum 0; totalCharacters := 0;
                   finishReason := "" |} in
  let finish (cs : list provider_call) (st : usage_log * list controller_op) :=
    (cs, st.2 ++ [Enqueue done_frame; Close], Some st.1) in
  if is_str (Some provider) "openai" then
    let request :=
      OpenAICreate model messages true true
        (api_key userApiKey (OPENAI_API_KEY env)) in
    match openai env with
    | OpenAIRejected st => ([request], trace ++ [Error (APIError st)], None)
    | OpenAIStream chunks fin =>
        let st := fold_left (fun st chunk => on_chunk chunk st) chunks
                    (totals, trace) in
        match fin with
        | Finished => finish [request] st
        | Interrupted => ([request], st.2 ++ [Error StreamFailure], None)
        end
    end
  else if is_str (Some provider) "anthropic" then
    match anthropicStream model messages
            (api_key userApiKey (ANTHROPIC_API_KEY env)) (anthropic env) trace
    with
    | (request, trace', inr usage) =>
        finish [request]
          ({| totalTokens :=
                js_add (input_tokens usage) (output_tokens usage);
              inputTokens := input_tokens usage;
              outputTokens := output_tokens usage;
              totalCharacters := default 0 (characters usage);
              finishReason := "" |}, trace')
    | (request, trace', inl e) => ([request], trace' ++ [Error e], None)
    end
  else ([], trace ++ [Error (UnknownProvider provider)], None).

Definition internal_error (e : error) : outcome :=
  {| response_of := JsonResponse 500 "Internal server error"; calls := [];
     caught := Some e; logged := None; event_sent := true |}.

Definition POST (env : providers) (request : http_request) : outcome :=
  match session request with
  | None =>
      {| response_of := JsonResponse 401 "Unauthorized"; calls := [];
         caught := None; logged := None; event_sent := false |}
  | Some userId =>
      if negb (entitled request) then
        {| response_of := JsonResponse 401 "Not entitled"; calls := [];
           caught := None; logged := None; event_sent := false |}
      else
        match request_json request with
        | None | Some JNull => internal_error RequestBodyError
        | Some b =>
            let messages := prop b "messages" in
            let model := default (JStr "gpt-3.5-turbo") (prop b "model") in
            let provider := default (JStr "openai") (prop b "provider") in
            let userApiKey := prop b "userApiKey" in
            match messages with
            | Some (JArr _ as messages) =>
                match find (fun m => is_str (Some model) (id m))
                        AVAILABLE_MODELS with
                | None => internal_error (ModelNotSupported model)
                | Some supportedModel =>
                    let '(cs, trace, log) :=
                      start env model messages provider userApiKey in
                    {| response_of := EventStream trace; calls := cs;
                       caught := None; logged := log; event_sent := true |}
                end
            | _ =>
                {| response_of :=
                     JsonResponse 400 "Messages array is required";
                   calls := []; caught := None; logged := None;
                   event_sent := true |}
            end
        end
  end.

End programs.
End Chat.

(** ** The chat page (the client of the provider and of the route) *)

Module ChatPage.
Import Chat.

Record Attachment := {
  att_id : string;
  att_name : string;
  att_type : string;
  att_size : Z;
  att_data : string;
  att_mimeType : string;
  att_supabasePath : option string
}.

Record Message := {
  msg_id : string;
  msg_role : string;
  msg_content : string;
  msg_timestamp : Z;
  msg_model : option string;
  msg_attachments : option (list Attachment)
}.

Record Chat := {
  chat_id : string;
  chat_title : string;
  chat_messages : list Message;
  chat_createdAt : Z;
  chat_updatedAt : Z
}.

Record ChatsData := {
  chats : list Chat;
  currentChatId : option string
}.

(** [s.trim()]: white space and line terminators among the code units
    below 256. *)
Definition is_space (c : ascii) : bool :=
  let n := N_of_ascii c in
  ((9 <=? n) && (n <=? 13) || (n =? 32) || (n =? 160))%N.

Fixpoint trim_start (s : string) : string :=
  match s with
  | String c s' => if is_space c then trim_start s' else s
  | EmptyString => EmptyString
  end.

Fixpoint trim_end (s : string) : string :=
  match s with
  | EmptyString => EmptyString
  | String c s' =>
      match trim_end s' with
      | EmptyString => if is_space c then EmptyString else String c EmptyString
      | t => String c t
      end
  end.

Definition trim (s : string) : string := trim_end (trim_start s).

(** The value handed to [saveChats] by [createNewChat]; the identifier and
    the date come from [uuidv4()] and [new Date()]. *)
Definition createNewChat (newId : string) (now : Z) (chatsData : ChatsData)
  : ChatsData :=
  let newChat := {| chat_id := newId; chat_title := "New Chat";
                    chat_messages := []; chat_createdAt := now;
                    chat_updatedAt := now |} in
  {| chats := newChat :: chats chatsData; currentChatId := Some newId |}.

(** The value handed to [saveChats] by [selectChat]. *)
Definition selectChat (chatId : string) (chatsData : ChatsData) : ChatsData :=
  {| chats := chats chatsData; currentChatId := Some chatId |}.

(** The value handed to [saveChats] by [deleteChat]. *)
Definition deleteChat (chatId : string) (chatsData : ChatsData) : ChatsData :=
  let updatedChats :=
    List.filter (fun chat => negb (String.eqb (chat_id chat) chatId))
      (chats chatsData) in
  let newCurrentChatId :=
    match currentChatId chatsData with
    | Some current =>
        if String.eqb current chatId then
          match updatedChats with
          | first :: _ => Some (chat_id first)
          | [] => None
          end
        else Some current
    | None => None
    end in
  {| chats := updatedChats; currentChatId := newCurrentChatId |}.

(** One attachment of a message with attachments, as content parts.  A
    property whose value is [undefined] (the base64 text of an image whose
    data has no comma) is left out, as [JSON.stringify] does when the
    request body is built. *)
Definition attachment_parts (provider : string) (attachment : Attachment)
  : list json :=
  if String.eqb (att_type attachment) "image" then
    if String.eqb provider "openai" then
      [JObj [("type", JStr "image_url");
             ("image_url", JObj [("url", JStr (att_data attachment))])]]
    else if String.eqb provider "anthropic" then
      let base64Data := nth_error (split "," (att_data attachment)) 1 in
      [JObj [("type", JStr "image");
             ("source",
              JObj ([("type", JStr "base64");
                     ("media_type", JStr (att_mimeType attachment))]
                    ++ match base64Data with
                       | Some d => [("data", JStr d)]
                       | None => []
                       end))]]
    else []
  else if String.eqb (att_type attachment) "text" then
    [JObj [("type", JStr "text");
           ("text", JStr ("File: " +:+ att_name attachment +:+ NL +:+ NL
                          +:+ att_data attachment))]]
  else [].

Definition format_message (provider : string) (message : Message) : json :=
  match msg_attachments message with
  | None | Some [] =>
      JObj [("role", JStr (msg_role message));
            ("content", JStr (msg_content message))]
  | Some attachments =>
      let text_part :=
        if negb (String.eqb (trim (msg_content message)) "")
        then [JObj [("type", JStr "text");
                    ("text", JStr (msg_content message))]]
        else [] in
      JObj [("role", JStr (msg_role message));
            ("content",
             JArr (text_part
                   ++ concat (map (attachment_parts provider) attachments)))]
  end.

Definition formatMessagesForAPI (messages : list Message) (provider : string)
  : list json :=
  map (format_message provider) messages.

(** [AVAILABLE_MODELS.find((m) => m.id === selectedModel)?.provider
     || "openai"] *)
Definition provider_for (selectedModel : json) : string :=
  match find (fun m => is_str (Some selectedModel) (id m)) AVAILABLE_MODELS with
  | Some m => if String.eqb (provider m) "" then "openai" else provider m
  | None => "openai"
  end.

(** [content.substring(0, 50) + (content.length > 50 ? "..." : "")] *)
Definition auto_title (content : string) : string :=
  String.substring 0 50 content
  +:+ (if (50 <? String.length content)%nat then "..." else "").

(** [sendMessage]: the chats with the user's message added to the current
    chat. *)
Definition add_user_message (currentId : string) (userMessage : Message)
    (now : Z) (chatsData : ChatsData) : ChatsData :=
  {| chats :=
       map (fun chat =>
              if String.eqb (chat_id chat) currentId then
                {| chat_id := chat_id chat; chat_title := chat_title chat;
                   chat_messages := chat_messages chat ++ [userMessage];
                   chat_createdAt := chat_createdAt chat;
                   chat_updatedAt := now |}
              else chat) (chats chatsData);
     currentChatId := currentChatId chatsData |}.

(** [sendMessage]: the chats with the assistant's message added; a chat that
    holds a single message at that point takes its title from it. *)
Definition add_assistant_message (currentId : string)
    (assistantMessage : Message) (now : Z) (chatsData : ChatsData)
  : ChatsData :=
  {| chats :=
       map (fun chat =>
              if String.eqb (chat_id chat) currentId then
                {| chat_id := chat_id chat;
                   chat_title :=
                     match chat_messages chat with
                     | [only] => auto_title (msg_content only)
                     | _ => chat_title chat
                     end;
                   chat_messages := chat_messages chat ++ [assistantMessage];
                   chat_createdAt := chat_createdAt chat;
                   chat_updatedAt := now |}
              else chat) (chats chatsData);
     currentChatId := currentChatId chatsData |}.

(** [String(v)] for a JSON value, as [+=] on a string applies it: an array
    joins its elements with commas, [null] elements as the empty string.
    Integers print in plain decimal (magnitudes below 10^21). *)
Fixpoint js_string (v : json) : string :=
  match v with
  | JNull => "null"
  | JBool true => "true"
  | JBool false => "false"
  | JNum n => Codec.number n
  | JStr s => s
  | JArr xs =>
      (fix join (l : list json) : string :=
         match l with
         | [] => ""
         | x :: l' =>
             let here := match x with JNull => "" | _ => js_string x end in
             match l' with
             | [] => here
             | _ :: _ => here +:+ "," +:+ join l'
             end
         end) xs
  | JObj _ => "[object Object]"
  end.

(** A file picked in the file input, with what the browser provides while
    it is handled: the identifier drawn for it, the result of the
    [FileReader] ([None] when it fails), and the path returned by the upload
    ([None] when the upload failed). *)
Record File := {
  file_name : string;
  file_type : string;
  file_size : Z;
  file_uuid : string;
  file_result : option string;
  file_uploaded : option string
}.

Definition supportedTypes : list string :=
  ["image/jpeg"; "image/png"; "image/gif"; "image/webp";
   "text/plain"; "text/csv"; "application/json"; "text/markdown"].

(** [processFile]: the attachment made from the reader's result. *)
Definition processFile (file : File) (result : string) : Attachment :=
  {| att_id := file_uuid file;
     att_name := file_name file;
     att_type :=
       if startsWith (file_type file) "image/" then "image"
       else if startsWith (file_type file) "text/"
               || String.eqb (file_type file) "application/json"
            then "text"
            else "file";
     att_size := file_size file;
     att_data := result;
     att_mimeType := file_type file;
     att_supabasePath := None |}.

(** [handleFileSelect]: the attachments added for the picked files. *)
Fixpoint handleFileSelect (files : list File) : list Attachment :=
  match files with
  | [] => []
  | file :: rest =>
      if 10 * 1024 * 1024 <? file_size file then handleFileSelect rest
      else if negb (existsb (String.eqb (file_type file)) supportedTypes)
      then handleFileSelect rest
      else
        match file_result file with
        | None => handleFileSelect rest
        | Some result =>
            let attachment := processFile file result in
            {| att_id := att_id attachment;
               att_name := att_name attachment;
               att_type := att_type attachment;
               att_size := att_size attachment;
               att_data := att_data attachment;
               att_mimeType := att_mimeType attachment;
               att_supabasePath := file_uploaded file |}
            :: handleFileSelect rest
        end
  end.

(** What the page holds when [sendMessage] is called. *)
Record page := {
  inputMessage : string;
  attachments : list Attachment;
  isLoadingMessage : bool;
  currentChat : option Chat;
  chatsData : ChatsData;
  selectedModel : string;
  user : bool
}.

(** The identifiers and dates drawn during one [sendMessage]. *)
Record fresh := {
  userMessageId : string;
  userMessageAt : Z;
  userSavedAt : Z;
  assistantMessageId : string;
  assistantMessageAt : Z;
  assistantSavedAt : Z
}.

(** What [fetch("/api/chat")] gives the page: a rejection, or a response
    with its status and, when it has a body, the texts its reads deliver. *)
Inductive backend_reply :=
| FetchRejected
| Replied (ok : bool) (body : option (list string * stream_end)).

(** What one [sendMessage] leaves behind: the values given to [saveChats],
    in order, and the body posted to [/api/chat]. *)
Record sent := {
  saved : list ChatsData;
  posted : option string
}.

Section programs.
Context {codec : JSON}.

(** [callBackendAPI]: the body of the request to [/api/chat]. *)
Definition request_body (messages : list json) (selectedModel : json)
  : string :=
  JSON_stringify
    (JObj [("messages", JArr messages); ("model", selectedModel);
           ("provider", JStr (provider_for selectedModel))]).

(** [sendMessage]: the [try] around one [data: ] line of the response. *)
Definition on_event (data : string) (assistantContent : string) : string :=
  match JSON_parse data with
  | None | Some JNull => assistantContent
  | Some parsed =>
      if is_str (prop parsed "type") "content"
         && truthy_opt (prop parsed "content")
      then assistantContent +:+ js_string (default JNull (prop parsed "content"))
      else assistantContent
  end.

(** [for (const line of lines)], with its [break] on the sentinel. *)
Fixpoint receive_lines (lines : list string) (assistantContent : string)
  : string :=
  match lines with
  | [] => assistantContent
  | line :: rest =>
      if startsWith line "data: " then
        let data := slice 6 line in
        if String.eqb data "[DONE]" then assistantContent
        else receive_lines rest (on_event data assistantContent)
      else receive_lines rest assistantContent
  end.

(** [while (true)] over [reader.read()] of the response body. *)
Fixpoint receive_reads (reads : list string) (assistantContent : string)
  : string :=
  match reads with
  | [] => assistantContent
  | chunk :: rest =>
      receive_reads rest (receive_lines (split newline chunk) assistantContent)
  end.

(** [sendMessage]: what it saves and what it posts, given the reply of the
    backend. *)
Definition sendMessage (p : page) (f : fresh) (reply : backend_reply) : sent :=
  if (String.eqb (trim (inputMessage p)) ""
      && (length (attachments p) =? 0)%nat)
     || isLoadingMessage p
  then {| saved := []; posted := None |}
  else
    let modelProvider := provider_for (JStr (selectedModel p)) in
    match currentChat p with
    | None => {| saved := []; posted := None |}
    | Some currentChat =>
        let messageContent := trim (inputMessage p) in
        let messageAttachments :=
          if (0 <? length (attachments p))%nat then Some (attachments p)
          else None in
        let userMessage :=
          {| msg_id := userMessageId f; msg_role := "user";
             msg_content := messageContent;
             msg_timestamp := userMessageAt f; msg_model := None;
             msg_attachments := messageAttachments |} in
        let newChatsData :=
          add_user_message (chat_id currentChat) userMessage (userSavedAt f)
            (chatsData p) in
        let messagesToSend :=
          formatMessagesForAPI (chat_messages currentChat ++ [userMessage])
            modelProvider in
        let finish (assistantContent : string) :=
          add_assistant_message (chat_id currentChat)
            {| msg_id := assistantMessageId f; msg_role := "assistant";
               msg_content := assistantContent;
               msg_timestamp := assistantMessageAt f;
               msg_model := Some (selectedModel p);
               msg_attachments := None |}
            (assistantSavedAt f) newChatsData in
        if user p then
          let request :=
            Some (request_body messagesToSend (JStr (selectedModel p))) in
          match reply with
          | FetchRejected => {| saved := [newChatsData]; posted := request |}
          | Replied ok body =>
              if negb ok then {| saved := [newChatsData]; posted := request |}
              else
                match body with
                | None =>
                    {| saved := [newChatsData; finish ""];
                       posted := request |}
                | Some (reads, Finished) =>
                    {| saved := [newChatsData;
                                 finish (receive_reads reads "")];
                       posted := request |}
                | Some (reads, Interrupted) =>
                    {| saved := [newChatsData]; posted := request |}
                end
          end
        else {| saved := [newChatsData; finish ""]; posted := None |}
    end.

End programs.
End ChatPage.

(** * Properties *)

(** ** Strings *)

Module StringFacts.

Lemma append_cons c (a b : string) : String c a +:+ b = String c (a +:+ b).
Proof. reflexivity. Qed.

Lemma lit_append c r : String c "" +:+ r = String c r.
Proof. reflexivity. Qed.

Lemma append_assoc (a b c : string) : (a +:+ b) +:+ c = a +:+ (b +:+ c).
Proof.
  induction a as [|x a IH]; [reflexivity|].
  rewrite !append_cons, IH. reflexivity.
Qed.

Lemma append_nil_r (a : string) : a +:+ "" = a.
Proof.
  induction a as [|x a IH]; [reflexivity|]. rewrite append_cons, IH.
  reflexivity.
Qed.

Lemma length_append (a b : string) :
  String.length (a +:+ b) = (String.length a + String.length b)%nat.
Proof.
  induction a as [|x a IH]; [reflexivity|].
  rewrite append_cons. cbn [String.length]. rewrite IH. reflexivity.
Qed.

Lemma prefix_nil s : String.prefix "" s = true.
Proof. destruct s; reflexivity. Qed.

Lemma prefix_append lit rest : String.prefix lit (lit +:+ rest) = true.
Proof.
  induction lit as [|c lit IH]; [apply prefix_nil|].
  rewrite append_cons. cbn [String.prefix].
  destruct (ascii_dec c c); [exact IH|done].
Qed.

Lemma prefix_lit c r : String.prefix (String c "") (String c r) = true.
Proof. apply (prefix_append (String c "") r). Qed.

Lemma slice_append lit rest : slice (String.length lit) (lit +:+ rest) = rest.
Proof. induction lit as [|c lit IH]; [reflexivity|exact IH]. Qed.

Lemma includes_NL_cons c s :
  includes (String c s) NL = Ascii.eqb c newline || includes s NL.
Proof.
  cbn [includes NL String.prefix].
  destruct (ascii_dec newline c) as [<-|Hne].
  - rewrite Ascii.eqb_refl. destruct s; reflexivity.
  - rewrite (proj2 (Ascii.eqb_neq c newline)) by congruence. reflexivity.
Qed.

Lemma includes_NL_app a b :
  includes (a +:+ b) NL = includes a NL || includes b NL.
Proof.
  induction a as [|c a IH].
  - reflexivity.
  - change (String c a +:+ b) with (String c (a +:+ b)).
    rewrite !includes_NL_cons, IH. apply orb_assoc.
Qed.

End StringFacts.

(** ** The reference codec satisfies the laws of the interface *)

Module CodecFacts.
Import Codec StringFacts.

Lemma escape_char_one_line c : includes (escape_char c) NL = false.
Proof. destruct c as [[] [] [] [] [] [] [] []]; reflexivity. Qed.

Lemma escape_one_line s : includes (escape s) NL = false.
Proof.
  induction s as [|c s IH]; [reflexivity|].
  cbn [escape]. rewrite includes_NL_app, escape_char_one_line, IH. reflexivity.
Qed.

Lemma quote_one_line s : includes (quote s) NL = false.
Proof.
  unfold quote. rewrite includes_NL_cons, includes_NL_app, escape_one_line.
  reflexivity.
Qed.

Lemma uint_one_line u : includes (NilEmpty.string_of_uint u) NL = false.
Proof.
  induction u; cbn [NilEmpty.string_of_uint];
    rewrite ?includes_NL_cons, ?IHu; reflexivity.
Qed.

Lemma number_one_line n : includes (number n) NL = false.
Proof.
  unfold number.
  destruct (Z.to_int n) as [u|u]; cbn [NilZero.string_of_int];
    rewrite ?includes_NL_cons; destruct u; cbn [NilZero.string_of_uint];
    try reflexivity; apply (uint_one_line (_ u)) || apply uint_one_line.
Qed.

Lemma elements_one_line xs :
  Forall (fun x => includes (stringify x) NL = false) xs ->
  includes (elements stringify xs) NL = false.
Proof.
  induction 1 as [|x xs Hx Hxs IH]; [reflexivity|].
  cbn [elements] in *. destruct xs.
  - rewrite includes_NL_app, Hx. reflexivity.
  - rewrite !includes_NL_app, Hx, IH. reflexivity.
Qed.

Lemma members_one_line fs :
  Forall (fun kv => includes (stringify kv.2) NL = false) fs ->
  includes (members stringify fs) NL = false.
Proof.
  induction 1 as [|kv fs Hx Hxs IH]; [reflexivity|].
  cbn [members] in *. destruct fs.
  - rewrite !includes_NL_app, quote_one_line, Hx. reflexivity.
  - rewrite !includes_NL_app, quote_one_line, Hx, IH. reflexivity.
Qed.

Lemma stringify_one_line v : includes (stringify v) NL = false.
Proof.
  induction v as [|[]|n|s|xs IH|fs IH] using json_nested_ind;
    try reflexivity.
  - apply number_one_line.
  - apply quote_one_line.
  - cbn [stringify]. rewrite includes_NL_app, elements_one_line by done.
    reflexivity.
  - cbn [stringify]. rewrite includes_NL_app, members_one_line by done.
    reflexivity.
Qed.

(** Strings *)

Lemma parse_chars_escape_char c r :
  parse_chars (escape_char c +:+ r) = push c (parse_chars r).
Proof. destruct c as [[] [] [] [] [] [] [] []]; reflexivity. Qed.

Lemma parse_chars_escape s rest :
  parse_chars (escape s +:+ String dquote rest) = Some (s, rest).
Proof.
  induction s as [|c s IH]; [reflexivity|].
  cbn [escape]. rewrite append_assoc, parse_chars_escape_char, IH.
  reflexivity.
Qed.

Lemma parse_chars_quote s rest :
  parse_chars (escape s +:+ String dquote "" +:+ rest) = Some (s, rest).
Proof. apply parse_chars_escape. Qed.

(** Numbers *)

Definition no_digit_head (s : string) : bool :=
  match s with
  | String c _ => negb (is_digit c)
  | EmptyString => true
  end.

Definition number_head (s : string) : bool :=
  match s with
  | String c _ => is_digit c || Ascii.eqb c "-"
  | EmptyString => false
  end.

Definition value_head (s : string) : bool :=
  match s with
  | String c _ =>
      negb (is_ws c) && negb (Ascii.eqb c "]") && negb (Ascii.eqb c "}")
  | EmptyString => false
  end.

Lemma span_digits_stop rest :
  no_digit_head rest = true -> span_digits rest = (EmptyString, rest).
Proof.
  destruct rest as [|c rest]; [reflexivity|]. cbn [no_digit_head span_digits].
  intros Hc. apply negb_true_iff in Hc. rewrite Hc. reflexivity.
Qed.

Lemma span_digits_uint u rest :
  no_digit_head rest = true ->
  span_digits (NilEmpty.string_of_uint u +:+ rest)
  = (NilEmpty.string_of_uint u, rest).
Proof.
  intros Hrest.
  induction u; cbn [NilEmpty.string_of_uint];
    [apply span_digits_stop, Hrest|..];
    rewrite append_cons; cbn [span_digits];
    match goal with |- context [is_digit ?c] =>
      change (is_digit c) with true end;
    cbn iota; rewrite IHu; reflexivity.
Qed.

Lemma unorm_fixed_digits u :
  unorm u = u ->
  String.eqb (NilEmpty.string_of_uint u) "" = false
  /\ String.prefix "0" (NilEmpty.string_of_uint u)
     && negb (String.eqb (NilEmpty.string_of_uint u) "0") = false.
Proof.
  intros Hu. destruct u; try (split; reflexivity).
  - exfalso. revert Hu. apply unorm_nonnil.
  - rewrite unorm_D0 in Hu. unfold unorm in Hu.
    destruct (nzhead u) eqn:Hz; try (exfalso; revert Hz; rewrite Hu;
                                      apply nzhead_nonzero).
    injection Hu as <-. split; reflexivity.
Qed.

Lemma parse_nat_uint u rest :
  unorm u = u -> no_digit_head rest = true ->
  parse_nat (NilEmpty.string_of_uint u +:+ rest) = Some (Z.of_uint u, rest).
Proof.
  intros Hu Hrest. unfold parse_nat.
  rewrite span_digits_uint by done.
  destruct (unorm_fixed_digits u Hu) as [-> ->].
  rewrite NilEmpty.usu. reflexivity.
Qed.

Lemma to_uint_fixed p : unorm (Pos.to_uint p) = Pos.to_uint p.
Proof.
  rewrite <- (DecimalPos.Unsigned.to_of (Pos.to_uint p)).
  rewrite DecimalPos.Unsigned.of_to. reflexivity.
Qed.

Lemma of_to_uint p : Z.of_uint (Pos.to_uint p) = Z.pos p.
Proof.
  unfold Z.of_uint. rewrite DecimalPos.Unsigned.of_to. reflexivity.
Qed.

Lemma nil_zero_to_uint p :
  NilZero.string_of_uint (Pos.to_uint p)
  = NilEmpty.string_of_uint (Pos.to_uint p).
Proof.
  pose proof (DecimalPos.Unsigned.to_uint_nonnil p).
  destruct (Pos.to_uint p); done.
Qed.

Lemma parse_number_plain s :
  String.prefix "-" s = false -> parse_number s = parse_nat s.
Proof.
  destruct s as [|c s]; [reflexivity|]. cbn [parse_number]. intros Hs.
  destruct (Ascii.eqb_spec c "-") as [->|Hc]; [|reflexivity].
  destruct s; discriminate Hs.
Qed.

Lemma uint_head_plain u rest :
  u <> Nil -> String.prefix "-" (NilEmpty.string_of_uint u +:+ rest) = false.
Proof. destruct u; done. Qed.

Lemma parse_number_number n rest :
  no_digit_head rest = true ->
  parse_number (number n +:+ rest) = Some (n, rest).
Proof.
  intros Hrest. unfold number. destruct n as [|p|p].
  - apply (parse_nat_uint (D0 Nil)); done.
  - cbn [Z.to_int NilZero.string_of_int]. rewrite nil_zero_to_uint.
    rewrite parse_number_plain
      by apply uint_head_plain, DecimalPos.Unsigned.to_uint_nonnil.
    rewrite parse_nat_uint by auto using to_uint_fixed.
    rewrite of_to_uint. reflexivity.
  - cbn [Z.to_int NilZero.string_of_int]. rewrite nil_zero_to_uint.
    rewrite append_cons. cbn [parse_number]. cbn.
    rewrite parse_nat_uint by auto using to_uint_fixed.
    rewrite of_to_uint. reflexivity.
Qed.

Lemma number_head_number n rest : number_head (number n +:+ rest) = true.
Proof.
  unfold number. destruct n as [|p|p]; try reflexivity.
  cbn [Z.to_int NilZero.string_of_int]. rewrite nil_zero_to_uint.
  pose proof (DecimalPos.Unsigned.to_uint_nonnil p).
  destruct (Pos.to_uint p); done.
Qed.

Lemma number_head_value_head s : number_head s = true -> value_head s = true.
Proof.
  destruct s as [|c s]; [done|].
  destruct c as [[] [] [] [] [] [] [] []]; done.
Qed.

Lemma parse_value_number f s :
  number_head s = true ->
  parse_value (S f) s = '(n, r) ← parse_number s; Some (JNum n, r).
Proof.
  destruct s as [|c s]; [done|].
  destruct c as [[] [] [] [] [] [] [] []]; intros Hc; try discriminate Hc;
    reflexivity.
Qed.

(** Values *)

(** Fuel that suffices to read a value back. *)
Fixpoint need (v : json) : nat :=
  match v with
  | JArr xs => S (list_sum (map (fun x => S (need x)) xs))
  | JObj fs => S (list_sum (map (fun kv => S (need kv.2)) fs))
  | _ => 1
  end.

Lemma list_sum_cons a l : list_sum (a :: l) = (a + list_sum l)%nat.
Proof. reflexivity. Qed.

Lemma parse_value_array f r :
  parse_value (S f) (String "[" r)
  = if String.prefix "]" (skip_ws r)
    then Some (JArr [], slice 1 (skip_ws r))
    else '(xs, r') ← parse_elements f r; Some (JArr xs, r').
Proof. reflexivity. Qed.

Lemma parse_value_object f r :
  parse_value (S f) (String "{" r)
  = if String.prefix "}" (skip_ws r)
    then Some (JObj [], slice 1 (skip_ws r))
    else '(fs, r') ← parse_members f r; Some (object_of fs, r').
Proof. reflexivity. Qed.

Lemma parse_value_string f r :
  parse_value (S f) (String dquote r)
  = '(str, r') ← parse_chars r; Some (JStr str, r').
Proof. reflexivity. Qed.

Lemma parse_elements_eq f s :
  parse_elements (S f) s
  = '(x, r) ← parse_value f s;
    '(c, r') ← next r;
    if Ascii.eqb c "," then
      '(xs, r'') ← parse_elements f r'; Some (x :: xs, r'')
    else if Ascii.eqb c "]" then Some ([x], r')
    else None.
Proof. reflexivity. Qed.

Lemma parse_members_quote f k r :
  parse_members (S f) (quote k +:+ r)
  = '(c1, r2) ← next r;
    if Ascii.eqb c1 ":" then
      '(x, r3) ← parse_value f r2;
      '(c3, r4) ← next r3;
      if Ascii.eqb c3 "," then
        '(fs, r5) ← parse_members f r4; Some ((k, x) :: fs, r5)
      else if Ascii.eqb c3 "}" then Some ([(k, x)], r4)
      else None
    else None.
Proof.
  unfold quote. rewrite append_cons.
  change (parse_members (S f) (String dquote ?s))
    with ('(k, r1) ← parse_chars s;
          '(c1, r2) ← next r1;
          if Ascii.eqb c1 ":" then
            '(x, r3) ← parse_value f r2;
            '(c3, r4) ← next r3;
            if Ascii.eqb c3 "," then
              '(fs, r5) ← parse_members f r4; Some ((k, x) :: fs, r5)
            else if Ascii.eqb c3 "}" then Some ([(k, x)], r4)
            else None
          else None).
  rewrite append_assoc, parse_chars_quote. reflexivity.
Qed.

Lemma parse_value_quote f s rest :
  parse_value (S f) (quote s +:+ rest) = Some (JStr s, rest).
Proof.
  unfold quote. rewrite append_cons, parse_value_string.
  rewrite append_assoc, parse_chars_quote. reflexivity.
Qed.

Lemma expect_append lit rest v : expect lit (lit +:+ rest) v = Some (v, rest).
Proof. unfold expect. rewrite prefix_append, slice_append. reflexivity. Qed.

Lemma parse_value_literal f rest :
  parse_value (S f) ("null" +:+ rest) = Some (JNull, rest)
  /\ parse_value (S f) ("true" +:+ rest) = Some (JBool true, rest)
  /\ parse_value (S f) ("false" +:+ rest) = Some (JBool false, rest).
Proof.
  repeat split.
  - change (expect "ull" ("ull" +:+ rest) JNull = Some (JNull, rest)).
    apply expect_append.
  - change (expect "rue" ("rue" +:+ rest) (JBool true)
            = Some (JBool true, rest)).
    apply expect_append.
  - change (expect "alse" ("alse" +:+ rest) (JBool false)
            = Some (JBool false, rest)).
    apply expect_append.
Qed.

Lemma value_head_stringify v rest : value_head (stringify v +:+ rest) = true.
Proof.
  destruct v as [|[]|n|s|xs|fs]; try reflexivity.
  apply number_head_value_head, number_head_number.
Qed.

Lemma value_head_open s :
  value_head s = true ->
  skip_ws s = s /\ String.prefix "]" s = false /\ String.prefix "}" s = false.
Proof.
  destruct s as [|c s]; [done|].
  destruct c as [[] [] [] [] [] [] [] []]; done.
Qed.

Definition reads_back (v : json) : Prop :=
  json_wf v = true ->
  forall f rest, (need v <= f)%nat -> no_digit_head rest = true ->
    parse_value f (stringify v +:+ rest) = Some (v, rest).

Lemma next_significant c r : is_ws c = false -> next (String c r) = Some (c, r).
Proof. intros Hc. unfold next. cbn [skip_ws]. rewrite Hc. reflexivity. Qed.

(** Consume one punctuation character of the serialised text. *)
Ltac punctuation :=
  rewrite ?lit_append; rewrite next_significant by reflexivity;
  cbn [mbind option_bind];
  repeat match goal with
    | |- context [Ascii.eqb ?a ?b] =>
        let v := eval vm_compute in (Ascii.eqb a b) in
        change (Ascii.eqb a b) with v
    end;
  cbn iota.

Lemma parse_elements_stringify xs :
  Forall reads_back xs -> forallb json_wf xs = true -> xs <> [] ->
  forall f rest, (list_sum (map (fun x => S (need x)) xs) <= f)%nat ->
    parse_elements f (elements stringify xs +:+ rest) = Some (xs, rest).
Proof.
  induction 1 as [|x xs Hx Hxs IH]; [done|].
  intros [Hwf Hwfs]%andb_true_iff _ f rest Hf.
  cbn [map] in Hf. rewrite list_sum_cons in Hf. destruct f as [|f]; [lia|].
  rewrite parse_elements_eq. cbn [elements]. destruct xs as [|y xs].
  - rewrite append_assoc, (Hx Hwf) by first [reflexivity | cbn in Hf; lia].
    cbn [mbind option_bind]. punctuation. reflexivity.
  - rewrite !append_assoc, (Hx Hwf) by first [reflexivity | lia].
    cbn [mbind option_bind]. punctuation.
    rewrite IH by first [done | lia]. reflexivity.
Qed.

Lemma object_of_fresh fs acc :
  keys_fresh (map fst (acc ++ fs)) = true ->
  fold_left (fun o kv => obj_set kv.1 kv.2 o) fs acc = acc ++ fs.
Proof.
  revert acc. induction fs as [|[k v] fs IH]; intros acc Hfresh.
  - cbn. rewrite app_nil_r. reflexivity.
  - cbn [fold_left fst snd].
    assert (obj_set k v acc = acc ++ [(k, v)]) as ->.
    { clear IH. induction acc as [|[k' v'] acc IHacc]; [reflexivity|].
      cbn [app map fst keys_fresh] in Hfresh.
      apply andb_true_iff in Hfresh as [Hk' Hfresh].
      cbn [obj_set]. destruct (String.eqb_spec k k') as [->|Hne].
      - exfalso. apply negb_true_iff in Hk'.
        rewrite map_app, existsb_app in Hk'. cbn in Hk'.
        rewrite String.eqb_refl, orb_true_r in Hk'. discriminate.
      - cbn [app]. rewrite IHacc by done. reflexivity. }
    rewrite IH by (rewrite <- app_assoc; exact Hfresh).
    rewrite <- app_assoc. reflexivity.
Qed.

Lemma parse_members_stringify fs :
  Forall (fun kv => reads_back kv.2) fs ->
  forallb (fun kv => json_wf kv.2) fs = true -> fs <> [] ->
  forall f rest, (list_sum (map (fun kv => S (need kv.2)) fs) <= f)%nat ->
    parse_members f (members stringify fs +:+ rest) = Some (fs, rest).
Proof.
  induction 1 as [|[k x] fs Hx Hxs IH]; [done|].
  intros [Hwf Hwfs]%andb_true_iff _ f rest Hf.
  cbn [map snd] in Hf, Hx. rewrite list_sum_cons in Hf.
  destruct f as [|f]; [lia|]. cbn [members fst snd].
  destruct fs as [|y fs];
    rewrite !append_assoc, parse_members_quote; punctuation.
  - rewrite (Hx Hwf) by first [reflexivity | cbn in Hf; lia].
    cbn [mbind option_bind]. punctuation. reflexivity.
  - rewrite (Hx Hwf) by first [reflexivity | lia].
    cbn [mbind option_bind]. punctuation.
    rewrite IH by first [done | lia]. reflexivity.
Qed.

Lemma parse_value_stringify v : reads_back v.
Proof.
  induction v as [|[]|n|s|xs IH|fs IH] using json_nested_ind;
    intros Hwf f rest Hf Hrest; (destruct f as [|f]; [cbn in Hf; lia|]).
  - apply parse_value_literal.
  - apply parse_value_literal.
  - apply parse_value_literal.
  - rewrite parse_value_number by apply number_head_number.
    cbn [stringify]. rewrite parse_number_number by done. reflexivity.
  - apply parse_value_quote.
  - cbn [stringify]. rewrite append_assoc, lit_append, parse_value_array.
    destruct xs as [|x xs].
    { cbn [elements]. rewrite lit_append.
      change (skip_ws (String "]" rest)) with (String "]" rest).
      rewrite prefix_lit. reflexivity. }
    destruct (value_head_open (elements stringify (x :: xs) +:+ rest))
      as (-> & -> & _).
    { cbn [elements]. destruct xs; rewrite !append_assoc;
        apply value_head_stringify. }
    rewrite parse_elements_stringify
      by first [done | cbn [need] in Hf; lia].
    reflexivity.
  - cbn [stringify]. rewrite append_assoc, lit_append, parse_value_object.
    destruct fs as [|kv fs].
    { cbn [members]. rewrite lit_append.
      change (skip_ws (String "}" rest)) with (String "}" rest).
      rewrite prefix_lit. reflexivity. }
    cbn [json_wf] in Hwf. apply andb_true_iff in Hwf as [Hkeys Hwf].
    destruct (value_head_open (members stringify (kv :: fs) +:+ rest))
      as (-> & _ & ->).
    { cbn [members]. destruct fs; reflexivity. }
    rewrite parse_members_stringify
      by first [done | cbn [need] in Hf; lia].
    cbn [mbind option_bind]. unfold object_of.
    rewrite object_of_fresh by exact Hkeys. reflexivity.
Qed.

Lemma need_length v : (need v <= 2 * String.length (stringify v))%nat.
Proof.
  assert (Hpos : forall v, (1 <= String.length (stringify v))%nat).
  { intros v'. pose proof (value_head_stringify v' "") as Hv.
    rewrite append_nil_r in Hv.
    destruct (stringify v'); [done|cbn [String.length]; lia]. }
  induction v as [|[]|n|s|xs IH|fs IH] using json_nested_ind;
    try (cbn; lia).
  - specialize (Hpos (JNum n)). cbn [need]. lia.
  - cbn [need stringify]. rewrite length_append. cbn [String.length].
    enough (list_sum (map (fun x => S (need x)) xs)
            <= 2 * String.length (elements stringify xs))%nat by lia.
    induction IH as [|x xs Hx Hxs IHxs]; [cbn; lia|].
    cbn [map elements]. rewrite list_sum_cons. destruct xs as [|y xs].
    + rewrite length_append. cbn in *. lia.
    + rewrite !length_append. cbn [String.length]. lia.
  - cbn [need stringify]. rewrite length_append. cbn [String.length].
    enough (list_sum (map (fun kv => S (need kv.2)) fs)
            <= 2 * String.length (members stringify fs))%nat by lia.
    induction IH as [|x xs Hx Hxs IHxs]; [cbn; lia|].
    cbn [map members]. rewrite list_sum_cons. destruct xs as [|y xs].
    + rewrite !length_append. cbn in *. lia.
    + rewrite !length_append. cbn [String.length]. lia.
Qed.

Lemma parse_stringify v :
  json_wf v = true -> parse (stringify v) = Some v.
Proof.
  intros Hwf. unfold parse.
  rewrite <- (append_nil_r (stringify v)) at 2.
  rewrite (parse_value_stringify v Hwf) by (done || pose proof (need_length v); lia).
  reflexivity.
Qed.

End CodecFacts.

(** The reference codec is a codec. *)
#[export] Instance reference_codec : JSON := {|
  JSON_stringify := Codec.stringify;
  JSON_parse := Codec.parse;
  JSON_parse_stringify := CodecFacts.parse_stringify;
  JSON_stringify_one_line := CodecFacts.stringify_one_line;
  JSON_parse_empty := eq_refl;
  JSON_parse_DONE := eq_refl
|}.

(** ** The state-sync provider *)

Module SyncFacts.
Import Sync.

Section facts.
Context {codec : JSON}.

(** What the loop over [localStorage] yields for one key. *)
Lemma read_localStorage_lookup (ls : gmap string string) (k : string) :
  read_localStorage ls !! k
  = if eligible k then
      item ← ls !! k;
      if negb (String.eqb item "") then Some (parse_or_raw item) else None
    else None.
Proof.
  unfold read_localStorage. revert k.
  apply (map_fold_weak_ind
           (fun (r : gmap string json) (m : gmap string string) =>
              forall k, r !! k
                = if eligible k then
                    item ← m !! k;
                    if negb (String.eqb item "")
                    then Some (parse_or_raw item) else None
                  else None)).
  - intros k. rewrite !lookup_empty. destruct (eligible k); reflexivity.
  - intros i x m r Hi IH k.
    destruct (decide (i = k)) as [->|Hne].
    + rewrite lookup_insert_eq. specialize (IH k). rewrite Hi in IH.
      destruct (eligible k); [|exact IH].
      cbn [mbind option_bind]. destruct (negb (String.eqb x "")).
      * apply lookup_insert_eq.
      * rewrite IH. reflexivity.
    + rewrite (lookup_insert_ne m) by done. rewrite <- IH.
      destruct (eligible i); [|reflexivity].
      destruct (negb (String.eqb x "")); [|reflexivity].
      apply lookup_insert_ne. done.
Qed.

(** What the loop over the remote entries yields for one key. *)
Lemma merge_entries_lookup (localState supabaseData : gmap string json)
    (ls : gmap string string) (k : string) :
  let '(mergedState, ls', hasUpdates) :=
    merge_entries localState supabaseData ls in
  mergedState !! k
  = match supabaseData !! k with
    | Some v => if remote_wins (localState !! k) v then Some v
                else localState !! k
    | None => localState !! k
    end
  /\ ls' !! k
     = match supabaseData !! k with
       | Some v => if remote_wins (localState !! k) v
                   then Some (JSON_stringify v) else ls !! k
       | None => ls !! k
       end
  /\ (hasUpdates = false -> mergedState = localState).
Proof.
  unfold merge_entries. revert k.
  apply (map_fold_weak_ind
           (fun (r : gmap string json * gmap string string * bool)
                (m : gmap string json) =>
              forall k,
                let '(mergedState, ls', hasUpdates) := r in
                mergedState !! k
                = match m !! k with
                  | Some v => if remote_wins (localState !! k) v then Some v
                              else localState !! k
                  | None => localState !! k
                  end
                /\ ls' !! k
                   = match m !! k with
                     | Some v => if remote_wins (localState !! k) v
                                 then Some (JSON_stringify v) else ls !! k
                     | None => ls !! k
                     end
                /\ (hasUpdates = false -> mergedState = localState))).
  - intros k. rewrite lookup_empty. done.
  - intros i x m [[merged ls'] upd] Hi IH k.
    destruct (IH k) as (IHm & IHl & IHu).
    destruct (remote_wins (localState !! i) x) eqn:Hwins; cbn [fst snd].
    + destruct (decide (i = k)) as [->|Hne].
      * rewrite !lookup_insert_eq, Hwins. done.
      * rewrite !lookup_insert_ne by done. done.
    + destruct (decide (i = k)) as [->|Hne].
      * rewrite lookup_insert_eq, Hwins. rewrite Hi in IHm, IHl. done.
      * rewrite lookup_insert_ne by done. done.
Qed.

(** [loadInitialState] when the remote record is fetched. *)
Lemma load_fetched net w ls remote :
  localStorage w = Some ls -> user w = true -> user_data w = Some remote ->
  select_fault net = None ->
  loadInitialState net w
  = (Normal (),
     {| state := (merge_entries (read_localStorage ls) remote ls).1.1;
        isSync := isSync w; isSyncing := isSyncing w; isLoading := false;
        localStorage :=
          Some (merge_entries (read_localStorage ls) remote ls).1.2;
        user := true; user_data := Some remote;
        requests := (requests w ++ [GetUser]) ++ [Select] |}).
Proof.
  destruct w as [st sy sg lo l u d rq]. cbn [localStorage user user_data].
  intros -> -> -> Hnet.
  pose proof (merge_entries_lookup (read_localStorage ls) remote ls "")
    as Hmerge.
  unfold loadInitialState, isLocalStorageAvailable, try_catch_finally,
    select_single, auth_getUser, setState, setIsLoading, set_remote,
    set_localStorage, mbind, M_bind, mret, M_ret.
  cbn -[merge_entries read_localStorage]. rewrite Hnet.
  cbn -[merge_entries read_localStorage].
  destruct (merge_entries (read_localStorage ls) remote ls)
    as [[merged ls'] [|]]; cbn; [reflexivity|].
  destruct Hmerge as (_ & _ & ->); reflexivity.
Qed.

(** [loadInitialState] when no remote record is obtained. *)
Lemma load_local_only net w ls :
  localStorage w = Some ls ->
  user w = false \/ user_data w = None \/ is_Some (select_fault net) ->
  state (exec (loadInitialState net) w) = read_localStorage ls
  /\ localStorage (exec (loadInitialState net) w) = Some ls.
Proof.
  destruct w as [st sy sg lo l u d rq]. cbn [localStorage user user_data].
  intros -> Hoff.
  unfold exec, loadInitialState, isLocalStorageAvailable, try_catch_finally,
    select_single, auth_getUser, setState, setIsLoading, set_remote,
    set_localStorage, mbind, M_bind, mret, M_ret.
  cbn -[merge_entries read_localStorage].
  destruct u; [|done].
  cbn -[merge_entries read_localStorage].
  destruct (select_fault net) as [e|]; [done|].
  destruct d as [remote|]; [|done].
  destruct Hoff as [|[|[? ?]]]; done.
Qed.

(** [updateState] never throws, and what it does locally does not depend
    on the remote side. *)
Lemma update_local net key data w ls :
  localStorage w = Some ls ->
  let r := updateState net key data w in
  r.1 = Normal ()
  /\ state r.2 = <[key := data]> (state w)
  /\ localStorage r.2 = Some (<[key := JSON_stringify data]> ls)
  /\ isSyncing r.2 = false
  /\ user r.2 = user w.
Proof.
  destruct w as [st sy sg lo l u d rq]. cbn [localStorage]. intros ->.
  unfold updateState, isLocalStorageAvailable, try_catch_finally,
    select_single, update_row, insert_row, auth_getUser, setState, setIsSync,
    setIsSyncing, localStorage_setItem, set_remote, set_localStorage, throw,
    mbind, M_bind, mret, M_ret.
  cbn -[insert].
  destruct u; [|done]. cbn -[insert].
  destruct (select_fault net) as [e|]; cbn -[insert].
  - destruct (negb (String.eqb (code e) "PGRST116")); cbn -[insert]; [done|].
    destruct (write_fault net); cbn -[insert]; [done|].
    destruct d; done.
  - destruct d; cbn -[insert]; destruct (write_fault net); done.
Qed.

(** [updateState] when the user is signed in and no request fails. *)
Lemma update_synced net key data w ls :
  localStorage w = Some ls -> user w = true ->
  select_fault net = None -> write_fault net = None ->
  let w' := exec (updateState net key data) w in
  user_data w' = Some (<[key := data]> (default ∅ (user_data w)))
  /\ isSync w' = true.
Proof.
  destruct w as [st sy sg lo l u d rq]. cbn [localStorage user user_data].
  intros -> -> Hsel Hwr.
  unfold exec, updateState, isLocalStorageAvailable, try_catch_finally,
    select_single, update_row, insert_row, auth_getUser, setState, setIsSync,
    setIsSyncing, localStorage_setItem, set_remote, set_localStorage, throw,
    mbind, M_bind, mret, M_ret.
  cbn -[insert]. rewrite Hsel. destruct d; cbn -[insert]; rewrite Hwr; done.
Qed.

(** A serialised value is never the empty string. *)
Lemma stringify_nonempty v :
  json_wf v = true -> String.eqb (JSON_stringify v) "" = false.
Proof.
  intros Hwf. apply String.eqb_neq. intros Hempty.
  pose proof (JSON_parse_stringify v Hwf) as Hparse.
  rewrite Hempty, JSON_parse_empty in Hparse. discriminate.
Qed.

Lemma parse_or_raw_stringify v :
  json_wf v = true -> parse_or_raw (JSON_stringify v) = v.
Proof. intros Hwf. unfold parse_or_raw. rewrite JSON_parse_stringify; done. Qed.

End facts.
End SyncFacts.

Import Sync SyncFacts.



(** C10. Without [localStorage], [updateState] returns normally and leaves
    the React state, the stores, the flags and the request log as they
    were: it performs no request at all. *)
Theorem update_without_localStorage (codec : JSON) net key data w :
  localStorage w = None ->
  updateState net key data w = (Normal (), w).
Proof.
  destruct w as [st sy sg lo l u d rq]. cbn [localStorage]. intros ->.
  reflexivity.
Qed.

Lemma update_without_localStorage_witness :
  updateState (codec := reference_codec) online "chats" (JArr [])
    (mount None true (Some ∅))
  = (Normal (), mount None true (Some ∅)).
Proof.
  apply (update_without_localStorage reference_codec online "chats" (JArr [])
           (mount None true (Some ∅))).
  reflexivity.
Defined.

(** The remote propagation of a call fails: the read of the row is refused
    with an error other than the absence of a row, or the row is read and
    the write is refused. *)
Definition remote_write_fails (net : network) : Prop :=
  (exists e, select_fault net = Some e /\ code e <> "PGRST116")
  \/ (select_fault net = None /\ is_Some (write_fault net)).

(** C6. When the remote propagation of [updateState] fails, the call still
    completes normally; the React state and [localStorage] hold the new
    value; [isSync] is false and [isSyncing] is false; the remote row is
    untouched; and after the failed request no further request is made: the
    call issued the user lookup, the read, and at most one write. *)
Theorem update_survives_remote_failure (codec : JSON) net key data w ls :
  localStorage w = Some ls -> user w = true -> remote_write_fails net ->
  let r := updateState net key data w in
  r.1 = Normal ()
  /\ state r.2 !! key = Some data
  /\ localStorage r.2 = Some (<[key := JSON_stringify data]> ls)
  /\ isSync r.2 = false
  /\ isSyncing r.2 = false
  /\ user_data r.2 = user_data w
  /\ exists attempt,
       requests r.2 = requests w ++ [GetUser; Select] ++ attempt
       /\ (length attempt <= 1)%nat.
Proof.
  intros Hls Huser Hfail r. subst r.
  destruct w as [st sy sg lo l u d rq].
  cbn [localStorage user user_data requests] in *. subst l u.
  unfold updateState, isLocalStorageAvailable, try_catch_finally,
    select_single, update_row, insert_row, auth_getUser, setState, setIsSync,
    setIsSyncing, localStorage_setItem, set_remote, set_localStorage, throw,
    mbind, M_bind, mret, M_ret.
  cbn -[insert].
  destruct Hfail as [(e & -> & Hcode)|[-> [e ->]]]; cbn -[insert].
  - apply String.eqb_neq in Hcode. rewrite Hcode. cbn -[insert].
    rewrite lookup_insert_eq, <- !app_assoc.
    repeat (split; [reflexivity|]).
    exists []. split; [reflexivity|cbn; lia].
  - destruct d; cbn -[insert]; rewrite lookup_insert_eq, <- !app_assoc;
      repeat (split; [reflexivity|]);
      eexists [_]; split; reflexivity || (cbn; lia).
Qed.

Lemma update_survives_remote_failure_witness :
  let w := mount (Some ∅) true (Some {[ "theme" := JStr "dark" ]}) in
  let net := {| select_fault := None;
                write_fault := Some {| code := "503" |} |} in
  let r := updateState (codec := reference_codec) net "theme" (JStr "light") w in
  state r.2 !! "theme" = Some (JStr "light")
  /\ isSync r.2 = false
  /\ user_data r.2 = Some {[ "theme" := JStr "dark" ]}.
Proof.
  intros w net r.
  destruct (update_survives_remote_failure reference_codec net "theme"
              (JStr "light") w ∅ eq_refl eq_refl)
    as (_ & Hstate & _ & Hsync & _ & Hrow & _).
  - right. split; [reflexivity|]. eexists. reflexivity.
  - exact (conj Hstate (conj Hsync Hrow)).
Defined.

(** Against C2 as stated: with no signed-in user (the remote store out of
    reach), a value written under a key that the loader reserves for the
    auth subsystem is gone after a restart. *)
Lemma reserved_key_lost_after_restart :
  let w := mount (Some ∅) false None in
  let w1 := exec (updateState (codec := reference_codec) online
                    "sb-token" (JNum 1)) w in
  let w2 := exec (loadInitialState (codec := reference_codec) online)
              (restart w1) in
  localStorage w1 = Some {[ "sb-token" := "1" ]}
  /\ state w2 !! "sb-token" = None.
Proof. repeat split; vm_compute; reflexivity. Qed.

(** C2 (amended). [updateState key data] followed by a restart and
    [loadInitialState] yields a state that maps [key] to [data]
    - for every key, when the user is signed in and the requests of both
      calls succeed;
    - for every non-empty key that neither starts with [sb-] nor contains
      [api_key], when the load obtains no remote record. *)
Theorem update_then_load_round_trip (codec : JSON) net net' key data w ls :
  json_wf data = true -> localStorage w = Some ls ->
  let w1 := restart (exec (updateState net key data) w) in
  let w2 := exec (loadInitialState net') w1 in
  (user w = true -> select_fault net = None -> write_fault net = None ->
   select_fault net' = None -> state w2 !! key = Some data)
  /\ (eligible key = true ->
      user w = false \/ user_data w1 = None \/ is_Some (select_fault net') ->
      state w2 !! key = Some data).
Proof.
  intros Hwf Hls w1 w2.
  destruct (update_local net key data w ls Hls) as (_ & _ & Hl & _ & Hu).
  assert (Hl1 : localStorage w1 = Some (<[key := JSON_stringify data]> ls))
    by exact Hl.
  assert (Hu1 : user w1 = user w) by exact Hu.
  assert (Hread : eligible key = true ->
            read_localStorage (<[key := JSON_stringify data]> ls) !! key
            = Some data).
  { intros Hk. rewrite read_localStorage_lookup, Hk, lookup_insert_eq.
    cbn [mbind option_bind].
    rewrite stringify_nonempty, parse_or_raw_stringify by done. done. }
  split.
  - intros Huser Hsel Hwr Hsel'.
    destruct (update_synced net key data w ls Hls Huser Hsel Hwr)
      as [Hrow _].
    assert (Hrow1 : user_data w1
                    = Some (<[key := data]> (default ∅ (user_data w))))
      by exact Hrow.
    subst w2. unfold exec.
    rewrite (load_fetched net' w1 _ _ Hl1) by (congruence || done).
    cbn [snd state].
    pose proof (merge_entries_lookup
                  (read_localStorage (<[key := JSON_stringify data]> ls))
                  (<[key := data]> (default ∅ (user_data w)))
                  (<[key := JSON_stringify data]> ls) key) as Hk.
    destruct (merge_entries _ _ _) as [[merged ls'] upd]. cbn [fst].
    destruct Hk as (-> & _ & _). rewrite lookup_insert_eq.
    destruct (remote_wins _ data) eqn:Hwins; [done|].
    destruct (eligible key) eqn:Hk; [auto|].
    rewrite read_localStorage_lookup, Hk in Hwins. discriminate.
  - intros Hk Hoff. subst w2.
    destruct (load_local_only net' w1 _ Hl1) as [-> _]; [|auto].
    rewrite Hu1. exact Hoff.
Qed.

Lemma update_then_load_round_trip_witness :
  let w := mount (Some ∅) false None in
  let w1 := restart (exec (updateState (codec := reference_codec) online
                             "chats" (JArr [JStr "hello"])) w) in
  let w2 := exec (loadInitialState (codec := reference_codec) online) w1 in
  state w2 !! "chats" = Some (JArr [JStr "hello"]).
Proof.
  intros w w1 w2.
  apply (update_then_load_round_trip reference_codec online online "chats"
           (JArr [JStr "hello"]) w ∅ eq_refl eq_refl).
  - reflexivity.
  - left. reflexivity.
Defined.

(** *** Calls in flight *)

Definition same_turn (t t' : turn) : bool :=
  match t, t' with
  | First, First | Second, Second => true
  | _, _ => false
  end.

(** How many turns of the schedule go to one of the calls. *)
Fixpoint turns (t : turn) (schedule : list turn) : nat :=
  match schedule with
  | [] => 0
  | t' :: rest => ((if same_turn t t' then 1 else 0) + turns t rest)%nat
  end.

Definition new_call (net : network) (key : string) (data : json) : call :=
  {| c_net := net; c_key := key; c_data := data; c_stage := Called |}.

Module Interleaving.
Section calls.
Context {codec : JSON}.

Lemma run_app pre post a b w :
  run (pre ++ post) a b w
  = let '(a', b', w') := run pre a b w in run post a' b' w'.
Proof.
  revert a b w. induction pre as [|[] pre IH]; intros a b w; [reflexivity|..];
    cbn [app run]; destruct (step _ w); apply IH.
Qed.

(** Run alone, a call goes through its stages in four turns and does what
    [updateState] does. *)
Ltac crank :=
  unfold exec, settle_ok, settle_error, at_stage, select_single, update_row,
    insert_row, auth_getUser, setState, setIsSync, setIsSyncing,
    localStorage_setItem, set_remote, set_localStorage, throw,
    mbind, M_bind, mret, M_ret;
  cbn -[insert].

Lemma updateState_in_four_turns net key data other w :
  let '(a, b, w') :=
    run [First; First; First; First] (new_call net key data) other w in
  c_stage a = Settled /\ b = other
  /\ updateState net key data w = (Normal (), w').
Proof.
  destruct w as [st sy sg lo l u d rq]. destruct net as [sf wf].
  unfold new_call, updateState, isLocalStorageAvailable, try_catch_finally.
  cbn [run step c_stage localStorage].
  destruct l as [ls|]; [|done]. crank.
  destruct u; crank; [|done].
  destruct sf as [e|]; crank.
  - destruct (negb (String.eqb (code e) "PGRST116")); crank; [done|].
    destruct wf; crank; [done|]. destruct d; done.
  - destruct d; crank; destruct wf; done.
Qed.

Variables (K1 K2 : string) (V1 V2 : json).
Variable row : option (gmap string json).

Definition blob1 : gmap string json := <[K1 := V1]> (default ∅ row).
Definition blob12 : gmap string json := <[K2 := V2]> blob1.

Definition first_at (i : nat) : call :=
  {| c_net := online; c_key := K1; c_data := V1;
     c_stage := match i with
                | 0 => Called
                | 1 => AwaitingUser
                | 2 => AwaitingRow
                | 3 => AwaitingWrite blob1 (bool_decide (is_Some row))
                | _ => Settled
                end%nat |}.

Definition second_at (j : nat) : call :=
  {| c_net := online; c_key := K2; c_data := V2;
     c_stage := match j with
                | 0 => Called
                | 1 => AwaitingUser
                | 2 => AwaitingRow
                | 3 => AwaitingWrite blob12 true
                | _ => Settled
                end%nat |}.

Definition row_at (i j : nat) : option (gmap string json) :=
  if (4 <=? j)%nat then Some blob12
  else if (4 <=? i)%nat then Some blob1
  else row.

#[local] Arguments row_at : simpl never.

(** The first call has taken [i] turns and the second [j]; the second has
    not read the row before the first has written it. *)
Record serialised (i j : nat) (a b : call) (w : world) : Prop := {
  ser_first : a = first_at i;
  ser_second : b = second_at j;
  ser_row : user_data w = row_at i j;
  ser_user : user w = true;
  ser_storage : is_Some (localStorage w);
  ser_order : (j <= 2 \/ 4 <= i)%nat;
  ser_bounds : (i <= 4 /\ j <= 4)%nat
}.

Ltac settle row_eq :=
  split; cbn [fst snd user_data user localStorage];
  unfold first_at, second_at, row_at, blob12, blob1; rewrite ?row_eq;
  repeat match goal with
    | |- context [Nat.leb ?a ?b] => destruct (Nat.leb_spec a b); try lia
    end;
  try done; try lia; eauto.

Lemma first_turn i j a b w :
  serialised i j a b w ->
  serialised (Nat.min 4 (S i)) j (step a w).1 b (step a w).2.
Proof.
  intros [-> -> Hrow Huser [ls Hls] Hord [Hi Hj]].
  destruct w as [st sy sg lo l u d rq].
  cbn [user_data user localStorage] in *. subst l u d.
  assert (Hcases : (i = 0 \/ i = 1 \/ i = 2 \/ i = 3 \/ i = 4)%nat) by lia.
  assert (i < 4 -> row_at i j = row)%nat as Hbefore.
  { intros ?. unfold row_at. destruct (Nat.leb_spec 4 i); [lia|].
    destruct (Nat.leb_spec 4 j); [lia|done]. }
  destruct row as [g|] eqn:Hg;
    destruct Hcases as [->|[->|[->|[->| ->]]]];
    rewrite ?Hbefore by lia;
    cbn [Nat.min first_at step c_stage c_net c_key c_data localStorage];
    unfold blob1; rewrite ?Hg; crank; settle Hg.
Qed.

Lemma second_turn i j a b w :
  serialised i j a b w -> (S j <= 2 \/ 4 <= i)%nat ->
  serialised i (Nat.min 4 (S j)) a (step b w).1 (step b w).2.
Proof.
  intros [-> -> Hrow Huser [ls Hls] Hord [Hi Hj]] Hnext.
  destruct w as [st sy sg lo l u d rq].
  cbn [user_data user localStorage] in *. subst l u d.
  assert (Hcases : (j = 0 \/ j = 1 \/ j = 2 \/ j = 3 \/ j = 4)%nat) by lia.
  assert (2 <= j < 4 -> row_at i j = Some blob1)%nat as Hafter.
  { intros ?. unfold row_at. destruct (Nat.leb_spec 4 j); [lia|].
    destruct (Nat.leb_spec 4 i); [done|lia]. }
  destruct row as [g|] eqn:Hg;
    destruct Hcases as [->|[->|[->|[->| ->]]]];
    rewrite ?Hafter by lia;
    cbn [Nat.min second_at step c_stage c_net c_key c_data localStorage];
    crank; settle Hg.
Qed.

Lemma run_before_read pre : forall i j a b w,
  serialised i j a b w -> (j + turns Second pre <= 2)%nat ->
  let '(a', b', w') := run pre a b w in
  serialised (Nat.min 4 (i + turns First pre)) (j + turns Second pre)
    a' b' w'.
Proof.
  induction pre as [|[] pre IH]; intros i j a b w Hinv Hj.
  - cbn [run turns]. rewrite !Nat.add_0_r.
    destruct Hinv as [? ? ? ? ? ? [? ?]].
    rewrite Nat.min_r by lia. split; done.
  - cbn [run]. pose proof (first_turn i j a b w Hinv) as Hstep.
    destruct (step a w) as [a' w']. cbn [fst snd] in Hstep.
    specialize (IH _ _ _ _ _ Hstep Hj).
    destruct (run pre a' b w') as [[a'' b''] w''].
    replace (Nat.min 4 (i + turns First (First :: pre)))
      with (Nat.min 4 (Nat.min 4 (S i) + turns First pre)); [exact IH|].
    cbn [turns same_turn]. lia.
  - cbn [run].
    assert (Hturns : turns Second (Second :: pre) = S (turns Second pre))
      by reflexivity.
    rewrite Hturns in Hj |- *.
    pose proof (second_turn i j a b w Hinv ltac:(lia)) as Hstep.
    destruct (step b w) as [b' w']. cbn [fst snd] in Hstep.
    rewrite Nat.min_r in Hstep by lia.
    specialize (IH _ _ _ _ _ Hstep ltac:(lia)).
    destruct (run pre a b' w') as [[a'' b''] w''].
    replace (j + S (turns Second pre))%nat with (S j + turns Second pre)%nat
      by lia.
    exact IH.
Qed.

Lemma run_after_write post : forall j a b w,
  serialised 4 j a b w ->
  let '(a', b', w') := run post a b w in
  serialised 4 (Nat.min 4 (j + turns Second post)) a' b' w'.
Proof.
  induction post as [|[] post IH]; intros j a b w Hinv.
  - cbn [run turns]. rewrite Nat.add_0_r.
    destruct Hinv as [? ? ? ? ? ? [? ?]].
    rewrite Nat.min_r by lia. split; done.
  - cbn [run]. pose proof (first_turn 4 j a b w Hinv) as Hstep.
    destruct (step a w) as [a' w']. cbn [fst snd Nat.min] in Hstep.
    exact (IH _ _ _ _ Hstep).
  - cbn [run]. pose proof (second_turn 4 j a b w Hinv ltac:(lia)) as Hstep.
    destruct (step b w) as [b' w']. cbn [fst snd] in Hstep.
    specialize (IH _ _ _ _ Hstep).
    destruct (run post a b' w') as [[a'' b''] w''].
    replace (Nat.min 4 (j + turns Second (Second :: post)))
      with (Nat.min 4 (Nat.min 4 (S j) + turns Second post)); [exact IH|].
    cbn [turns same_turn]. lia.
Qed.

End calls.
End Interleaving.

Lemma turns_app t pre post :
  turns t (pre ++ post) = (turns t pre + turns t post)%nat.
Proof. induction pre as [|t' pre IH]; cbn [app turns]; lia. Qed.

(** Against C5 as stated: two calls for different keys whose turns
    alternate both read the row before either writes it; both settle with
    [isSync] true, and the remote blob holds only the key written last. *)
Lemma interleaved_updates_lose_a_key :
  let w := mount (Some ∅) true (Some ∅) in
  let r := run (codec := reference_codec)
             [First; Second; First; Second; First; Second; First; Second]
             (new_call online "selectedModel" (JStr "gpt-4o"))
             (new_call online "chats" (JArr [])) w in
  c_stage r.1.1 = Settled /\ c_stage r.1.2 = Settled
  /\ isSync r.2 = true
  /\ user_data r.2 = Some {[ "chats" := JArr [] ]}
  /\ (user_data r.2 ≫= lookup "selectedModel") = None.
Proof. repeat split; vm_compute; reflexivity. Qed.

(** C5 (amended). Two calls of [updateState] for distinct keys, by a
    signed-in user and with no request failing, leave both keys with their
    values in the remote blob whenever the second call reads the row only
    after the first call has written it: the first call has taken its four
    turns before the second takes its third. *)
Theorem no_lost_update_when_serialised (codec : JSON)
    K1 K2 V1 V2 w ls pre post :
  K1 <> K2 -> localStorage w = Some ls -> user w = true ->
  (4 <= turns First pre)%nat -> (turns Second pre <= 2)%nat ->
  (4 <= turns Second (pre ++ post))%nat ->
  let r := run (pre ++ post)
             (new_call online K1 V1) (new_call online K2 V2) w in
  c_stage r.1.1 = Settled /\ c_stage r.1.2 = Settled
  /\ (user_data r.2 ≫= lookup K1) = Some V1
  /\ (user_data r.2 ≫= lookup K2) = Some V2.
Proof.
  intros Hne Hls Huser Hfirst Hsecond Hall r. subst r.
  rewrite turns_app in Hall.
  assert (Hinit : Interleaving.serialised K1 K2 V1 V2 (user_data w) 0 0
                    (new_call online K1 V1) (new_call online K2 V2) w).
  { split; try done; try lia; eauto. }
  rewrite Interleaving.run_app.
  pose proof (Interleaving.run_before_read K1 K2 V1 V2 (user_data w) pre
                0 0 _ _ _ Hinit ltac:(lia)) as Hpre.
  destruct (run pre _ _ w) as [[a b] w1].
  cbn [Nat.add] in Hpre. rewrite Nat.min_l in Hpre by lia.
  pose proof (Interleaving.run_after_write K1 K2 V1 V2 (user_data w) post
                _ _ _ _ Hpre) as Hpost.
  destruct (run post a b w1) as [[a' b'] w2].
  rewrite Nat.min_l in Hpost by lia.
  cbn [fst snd]. destruct Hpost as [-> -> -> _ _ _ _].
  repeat split.
  - unfold Interleaving.row_at, Interleaving.blob12. cbn [Nat.leb].
    cbn [mbind option_bind]. rewrite lookup_insert_ne by done.
    apply lookup_insert_eq.
  - unfold Interleaving.row_at, Interleaving.blob12. cbn [Nat.leb].
    cbn [mbind option_bind]. apply lookup_insert_eq.
Qed.

Lemma no_lost_update_when_serialised_witness :
  let r := run (codec := reference_codec)
             ([First; Second; First; First; Second; First] ++ [Second; Second])
             (new_call online "selectedModel" (JStr "gpt-4o"))
             (new_call online "chats" (JArr [])) (mount (Some ∅) true None) in
  (user_data r.2 ≫= lookup "selectedModel") = Some (JStr "gpt-4o")
  /\ (user_data r.2 ≫= lookup "chats") = Some (JArr []).
Proof.
  intros r.
  refine (let H := no_lost_update_when_serialised reference_codec
                     "selectedModel" "chats" (JStr "gpt-4o") (JArr [])
                     (mount (Some ∅) true None) ∅
                     [First; Second; First; First; Second; First]
                     [Second; Second] _ eq_refl eq_refl _ _ _ in
          conj (proj1 (proj2 (proj2 H))) (proj2 (proj2 (proj2 H))));
    [discriminate|cbn; lia..].
Defined.

(** ** The chat route *)

Module ChatFacts.
Import Chat StringFacts.

(** A request passes the gates of the route: a session, an entitlement, a
    JSON body that is not null, and a [messages] array. *)
Record accepts (request : http_request)
    (model messages provider : json) (userApiKey : option json) : Prop := {
  acc_session : is_Some (session request);
  acc_entitled : entitled request = true;
  acc_body : exists b,
      request_json request = Some b /\ b <> JNull
      /\ prop b "messages" = Some messages
      /\ model = default (JStr "gpt-3.5-turbo") (prop b "model")
      /\ provider = default (JStr "openai") (prop b "provider")
      /\ userApiKey = prop b "userApiKey";
  acc_messages : exists msgs, messages = JArr msgs
}.

(** Membership in the allow-list. *)
Definition supported (model : json) : Prop :=
  exists m, In m AVAILABLE_MODELS /\ model = JStr (id m).

(** The model a request asks for ([gpt-3.5-turbo] when it names none). *)
Definition requested_model (request : http_request) : json :=
  default (JStr "gpt-3.5-turbo") (request_json request ≫= fun b => prop b "model").

(** The text carried by an OpenAI chunk, if it carries any. *)
Definition chunk_text (c : openai_chunk) : option string :=
  match choices c with
  | ch :: _ =>
      match delta_content ch with
      | Some t => if String.eqb t "" then None else Some t
      | None => None
      end
  | [] => None
  end.

(** Events of the Anthropic streaming protocol. *)
Inductive anthropic_event :=
| message_start (input_tokens : Z)
| content_block_start
| ping
| content_block_delta (text : string)
| content_block_stop
| message_delta (output_tokens : Z)
| message_stop.

Definition event_name (e : anthropic_event) : string :=
  match e with
  | message_start _ => "message_start"
  | content_block_start => "content_block_start"
  | ping => "ping"
  | content_block_delta _ => "content_block_delta"
  | content_block_stop => "content_block_stop"
  | message_delta _ => "message_delta"
  | message_stop => "message_stop"
  end.

Definition payload (e : anthropic_event) : json :=
  match e with
  | message_start n =>
      JObj [("type", JStr "message_start");
            ("message",
             JObj [("role", JStr "assistant");
                   ("usage", JObj [("input_tokens", JNum n);
                                   ("output_tokens", JNum 1)])])]
  | content_block_start =>
      JObj [("type", JStr "content_block_start"); ("index", JNum 0);
            ("content_block", JObj [("type", JStr "text"); ("text", JStr "")])]
  | ping => JObj [("type", JStr "ping")]
  | content_block_delta t =>
      JObj [("type", JStr "content_block_delta"); ("index", JNum 0);
            ("delta", JObj [("type", JStr "text_delta"); ("text", JStr t)])]
  | content_block_stop =>
      JObj [("type", JStr "content_block_stop"); ("index", JNum 0)]
  | message_delta n =>
      JObj [("type", JStr "message_delta");
            ("delta", JObj [("stop_reason", JStr "end_turn")]);
            ("usage", JObj [("output_tokens", JNum n)])]
  | message_stop => JObj [("type", JStr "message_stop")]
  end.

Definition event_text (e : anthropic_event) : option string :=
  match e with
  | content_block_delta t => Some t
  | _ => None
  end.

(** The sum of the lengths of the texts. *)
Definition total_length (texts : list string) : Z :=
  foldr (fun t n => strlen t + n) 0 texts.

Section facts.
Context {codec : JSON}.

(** One server-sent event on the wire. *)
Definition frame (e : anthropic_event) : string :=
  "event: " +:+ event_name e +:+ NL
  +:+ "data: " +:+ JSON_stringify (payload e) +:+ NL +:+ NL.

(** The text delivered by one read: some whole events. *)
Definition read_of (events : list anthropic_event) : string :=
  foldr (fun e rest => frame e +:+ rest) "" events.

(** What an event does to the helper's accumulators. *)
Definition apply_event (st : anthropic_usage * list controller_op)
    (e : anthropic_event) : anthropic_usage * list controller_op :=
  match e with
  | content_block_delta t =>
      ({| input_tokens := input_tokens st.1;
          output_tokens := output_tokens st.1;
          characters := c ← characters st.1; Some (c + strlen t) |},
       st.2 ++ [Enqueue (content_frame (JStr t))])
  | message_start n =>
      ({| input_tokens := JNum n; output_tokens := output_tokens st.1;
          characters := characters st.1 |}, st.2)
  | message_delta n =>
      ({| input_tokens := input_tokens st.1; output_tokens := JNum n;
          characters := characters st.1 |}, st.2)
  | _ => st
  end.

Lemma POST_accepted env request model messages provider userApiKey :
  accepts request model messages provider userApiKey -> supported model ->
  POST env request
  = let r := start env model messages provider userApiKey in
    {| response_of := EventStream r.1.2; calls := r.1.1; caught := None;
       logged := r.2; event_sent := true |}.
Proof.
  intros [[uid Hs] He (b & Hb & Hnull & Hm & -> & -> & ->) [msgs ->]]
         (m & Hin & Hmodel).
  unfold POST. rewrite Hs, He, Hb. cbn [negb].
  assert (find (fun m => is_str (Some (default (JStr "gpt-3.5-turbo")
                                         (prop b "model"))) (id m))
            AVAILABLE_MODELS <> None) as Hfind.
  { rewrite Hmodel. cbn [In AVAILABLE_MODELS] in Hin.
    destruct Hin as [<-|[<-|[<-|[<-|[]]]]]; done. }
  destruct b; try done; rewrite Hm;
    destruct (find _ AVAILABLE_MODELS); try done;
    destruct (start env _ _ _ _) as [[cs trace] log]; reflexivity.
Qed.

(** *** OpenAI chunks *)

Lemma on_chunk_effect chunk st :
  (on_chunk chunk st).2
  = st.2 ++ match chunk_text chunk with
            | Some t => [Enqueue (content_frame (JStr t))]
            | None => []
            end
  /\ totalCharacters (on_chunk chunk st).1
     = totalCharacters st.1 + match chunk_text chunk with
                              | Some t => strlen t
                              | None => 0
                              end.
Proof.
  destruct st as [totals trace]. unfold on_chunk, chunk_text.
  destruct (choices chunk) as [|ch chs]; cbn.
  2: destruct (delta_content ch) as [t|], (finish_reason ch) as [r|]; cbn.
  all: destruct (usage chunk); cbn.
  all: repeat match goal with
         | |- context [String.eqb ?a ""] => destruct (String.eqb a ""); cbn
         end.
  all: rewrite ?app_nil_r; split; first [done | lia].
Qed.

Lemma on_chunks_effect chunks : forall st,
  let st' := fold_left (fun st chunk => on_chunk chunk st) chunks st in
  st'.2 = st.2 ++ map (fun t => Enqueue (content_frame (JStr t)))
                      (omap chunk_text chunks)
  /\ totalCharacters st'.1
     = totalCharacters st.1 + total_length (omap chunk_text chunks).
Proof.
  induction chunks as [|chunk chunks IH]; intros st.
  - cbn. rewrite app_nil_r. split; first [done | lia].
  - cbn [fold_left]. destruct (IH (on_chunk chunk st)) as [-> ->].
    destruct (on_chunk_effect chunk st) as [-> ->].
    cbn [omap list_omap]. fold (omap chunk_text chunks).
    destruct (chunk_text chunk); cbn [map total_length foldr];
      rewrite <- ?app_assoc; cbn [app]; split; try done;
      rewrite ?app_nil_r; unfold total_length; try done; lia.
Qed.

(** *** Anthropic frames *)

Lemma split_line a r :
  includes a NL = false ->
  split newline (a +:+ NL +:+ r) = a :: split newline r.
Proof.
  induction a as [|c a IH]; intros Ha.
  - reflexivity.
  - rewrite includes_NL_cons in Ha. apply orb_false_iff in Ha as [Hc Ha].
    rewrite append_cons. cbn [split]. rewrite Hc, IH by done. reflexivity.
Qed.

Lemma event_name_one_line e : includes ("event: " +:+ event_name e) NL = false.
Proof. destruct e; reflexivity. Qed.

Lemma data_line_one_line v : includes ("data: " +:+ JSON_stringify v) NL = false.
Proof. rewrite includes_NL_app, JSON_stringify_one_line. reflexivity. Qed.

Lemma payload_wf e : json_wf (payload e) = true.
Proof. destruct e; reflexivity. Qed.

Lemma payload_not_sentinel e :
  String.eqb (JSON_stringify (payload e)) "[DONE]" = false.
Proof.
  apply String.eqb_neq. intros Heq.
  pose proof (JSON_parse_stringify _ (payload_wf e)) as Hparse.
  rewrite Heq, JSON_parse_DONE in Hparse. discriminate.
Qed.

Lemma or_zero_number n : or_zero (Some (JNum n)) = JNum n.
Proof.
  unfold or_zero, truthy_opt, truthy.
  destruct (Z.eqb_spec n 0) as [->|]; reflexivity.
Qed.

Lemma on_data_payload e st :
  on_data (JSON_stringify (payload e)) st = Some (apply_event st e).
Proof.
  unfold on_data. rewrite JSON_parse_stringify by apply payload_wf.
  destruct st as [u trace].
  destruct e as [n| | |t| |n|]; cbn -[or_zero]; rewrite ?or_zero_number;
    reflexivity.
Qed.

Lemma on_lines_frame e r st :
  on_lines (split newline (frame e +:+ r)) st
  = on_lines (split newline r) (apply_event st e).
Proof.
  unfold frame. rewrite !append_assoc.
  rewrite <- (append_assoc "event: " (event_name e)).
  rewrite split_line by apply event_name_one_line.
  rewrite <- (append_assoc "data: " (JSON_stringify (payload e))).
  rewrite split_line by apply data_line_one_line.
  change (split newline (NL +:+ r)) with ("" :: split newline r).
  cbn [on_lines].
  assert (startsWith ("event: " +:+ event_name e) "data: " = false) as ->
    by reflexivity.
  unfold startsWith at 1. rewrite prefix_append.
  change (slice 6 ("data: " +:+ ?s)) with (slice (String.length "data: ") ("data: " +:+ s)).
  rewrite slice_append, payload_not_sentinel, on_data_payload.
  reflexivity.
Qed.

Lemma on_lines_read events : forall st,
  on_lines (split newline (read_of events)) st
  = fold_left apply_event events st.
Proof.
  induction events as [|e events IH]; intros st; [reflexivity|].
  cbn [read_of foldr fold_left]. rewrite on_lines_frame. apply IH.
Qed.

Lemma on_reads_script groups : forall st,
  on_reads (map read_of groups) st = fold_left apply_event (concat groups) st.
Proof.
  induction groups as [|g groups IH]; intros st; [reflexivity|].
  cbn [map on_reads concat]. rewrite on_lines_read, IH, fold_left_app.
  reflexivity.
Qed.

Lemma apply_event_effect st e c :
  characters st.1 = Some c ->
  (apply_event st e).2
  = st.2 ++ match event_text e with
            | Some t => [Enqueue (content_frame (JStr t))]
            | None => []
            end
  /\ characters (apply_event st e).1
     = Some (c + match event_text e with
                 | Some t => strlen t
                 | None => 0
                 end).
Proof.
  destruct st as [u trace]. cbn [fst]. intros Hc.
  destruct e; cbn; rewrite ?app_nil_r, ?Hc, ?Z.add_0_r; done.
Qed.

Lemma apply_events_effect events : forall st c,
  characters st.1 = Some c ->
  let st' := fold_left apply_event events st in
  st'.2 = st.2 ++ map (fun t => Enqueue (content_frame (JStr t)))
                      (omap event_text events)
  /\ characters st'.1 = Some (c + total_length (omap event_text events)).
Proof.
  induction events as [|e events IH]; intros st c Hc.
  - cbn. rewrite app_nil_r, Z.add_0_r. done.
  - cbn [fold_left]. destruct (apply_event_effect st e c Hc) as [Htr Hch].
    destruct (IH (apply_event st e) _ Hch) as [-> ->]. rewrite Htr.
    cbn [omap list_omap]. fold (omap event_text events).
    destruct (event_text e); cbn [map total_length foldr];
      rewrite <- ?app_assoc; cbn [app]; split; try done;
      f_equal; unfold total_length; lia.
Qed.

End facts.
End ChatFacts.

Import Chat ChatFacts.






Definition sample_request (model provider : string) : http_request :=
  {| session := Some "user-1"; entitled := true;
     request_json :=
       Some (JObj [("messages",
                    JArr [JObj [("role", JStr "user");
                                ("content", JStr "Hi")]]);
                   ("model", JStr model); ("provider", JStr provider)]) |}.

Lemma sample_request_accepted model provider :
  accepts (sample_request model provider) (JStr model)
    (JArr [JObj [("role", JStr "user"); ("content", JStr "Hi")]])
    (JStr provider) None.
Proof.
  split; [eexists; reflexivity|reflexivity| |eexists; reflexivity].
  eexists. split; [reflexivity|]. repeat split. discriminate.
Qed.

Lemma gpt_4o_supported : supported (JStr "gpt-4o").
Proof. eexists. split; [right; left; reflexivity|reflexivity]. Qed.

Lemma claude_sonnet_supported : supported (JStr "claude-sonnet-4-20250514").
Proof. eexists. split; [do 3 right; left; reflexivity|reflexivity]. Qed.

Definition text_chunk (t : string) : openai_chunk :=
  {| choices := [{| delta_content := Some t; finish_reason := None |}];
     usage := None |}.

Definition sample_env (o : openai_reply) (a : anthropic_reply) : providers :=
  {| openai := o; anthropic := a;
     OPENAI_API_KEY := Some "sk-test"; ANTHROPIC_API_KEY := Some "sk-ant" |}.

Definition no_reply : anthropic_reply :=
  {| ok := false; status := 500; statusText := "Internal Server Error";
     body := None |}.


(** The Anthropic path on a concrete script: two reads, five events. *)
Example anthropic_script_normalised :
  let env :=
    sample_env (OpenAIRejected 500)
      {| ok := true; status := 200; statusText := "OK";
         body := Some ([read_of (codec := reference_codec)
                          [message_start 12; content_block_delta "Hel";
                           content_block_delta "lo"];
                        read_of (codec := reference_codec)
                          [message_delta 2; message_stop]], Finished) |} in
  let r := POST (codec := reference_codec) env
             (sample_request "claude-sonnet-4-20250514" "anthropic") in
  response_of r
  = EventStream
      [Enqueue (metadata_frame (JStr "claude-sonnet-4-20250514"));
       Enqueue (content_frame (JStr "Hel"));
       Enqueue (content_frame (JStr "lo"));
       Enqueue done_frame; Close]
  /\ logged r
     = Some {| totalTokens := Some 14; inputTokens := JNum 12;
               outputTokens := JNum 2; totalCharacters := 5;
               finishReason := "" |}.
Proof. split; vm_compute; reflexivity. Qed.


(** Against C4 as stated: when the Anthropic API answers 500, the stream
    already holds the metadata event; the error follows it. *)
Lemma metadata_precedes_upstream_failure :
  response_of (POST (codec := reference_codec)
                 (sample_env (OpenAIRejected 500) no_reply)
                 (sample_request "claude-sonnet-4-20250514" "anthropic"))
  = EventStream
      [Enqueue (metadata_frame (JStr "claude-sonnet-4-20250514"));
       Error (AnthropicAPIError 500 "Internal Server Error")].
Proof. vm_compute. reflexivity. Qed.

(** C4 (amended). When the provider answers the request with a
    non-success status, the response is still the event stream: it carries
    the metadata event, enqueued before the provider is called, and is then
    put in the errored state with the provider's error.  No content event
    and no [DONE] sentinel are emitted, the stream is not closed normally,
    no usage is logged, and the provider was called once. *)
Theorem upstream_failure_after_metadata (codec : JSON)
    env request model messages provider userApiKey :
  accepts request model messages provider userApiKey -> supported model ->
  (forall st,
      provider = JStr "openai" -> openai env = OpenAIRejected st ->
      response_of (POST env request)
      = EventStream [Enqueue (metadata_frame model); Error (APIError st)]
      /\ logged (POST env request) = None
      /\ length (calls (POST env request)) = 1%nat)
  /\ (provider = JStr "anthropic" -> ok (anthropic env) = false ->
      response_of (POST env request)
      = EventStream [Enqueue (metadata_frame model);
                     Error (AnthropicAPIError (status (anthropic env))
                                              (statusText (anthropic env)))]
      /\ logged (POST env request) = None
      /\ length (calls (POST env request)) = 1%nat).
Proof.
  intros Hacc Hsup. rewrite (POST_accepted _ _ _ _ _ _ Hacc Hsup).
  cbn [response_of logged calls]. split.
  - intros st -> Hreply. unfold start.
    cbn [is_str String.eqb Ascii.eqb Bool.eqb]. rewrite Hreply. done.
  - intros -> Hreply. unfold start, anthropicStream.
    cbn [is_str String.eqb Ascii.eqb Bool.eqb]. rewrite Hreply. done.
Qed.

Lemma upstream_failure_after_metadata_witness :
  let r := POST (codec := reference_codec)
             (sample_env (OpenAIRejected 500) no_reply)
             (sample_request "gpt-4o" "openai") in
  response_of r
  = EventStream [Enqueue (metadata_frame (JStr "gpt-4o"));
                 Error (APIError 500)]
  /\ logged r = None
  /\ length (calls r) = 1%nat.
Proof.
  intros r.
  exact (proj1 (upstream_failure_after_metadata reference_codec
                  (sample_env (OpenAIRejected 500) no_reply) _ _ _ _ _
                  (sample_request_accepted "gpt-4o" "openai")
                  gpt_4o_supported)
           500 eq_refl eq_refl).
Defined.

Lemma find_unsupported model :
  (forall m, In m AVAILABLE_MODELS -> model <> JStr (id m)) ->
  find (fun m => is_str (Some model) (id m)) AVAILABLE_MODELS = None.
Proof.
  intros Hmodel.
  assert (forall m, In m AVAILABLE_MODELS -> is_str (Some model) (id m) = false)
    as Hno.
  { intros m Hin. unfold is_str. destruct model; try done.
    destruct (String.eqb_spec s (id m)) as [->|]; [|done].
    destruct (Hmodel m Hin eq_refl). }
  cbn [find AVAILABLE_MODELS]. rewrite !Hno by (cbn; auto 6). reflexivity.
Qed.

(** C7. A request whose model is not on the allow-list never reaches a
    completion provider and never gets an event stream: no provider call is
    made and the response is a JSON error.  Once the request has passed the
    session, entitlement and messages gates, the error raised is
    [Model not supported], caught by the route and answered with status
    500. *)
Theorem unsupported_model_rejected (codec : JSON) env request :
  (forall m, In m AVAILABLE_MODELS -> requested_model request <> JStr (id m)) ->
  calls (POST env request) = []
  /\ (exists st msg, response_of (POST env request) = JsonResponse st msg)
  /\ logged (POST env request) = None
  /\ (forall model messages provider userApiKey,
         accepts request model messages provider userApiKey ->
         caught (POST env request) = Some (ModelNotSupported model)
         /\ model = requested_model request
         /\ response_of (POST env request)
            = JsonResponse 500 "Internal server error").
Proof.
  intros Hmodel.
  pose proof (find_unsupported _ Hmodel) as Hfind.
  unfold POST, requested_model in *.
  destruct (session request) as [uid|] eqn:Hs.
  2: { split; [done|]. split; [eauto|]. split; [done|].
       intros ? ? ? ? [[? Hs'] _ _ _]. congruence. }
  destruct (entitled request) eqn:He; cbn [negb].
  2: { split; [done|]. split; [eauto|]. split; [done|].
       intros ? ? ? ? [_ He' _ _]. congruence. }
  destruct (request_json request) as [b|] eqn:Hb; cbn [mbind option_bind] in *.
  2: { split; [done|]. split; [eauto|]. split; [done|].
       intros ? ? ? ? [_ _ (? & ? & _) _]. congruence. }
  destruct (prop b "messages") as [[| | | |msgs|]|] eqn:Hmsgs;
    destruct b; rewrite ?Hfind;
    cbn [internal_error calls response_of logged caught];
    (split; [done|]; split; [eauto|]; split; [done|]);
    intros ? ? ? ? [_ _ (b' & Hb' & Hnull & Hm' & -> & _) [msgs' ->]];
    rewrite Hb in Hb'; injection Hb' as <-; cbn [prop] in *;
    first [congruence | done].
Qed.

Lemma unsupported_model_rejected_witness :
  let r := POST (codec := reference_codec)
             (sample_env (OpenAIRejected 500) no_reply)
             (sample_request "gpt-5" "openai") in
  calls r = []
  /\ caught r = Some (ModelNotSupported (JStr "gpt-5"))
  /\ response_of r = JsonResponse 500 "Internal server error".
Proof.
  intros r.
  destruct (unsupported_model_rejected reference_codec
              (sample_env (OpenAIRejected 500) no_reply)
              (sample_request "gpt-5" "openai"))
    as (Hcalls & _ & _ & Hcaught).
  - intros m [<-|[<-|[<-|[<-|[]]]]]; discriminate.
  - destruct (Hcaught _ _ _ _ (sample_request_accepted "gpt-5" "openai"))
      as (Hc & _ & Hr).
    exact (conj Hcalls (conj Hc Hr)).
Defined.

(** C8. When the entitlement check answers false, no completion provider
    is called and the caller receives the [Not entitled] error as the
    response itself: no stream is created. *)
Theorem not_entitled_rejected (codec : JSON) env request :
  is_Some (session request) -> entitled request = false ->
  POST env request
  = {| response_of := JsonResponse 401 "Not entitled"; calls := [];
       caught := None; logged := None; event_sent := false |}.
Proof. intros [uid Hs] He. unfold POST. rewrite Hs, He. reflexivity. Qed.

Lemma not_entitled_rejected_witness :
  let request :=
    {| session := Some "user-1"; entitled := false;
       request_json := Some (JObj [("messages", JArr [])]) |} in
  let r := POST (codec := reference_codec)
             (sample_env (OpenAIStream [text_chunk "Hi"] Finished) no_reply)
             request in
  response_of r = JsonResponse 401 "Not entitled" /\ calls r = [].
Proof.
  intros request r. subst r.
  rewrite (not_entitled_rejected reference_codec _ request
             (ex_intro _ "user-1" eq_refl) eq_refl).
  split; reflexivity.
Defined.

(** C9. Every request the route sends to the Anthropic API is a POST to
    the messages endpoint whose body is the serialised object
    [{model, messages, max_tokens: 1024, stream: true}]: the output cap is
    the constant 1024 whatever the caller sent. *)
Theorem anthropic_max_tokens_fixed (codec : JSON) env request call :
  In call (calls (POST env request)) ->
  forall url method apiKey request_body,
    call = AnthropicFetch url method apiKey request_body ->
    url = "https://api.anthropic.com/v1/messages" /\ method = "POST"
    /\ exists model messages,
        request_body
        = JSON_stringify
            (JObj [("model", model); ("messages", messages);
                   ("max_tokens", JNum 1024); ("stream", JBool true)]).
Proof.
  unfold POST.
  destruct (session request); [|done].
  destruct (entitled request); [|done]. cbn [negb].
  destruct (request_json request) as [b|]; [|done].
  assert (forall model messages provider key,
             let r := start env model messages provider key in
             In call r.1.1 ->
             forall url method apiKey request_body,
               call = AnthropicFetch url method apiKey request_body ->
               url = "https://api.anthropic.com/v1/messages"
               /\ method = "POST"
               /\ exists model messages,
                   request_body
                   = JSON_stringify
                       (JObj [("model", model); ("messages", messages);
                              ("max_tokens", JNum 1024);
                              ("stream", JBool true)])) as Hstart.
  { intros model messages provider key. unfold start, anthropicStream.
    destruct (is_str (Some provider) "openai").
    - destruct (openai env) as [|chunks []]; cbn;
        intros [<-|[]] ? ? ? ? [=].
    - destruct (is_str (Some provider) "anthropic"); [|intros []].
      destruct (negb (ok (anthropic env))); [|destruct (body (anthropic env))
        as [[reads []]|]]; try destruct (on_reads _ _); cbn;
        intros [<-|[]] ? ? ? ? [= <- <- <- <-]; eauto. }
  destruct b; cbn [internal_error calls]; try done;
    destruct (prop _ "messages") as [[]|]; cbn [calls]; try done;
    destruct (find _ AVAILABLE_MODELS); cbn [internal_error calls]; try done;
    match goal with
    | |- context [start ?e ?m ?ms ?p ?k] =>
        specialize (Hstart m ms p k); destruct (start e m ms p k) as [[? ?] ?]
    end; exact Hstart.
Qed.

Lemma anthropic_max_tokens_fixed_witness :
  let call :=
    anthropic_request (codec := reference_codec)
      (JStr "claude-sonnet-4-20250514")
      (JArr [JObj [("role", JStr "user"); ("content", JStr "Hi")]])
      (Some (JStr "sk-ant")) in
  exists model messages,
    call = AnthropicFetch "https://api.anthropic.com/v1/messages" "POST"
             (Some (JStr "sk-ant"))
             (JSON_stringify
                (JObj [("model", model); ("messages", messages);
                       ("max_tokens", JNum 1024); ("stream", JBool true)])).
Proof.
  intros call.
  destruct (anthropic_max_tokens_fixed reference_codec
              (sample_env (OpenAIRejected 500) no_reply)
              (sample_request "claude-sonnet-4-20250514" "anthropic")
              call (or_introl eq_refl) _ _ _ _ eq_refl)
    as (_ & _ & model & messages & Hbody).
  exists model, messages. unfold call, anthropic_request. rewrite <- Hbody.
  reflexivity.
Defined.

(** * Further properties *)

(** ** The store provider beyond the cases above *)

Module StoreFacts.
Section facts.
Context {codec : JSON}.

(** [clearState] never throws, and what it does locally does not depend on
    the remote side. *)
Lemma clear_local net key w ls :
  localStorage w = Some ls ->
  let r := clearState net key w in
  r.1 = Normal ()
  /\ state r.2 = delete key (state w)
  /\ localStorage r.2 = Some (delete key ls)
  /\ user r.2 = user w.
Proof.
  destruct w as [st sy sg lo l u d rq]. destruct net as [sf wf].
  cbn [localStorage]. intros ->.
  unfold clearState, isLocalStorageAvailable, try_catch_finally,
    select_single, update_row, auth_getUser, setState, setIsSync,
    localStorage_removeItem, set_remote, set_localStorage, throw,
    mbind, M_bind, mret, M_ret.
  cbn -[delete].
  destruct u; [|done]. cbn -[delete].
  destruct sf as [e|]; cbn -[delete]; [done|].
  destruct d; cbn -[delete]; [|done].
  destruct wf; done.
Qed.

(** [clearState] when the user is signed in, the row is read, and the write
    is refused. *)
Lemma clear_refused net key w ls remote :
  localStorage w = Some ls -> user w = true -> user_data w = Some remote ->
  select_fault net = None -> is_Some (write_fault net) ->
  let w' := exec (clearState net key) w in
  user_data w' = Some remote /\ isSync w' = isSync w
  /\ requests w'
     = requests w ++ [GetUser; Select; Update (delete key remote)].
Proof.
  destruct w as [st sy sg lo l u d rq]. destruct net as [sf wf].
  cbn [localStorage user user_data select_fault write_fault requests isSync].
  intros -> -> -> -> [e ->].
  unfold exec, clearState, isLocalStorageAvailable, try_catch_finally,
    select_single, update_row, auth_getUser, setState, setIsSync,
    localStorage_removeItem, set_remote, set_localStorage, throw,
    mbind, M_bind, mret, M_ret.
  cbn -[delete]. rewrite <- !app_assoc. done.
Qed.

(** Without [localStorage] a call of [updateState] does nothing. *)
Lemma update_unavailable net key data w :
  localStorage w = None -> updateState net key data w = (Normal (), w).
Proof.
  destruct w as [st sy sg lo l u d rq]. cbn [localStorage]. intros ->.
  reflexivity.
Qed.

(** [updateState] with the network up: the state, the stores and the flags
    it leaves. *)
Lemma update_online key data w ls :
  localStorage w = Some ls ->
  let w' := exec (updateState online key data) w in
  state w' = <[key := data]> (state w)
  /\ localStorage w' = Some (<[key := JSON_stringify data]> ls)
  /\ user w' = user w
  /\ user_data w'
     = (if user w then Some (<[key := data]> (default ∅ (user_data w)))
        else user_data w)
  /\ isSync w' = true /\ isSyncing w' = false.
Proof.
  destruct w as [st sy sg lo l u d rq]. cbn [localStorage]. intros ->.
  unfold exec, updateState, isLocalStorageAvailable, try_catch_finally,
    select_single, update_row, insert_row, auth_getUser, setState, setIsSync,
    setIsSyncing, localStorage_setItem, set_remote, set_localStorage, throw,
    mbind, M_bind, mret, M_ret.
  cbn -[insert]. destruct u; [|done]. cbn -[insert]. destruct d; done.
Qed.

(** The entry of one key in what the loader reads from [localStorage] only
    depends on the item stored under that key. *)
Lemma read_localStorage_ext (ls ls' : gmap string string) k :
  ls !! k = ls' !! k -> read_localStorage ls !! k = read_localStorage ls' !! k.
Proof. intros Hk. rewrite !read_localStorage_lookup, Hk. reflexivity. Qed.

(** A local value that loses against the remote one is absent or falsy, or
    serialises differently; one that holds its ground serialises alike. *)
Lemma remote_loses local v :
  remote_wins local v = false ->
  exists l, local = Some l /\ JSON_stringify l = JSON_stringify v.
Proof.
  destruct local as [l|]; [|done]. cbn [remote_wins].
  intros [_ Heq%negb_false_iff%String.eqb_eq]%orb_false_iff. eauto.
Qed.

End facts.
End StoreFacts.

Import StoreFacts.

Ltac run_store :=
  unfold exec, loadInitialState, updateState, clearState,
    isLocalStorageAvailable, try_catch_finally,
    select_single, update_row, insert_row, auth_getUser, setState, setIsSync,
    setIsSyncing, setIsLoading, localStorage_setItem, localStorage_removeItem,
    set_remote, set_localStorage, throw, mbind, M_bind, mret, M_ret;
  cbn -[insert delete merge_entries read_localStorage].

(** X1. After a load that fetched the remote record, every key of that record
    is in the state with a value that serialises as the remote one does, and
    has an item in [localStorage]: the remote record is authoritative. *)
Theorem load_remote_authoritative (codec : JSON) net w ls remote k v :
  localStorage w = Some ls -> user w = true -> user_data w = Some remote ->
  select_fault net = None -> remote !! k = Some v ->
  let w' := exec (loadInitialState net) w in
  (exists x, state w' !! k = Some x /\ JSON_stringify x = JSON_stringify v)
  /\ is_Some (localStorage w' ≫= lookup k).
Proof.
  intros Hls Huser Hrow Hnet Hk w'. subst w'. unfold exec.
  rewrite (load_fetched net w ls remote) by done.
  cbn [snd state localStorage mbind option_bind].
  pose proof (merge_entries_lookup (read_localStorage ls) remote ls k) as Hm.
  destruct (merge_entries _ remote ls) as [[merged ls'] upd].
  destruct Hm as (Hm & Hl & _). cbn [fst snd]. rewrite Hm, Hl, Hk.
  destruct (remote_wins _ v) eqn:Hwins; [eauto|].
  destruct (remote_loses _ _ Hwins) as (l & Hread & Heq). split; [eauto|].
  rewrite read_localStorage_lookup in Hread.
  destruct (eligible k); [|done]. destruct (ls !! k); [eauto|done].
Qed.

Lemma load_remote_authoritative_witness :
  let w := mount (Some {[ "theme" := "1.0" ]}) true
             (Some {[ "theme" := JNum 1 ]}) in
  let w' := exec (loadInitialState (codec := reference_codec) online) w in
  (exists x, state w' !! "theme" = Some x
             /\ JSON_stringify x = JSON_stringify (JNum 1))
  /\ is_Some (localStorage w' ≫= lookup "theme").
Proof.
  intros w w'.
  exact (load_remote_authoritative reference_codec online w
           {[ "theme" := "1.0" ]} {[ "theme" := JNum 1 ]} "theme" (JNum 1)
           eq_refl eq_refl eq_refl eq_refl eq_refl).
Defined.

(** X2. [loadInitialState] only reads the remote side: whatever the stores hold
    and whatever the network does, it completes normally, leaves the remote
    row, [isSync] and [isSyncing] as they were, ends with [isLoading] false,
    and issues nothing but the user lookup and the read of the row. *)
Theorem load_is_read_only (codec : JSON) net w :
  (loadInitialState net w).1 = Normal ()
  /\ user_data (exec (loadInitialState net) w) = user_data w
  /\ isSync (exec (loadInitialState net) w) = isSync w
  /\ isSyncing (exec (loadInitialState net) w) = isSyncing w
  /\ isLoading (exec (loadInitialState net) w) = false
  /\ exists issued,
       requests (exec (loadInitialState net) w) = requests w ++ issued
       /\ (issued = [] \/ issued = [GetUser] \/ issued = [GetUser; Select]).
Proof.
  destruct w as [st sy sg lo l u d rq]. destruct net as [sf wf].
  assert (forall issued : list request,
             issued = [] \/ issued = [GetUser] \/ issued = [GetUser; Select] ->
             exists issued', (rq ++ issued) = rq ++ issued'
               /\ (issued' = [] \/ issued' = [GetUser]
                   \/ issued' = [GetUser; Select])) as Hlog by eauto.
  destruct l as [ls|]; run_store.
  2: { repeat (split; [done|]). exists []. rewrite app_nil_r. auto. }
  destruct u; run_store.
  2: { repeat (split; [done|]). eauto. }
  destruct sf as [e|]; run_store.
  { repeat (split; [done|]). rewrite <- app_assoc. eauto 6. }
  destruct d as [remote|]; run_store.
  2: { repeat (split; [done|]). rewrite <- app_assoc. eauto 6. }
  destruct (merge_entries _ remote ls) as [[merged ls'] [|]]; cbn;
    repeat (split; [done|]); rewrite <- app_assoc; eauto 6.
Qed.

(** X3. Loading is idempotent: once a load has fetched the remote record, a
    restart followed by another such load yields the same state and the same
    [localStorage]. *)
Theorem load_idempotent (codec : JSON) net net' w ls remote :
  localStorage w = Some ls -> user w = true -> user_data w = Some remote ->
  select_fault net = None -> select_fault net' = None ->
  map_Forall (fun _ v => json_wf v = true) remote ->
  let w1 := exec (loadInitialState net) w in
  let w2 := exec (loadInitialState net') (restart w1) in
  state w2 = state w1 /\ localStorage w2 = localStorage w1.
Proof.
  intros Hls Huser Hrow Hnet Hnet' Hwf w1 w2. subst w2 w1. unfold exec.
  rewrite (load_fetched net w ls remote) by done. cbn [snd]. unfold restart.
  cbn [localStorage user user_data].
  rewrite (load_fetched net' _ _ remote) by done.
  cbn [snd state localStorage].
  set (L := read_localStorage ls).
  assert (forall k,
             let '(m1, ls1, _) := merge_entries L remote ls in
             let '(m2, ls2, _) :=
               merge_entries (read_localStorage ls1) remote ls1 in
             m2 !! k = m1 !! k /\ ls2 !! k = ls1 !! k) as Hk.
  { intros k.
    pose proof (merge_entries_lookup L remote ls k) as H1.
    destruct (merge_entries L remote ls) as [[m1 ls1] u1].
    pose proof (merge_entries_lookup (read_localStorage ls1) remote ls1 k)
      as H2.
    destruct (merge_entries _ remote ls1) as [[m2 ls2] u2].
    destruct H1 as (Hm1 & Hl1 & _), H2 as (-> & -> & _).
    rewrite Hm1. clear Hm1.
    destruct (remote !! k) as [v|] eqn:Hv.
    - pose proof (Hwf k v Hv) as Hv_wf. cbn beta in Hv_wf.
      destruct (remote_wins (L !! k) v) eqn:Hwins.
      + destruct (remote_wins (read_localStorage ls1 !! k) v) eqn:Hwins';
          [done|].
        rewrite read_localStorage_lookup, Hl1 in Hwins' |- *.
        destruct (eligible k); [|done]. cbn [mbind option_bind] in *.
        rewrite stringify_nonempty, parse_or_raw_stringify by done. done.
      + rewrite (read_localStorage_ext ls1 ls k Hl1). fold L.
        rewrite Hwins. done.
    - split; [|done]. apply read_localStorage_ext, Hl1. }
  destruct (merge_entries L remote ls) as [[m1 ls1] u1]. cbn [fst snd] in *.
  destruct (merge_entries _ remote ls1) as [[m2 ls2] u2]. cbn [fst snd].
  split; [|f_equal]; apply map_eq; intros k; apply (Hk k).
Qed.

Lemma load_idempotent_witness :
  let w := mount (Some {[ "A" := "1"; "B" := "2" ]}) true
             (Some {[ "B" := JNum 3; "C" := JNum 0 ]}) in
  let w1 := exec (loadInitialState (codec := reference_codec) online) w in
  let w2 := exec (loadInitialState (codec := reference_codec) online)
              (restart w1) in
  state w2 = state w1 /\ localStorage w2 = localStorage w1.
Proof.
  intros w w1 w2.
  apply (load_idempotent reference_codec online online w
           {[ "A" := "1"; "B" := "2" ]} {[ "B" := JNum 3; "C" := JNum 0 ]}
           eq_refl eq_refl eq_refl eq_refl eq_refl).
  intros k v Hk.
  destruct (decide (k = "B")) as [->|HB].
  - vm_compute in Hk. injection Hk as <-. reflexivity.
  - rewrite lookup_insert_ne in Hk by done.
    destruct (decide (k = "C")) as [->|HC].
    + vm_compute in Hk. injection Hk as <-. reflexivity.
    + rewrite lookup_singleton_ne in Hk by done. discriminate.
Defined.

(** X4. A key the loader reserves (empty, starting with [sb-], or containing
    [api_key]) never enters the state from [localStorage]: if the state
    holds it after a load, the value is the remote record's. *)
Theorem load_never_reads_reserved_keys (codec : JSON) net w ls k x :
  localStorage w = Some ls -> eligible k = false ->
  state (exec (loadInitialState net) w) !! k = Some x ->
  exists remote, user_data w = Some remote /\ remote !! k = Some x.
Proof.
  intros Hls Hk.
  destruct (user w) eqn:Hu, (user_data w) as [remote|] eqn:Hd,
    (select_fault net) as [e|] eqn:Hs.
  2: { unfold exec. rewrite (load_fetched net w ls remote) by done.
       cbn [snd state].
       pose proof (merge_entries_lookup (read_localStorage ls) remote ls k)
         as Hm.
       destruct (merge_entries _ remote ls) as [[merged ls'] upd].
       destruct Hm as (Hm & _ & _). cbn [fst]. rewrite Hm.
       rewrite read_localStorage_lookup, Hk.
       destruct (remote !! k) as [v|] eqn:Hv; [|done]. cbn [remote_wins].
       intros [= ->]. eauto. }
  all: destruct (load_local_only net w ls Hls) as [-> _];
    [rewrite ?Hu, ?Hd, ?Hs; eauto|];
    rewrite read_localStorage_lookup, Hk; done.
Qed.

Lemma load_never_reads_reserved_keys_witness :
  let w := mount (Some {[ "openai_api_key" := "1" ]}) true
             (Some {[ "openai_api_key" := JNum 2 ]}) in
  exists remote, user_data w = Some remote
                 /\ remote !! "openai_api_key" = Some (JNum 2).
Proof.
  intros w.
  apply (load_never_reads_reserved_keys reference_codec online w
           {[ "openai_api_key" := "1" ]} "openai_api_key" (JNum 2));
    vm_compute; reflexivity.
Defined.

(** X5. [updateState key data] touches one key: whatever the network does, any
    other key keeps its entry in the state, in [localStorage] and in the
    remote record. *)
Theorem update_touches_one_key (codec : JSON) net key data w k :
  k <> key ->
  let w' := exec (updateState net key data) w in
  state w' !! k = state w !! k
  /\ (localStorage w' ≫= lookup k) = (localStorage w ≫= lookup k)
  /\ (user_data w' ≫= lookup k) = (user_data w ≫= lookup k).
Proof.
  intros Hk. destruct w as [st sy sg lo l u d rq]. destruct net as [sf wf].
  destruct l as [ls|]; run_store; [|done].
  assert (<[key := data]> st !! k = st !! k) as Hst
    by (apply lookup_insert_ne; done).
  assert (<[key := JSON_stringify data]> ls !! k = ls !! k) as Hls
    by (apply lookup_insert_ne; done).
  assert (forall m : gmap string json, <[key := data]> m !! k = m !! k) as Hrow
    by (intros m; apply lookup_insert_ne; done).
  destruct u; run_store; [|done].
  destruct sf as [e|]; run_store.
  - destruct (negb (String.eqb (code e) "PGRST116")); run_store; [done|].
    destruct wf; run_store; [done|].
    destruct d; run_store; [done|].
    rewrite ?Hrow, ?lookup_empty. done.
  - destruct d as [remote|]; run_store; destruct wf; run_store;
      rewrite ?Hrow, ?lookup_empty; done.
Qed.

Lemma update_touches_one_key_witness :
  let w := mount (Some {[ "theme" := "1" ]}) true
             (Some {[ "theme" := JNum 1 ]}) in
  let w' := exec (updateState (codec := reference_codec) online
                    "chats" (JArr [])) w in
  state w' !! "theme" = state w !! "theme"
  /\ (localStorage w' ≫= lookup "theme") = (localStorage w ≫= lookup "theme")
  /\ (user_data w' ≫= lookup "theme") = (user_data w ≫= lookup "theme").
Proof.
  intros w w'.
  apply (update_touches_one_key reference_codec online "chats" (JArr []) w
           "theme").
  discriminate.
Defined.

(** X6. With no signed-in user [updateState] stays local: it asks for the user,
    issues no read and no write, leaves the remote row alone, and still
    reports [isSync]. *)
Theorem update_signed_out_stays_local (codec : JSON) net key data w ls :
  localStorage w = Some ls -> user w = false ->
  let w' := exec (updateState net key data) w in
  requests w' = requests w ++ [GetUser]
  /\ user_data w' = user_data w
  /\ isSync w' = true /\ isSyncing w' = false.
Proof.
  destruct w as [st sy sg lo l u d rq]. cbn [localStorage user].
  intros -> ->. run_store. done.
Qed.

Lemma update_signed_out_stays_local_witness :
  let w := mount (Some ∅) false (Some {[ "theme" := JNum 1 ]}) in
  let w' := exec (updateState (codec := reference_codec) online
                    "theme" (JNum 2)) w in
  requests w' = requests w ++ [GetUser]
  /\ user_data w' = user_data w
  /\ isSync w' = true /\ isSyncing w' = false.
Proof.
  intros w w'.
  exact (update_signed_out_stays_local reference_codec online "theme" (JNum 2)
           w ∅ eq_refl eq_refl).
Defined.

(** X7. For a signed-in user the flag [isSync] is sound after [updateState]:
    when it is set, the remote record maps the key to the data. *)
Theorem synced_flag_sound_after_update (codec : JSON) net key data w ls :
  localStorage w = Some ls -> user w = true ->
  let w' := exec (updateState net key data) w in
  isSync w' = true -> (user_data w' ≫= lookup key) = Some data.
Proof.
  destruct w as [st sy sg lo l u d rq]. destruct net as [sf wf].
  cbn [localStorage user]. intros -> ->. run_store.
  destruct sf as [e|]; run_store.
  - destruct (negb (String.eqb (code e) "PGRST116")); run_store; [done|].
    destruct wf; run_store; [done|].
    destruct d; run_store; [done|].
    intros _. apply lookup_insert_eq.
  - destruct d as [remote|]; run_store; destruct wf; run_store;
      first [done | intros _; apply lookup_insert_eq].
Qed.

Lemma synced_flag_sound_after_update_witness :
  let w := mount (Some ∅) true None in
  let w' := exec (updateState (codec := reference_codec) online
                    "theme" (JNum 2)) w in
  (user_data w' ≫= lookup "theme") = Some (JNum 2).
Proof.
  intros w w'.
  exact (synced_flag_sound_after_update reference_codec online "theme" (JNum 2)
           w ∅ eq_refl eq_refl eq_refl).
Defined.

(** X8. Two calls of [updateState] on distinct keys, each run to its end with
    the network up, commute: either order leaves the same state, the same
    [localStorage], the same remote record and the same flags. *)
Theorem updates_to_distinct_keys_commute (codec : JSON) k1 k2 v1 v2 w :
  k1 <> k2 ->
  let a := exec (updateState online k2 v2) (exec (updateState online k1 v1) w) in
  let b := exec (updateState online k1 v1) (exec (updateState online k2 v2) w) in
  state a = state b /\ localStorage a = localStorage b
  /\ user_data a = user_data b
  /\ isSync a = isSync b /\ isSyncing a = isSyncing b.
Proof.
  intros Hk a b. subst a b.
  destruct (localStorage w) as [ls|] eqn:Hls.
  2: { unfold exec.
       repeat (first [rewrite (update_unavailable online k1 v1 w Hls)
                     |rewrite (update_unavailable online k2 v2 w Hls)];
               cbn [snd]).
       done. }
  destruct (update_online k1 v1 w ls Hls) as (S1 & L1 & U1 & R1 & _).
  destruct (update_online k2 v2 w ls Hls) as (S2 & L2 & U2 & R2 & _).
  destruct (update_online k2 v2 _ _ L1) as (-> & -> & _ & -> & -> & ->).
  destruct (update_online k1 v1 _ _ L2) as (-> & -> & _ & -> & -> & ->).
  rewrite S1, S2, U1, U2, R1, R2.
  assert (forall (A : Type) (x y : A) (m : gmap string A),
             <[k2 := y]> (<[k1 := x]> m) = <[k1 := x]> (<[k2 := y]> m)) as Hc
    by (intros A x y m; apply insert_insert_ne; done).
  rewrite !Hc. repeat (split; [done|]). split; [|done].
  destruct (user w); [|done].
  cbn [default from_option Datatypes.id]. rewrite Hc. done.
Qed.

Lemma updates_to_distinct_keys_commute_witness :
  let w := mount (Some ∅) true None in
  let a := exec (updateState (codec := reference_codec) online "B" (JNum 2))
             (exec (updateState (codec := reference_codec) online "A" (JNum 1))
                w) in
  let b := exec (updateState (codec := reference_codec) online "A" (JNum 1))
             (exec (updateState (codec := reference_codec) online "B" (JNum 2))
                w) in
  state a = state b /\ localStorage a = localStorage b
  /\ user_data a = user_data b
  /\ isSync a = isSync b /\ isSyncing a = isSyncing b.
Proof.
  intros w a b.
  apply (updates_to_distinct_keys_commute reference_codec "A" "B"
           (JNum 1) (JNum 2) w).
  discriminate.
Defined.

(** X9. [clearState] undoes [updateState]: after an update of a key, whatever
    became of its remote write, a clear with the network up leaves the key
    absent from the state and from [localStorage], and for a signed-in user
    from the remote record; every other key is where it was before the
    update. *)
Theorem clear_undoes_update (codec : JSON) net key data w ls :
  localStorage w = Some ls ->
  let w1 := exec (updateState net key data) w in
  let w2 := exec (clearState online key) w1 in
  state w2 !! key = None
  /\ (localStorage w2 ≫= lookup key) = None
  /\ (user w = true -> (user_data w2 ≫= lookup key) = None)
  /\ forall k, k <> key ->
       state w2 !! k = state w !! k
       /\ (localStorage w2 ≫= lookup k) = (localStorage w ≫= lookup k)
       /\ (user_data w2 ≫= lookup k) = (user_data w ≫= lookup k).
Proof.
  destruct w as [st sy sg lo l u d rq]. destruct net as [sf wf].
  cbn [localStorage]. intros ->.
  assert (forall (A : Type) (x : A) (m : gmap string A),
             delete key (<[key := x]> m) !! key = None) as Hgone
    by (intros; apply lookup_delete_eq).
  assert (forall (A : Type) (m : gmap string A), delete key m !! key = None)
    as Hgone' by (intros; apply lookup_delete_eq).
  assert (forall (A : Type) (x : A) (m : gmap string A) k, k <> key ->
             delete key (<[key := x]> m) !! k = m !! k) as Hkept.
  { intros A x m k Hk. rewrite lookup_delete_ne, lookup_insert_ne; done. }
  assert (forall (A : Type) (m : gmap string A) k, k <> key ->
             delete key m !! k = m !! k) as Hkept'
    by (intros; apply lookup_delete_ne; done).
  run_store. destruct u; run_store.
  2: { split; [apply Hgone|]. split; [apply Hgone|]. split; [done|].
       intros k Hk. rewrite !Hkept by done. done. }
  destruct sf as [e|]; run_store.
  - destruct (negb (String.eqb (code e) "PGRST116")); run_store.
    + destruct d as [remote|]; run_store.
      * split; [apply Hgone|]. split; [apply Hgone|]. split; [auto|].
        intros k Hk. rewrite !Hkept, Hkept' by done. done.
      * split; [apply Hgone|]. split; [apply Hgone|]. split; [done|].
        intros k Hk. rewrite !Hkept by done. done.
    + destruct wf; run_store.
      * destruct d as [remote|]; run_store.
        -- split; [apply Hgone|]. split; [apply Hgone|]. split; [auto|].
           intros k Hk. rewrite !Hkept, Hkept' by done. done.
        -- split; [apply Hgone|]. split; [apply Hgone|]. split; [done|].
           intros k Hk. rewrite !Hkept by done. done.
      * destruct d as [remote|]; run_store.
        -- split; [apply Hgone|]. split; [apply Hgone|]. split; [auto|].
           intros k Hk. rewrite !Hkept, Hkept' by done. done.
        -- split; [apply Hgone|]. split; [apply Hgone|]. split; [auto|].
           intros k Hk. rewrite !Hkept by done. rewrite lookup_empty. done.
  - destruct d as [remote|]; run_store; destruct wf; run_store.
    + split; [apply Hgone|]. split; [apply Hgone|]. split; [auto|].
      intros k Hk. rewrite !Hkept, Hkept' by done. done.
    + split; [apply Hgone|]. split; [apply Hgone|]. split; [auto|].
      intros k Hk. rewrite !Hkept by done. done.
    + split; [apply Hgone|]. split; [apply Hgone|]. split; [done|].
      intros k Hk. rewrite !Hkept by done. done.
    + split; [apply Hgone|]. split; [apply Hgone|]. split; [auto|].
      intros k Hk. rewrite !Hkept by done. rewrite lookup_empty. done.
Qed.

Lemma clear_undoes_update_witness :
  let w := mount (Some {[ "theme" := "1" ]}) true
             (Some {[ "theme" := JNum 1 ]}) in
  let w1 := exec (updateState (codec := reference_codec) online
                    "chats" (JArr [])) w in
  let w2 := exec (clearState online "chats") w1 in
  state w2 !! "chats" = None
  /\ (user_data w2 ≫= lookup "chats") = None
  /\ (user_data w2 ≫= lookup "theme") = Some (JNum 1).
Proof.
  intros w w1 w2.
  destruct (clear_undoes_update reference_codec online "chats" (JArr []) w
              {[ "theme" := "1" ]} eq_refl)
    as (Hstate & _ & Hrow & Hothers).
  split; [exact Hstate|]. split; [exact (Hrow eq_refl)|].
  destruct (Hothers "theme") as (_ & _ & Hkept); [discriminate|].
  exact Hkept.
Defined.

(** X10. A clear whose remote write is refused is undone by the next start: the
    key leaves the state and [localStorage], the remote record keeps it,
    [isSync] is left as it was, and a restart followed by a load that
    fetches the record puts the remote value back in the state and in
    [localStorage]. *)
Theorem refused_clear_is_undone_by_reload (codec : JSON)
    net net' key w ls remote v :
  localStorage w = Some ls -> user w = true -> user_data w = Some remote ->
  remote !! key = Some v ->
  select_fault net = None -> is_Some (write_fault net) ->
  select_fault net' = None ->
  let w1 := exec (clearState net key) w in
  let w2 := exec (loadInitialState net') (restart w1) in
  state w1 !! key = None
  /\ (localStorage w1 ≫= lookup key) = None
  /\ isSync w1 = isSync w
  /\ state w2 !! key = Some v
  /\ (localStorage w2 ≫= lookup key) = Some (JSON_stringify v).
Proof.
  intros Hls Huser Hrow Hv Hnet Hwrite Hnet' w1 w2.
  destruct (clear_local net key w ls Hls) as (_ & Hst1 & Hls1 & Hu1).
  destruct (clear_refused net key w ls remote Hls Huser Hrow Hnet Hwrite)
    as (Hrow1 & Hsync1 & _).
  fold w1 in Hrow1, Hsync1. change (clearState net key w).2 with w1 in *.
  rewrite Hst1, Hls1. cbn [mbind option_bind]. rewrite !lookup_delete_eq.
  repeat (split; [done|]).
  subst w2. unfold exec.
  rewrite (load_fetched net' (restart w1) (delete key ls) remote);
    [|done|cbn; congruence|done|done].
  cbn [snd state localStorage mbind option_bind].
  pose proof (merge_entries_lookup (read_localStorage (delete key ls)) remote
                (delete key ls) key) as Hm.
  destruct (merge_entries _ remote (delete key ls)) as [[merged ls'] upd].
  destruct Hm as (Hm & Hl & _). cbn [fst snd]. rewrite Hm, Hl, Hv.
  assert (read_localStorage (delete key ls) !! key = None) as ->; [|done].
  rewrite read_localStorage_lookup, lookup_delete_eq.
  destruct (eligible key); done.
Qed.

Lemma refused_clear_is_undone_by_reload_witness :
  let w := mount (Some {[ "theme" := "1" ]}) true
             (Some {[ "theme" := JNum 1 ]}) in
  let net := {| select_fault := None;
                write_fault := Some {| code := "503" |} |} in
  let w1 := exec (clearState net "theme") w in
  let w2 := exec (loadInitialState (codec := reference_codec) online)
              (restart w1) in
  state w1 !! "theme" = None /\ state w2 !! "theme" = Some (JNum 1).
Proof.
  intros w net w1 w2.
  destruct (refused_clear_is_undone_by_reload reference_codec net online
              "theme" w {[ "theme" := "1" ]} {[ "theme" := JNum 1 ]} (JNum 1)
              eq_refl eq_refl eq_refl eq_refl eq_refl
              (ex_intro _ {| code := "503" |} eq_refl) eq_refl)
    as (H1 & _ & _ & H2 & _).
  exact (conj H1 H2).
Defined.

(** X11. [clearState] never creates a remote row and never raises the busy flag:
    whatever the stores hold and whatever the network does, it completes
    normally, leaves [isSyncing] and [isLoading] as they were, issues at
    most the user lookup, the read and one [update] (never an [insert]), and
    the remote row is either untouched or the old record without the key. *)
Theorem clear_writes_at_most_one_update (codec : JSON) net key w :
  (clearState net key w).1 = Normal ()
  /\ isSyncing (exec (clearState net key) w) = isSyncing w
  /\ isLoading (exec (clearState net key) w) = isLoading w
  /\ exists issued,
       requests (exec (clearState net key) w) = requests w ++ issued
       /\ ((user_data (exec (clearState net key) w) = user_data w
            /\ (issued = [] \/ issued = [GetUser]
                \/ issued = [GetUser; Select]))
           \/ exists remote,
                user_data w = Some remote
                /\ issued = [GetUser; Select; Update (delete key remote)]
                /\ (user_data (exec (clearState net key) w) = Some remote
                    \/ user_data (exec (clearState net key) w)
                       = Some (delete key remote))).
Proof.
  destruct w as [st sy sg lo l u d rq]. destruct net as [sf wf].
  destruct l as [ls|]; run_store.
  2: { repeat (split; [done|]). exists []. rewrite app_nil_r. auto. }
  destruct u; run_store.
  2: { repeat (split; [done|]). exists [GetUser]. auto 6. }
  destruct sf as [e|]; run_store.
  { repeat (split; [done|]). rewrite <- app_assoc.
    exists [GetUser; Select]. auto 6. }
  destruct d as [remote|]; run_store.
  2: { repeat (split; [done|]). rewrite <- app_assoc.
       exists [GetUser; Select]. auto 6. }
  destruct wf; run_store; repeat (split; [done|]); rewrite <- !app_assoc;
    (eexists; split; [reflexivity|]); right; exists remote; auto.
Qed.

(** X12. The flag [isSync] is not sound after [clearState]: when the read of the
    row is refused, whatever the error, the call makes no write and sets
    [isSync], while the remote record still holds the key. *)
Theorem clear_reports_synced_when_read_refused (codec : JSON)
    net key w ls remote v e :
  localStorage w = Some ls -> user w = true -> user_data w = Some remote ->
  remote !! key = Some v -> select_fault net = Some e ->
  let w' := exec (clearState net key) w in
  isSync w' = true
  /\ (user_data w' ≫= lookup key) = Some v
  /\ requests w' = requests w ++ [GetUser; Select].
Proof.
  destruct w as [st sy sg lo l u d rq]. destruct net as [sf wf].
  cbn [localStorage user user_data select_fault requests].
  intros -> -> -> Hv ->. run_store. rewrite <- app_assoc. done.
Qed.

Lemma clear_reports_synced_when_read_refused_witness :
  let w := mount (Some {[ "theme" := "1" ]}) true
             (Some {[ "theme" := JNum 1 ]}) in
  let net := {| select_fault := Some {| code := "503" |};
                write_fault := None |} in
  let w' := exec (clearState net "theme") w in
  isSync w' = true
  /\ (user_data w' ≫= lookup "theme") = Some (JNum 1)
  /\ requests w' = requests w ++ [GetUser; Select].
Proof.
  intros w net w'.
  exact (clear_reports_synced_when_read_refused reference_codec net "theme" w
           {[ "theme" := "1" ]} {[ "theme" := JNum 1 ]} (JNum 1)
           {| code := "503" |} eq_refl eq_refl eq_refl eq_refl eq_refl).
Defined.

(** ** The chat route beyond the cases above *)

Module RouteFacts.
Import Chat ChatFacts StringFacts.

(** The finish reason a chunk reports, if it reports one. *)
Definition reason_of (c : openai_chunk) : option string :=
  match head (choices c) ≫= finish_reason with
  | Some r => if String.eqb r "" then None else Some r
  | None => None
  end.

Section facts.
Context {codec : JSON}.

(** A controller call that forwards a piece of content. *)
Definition content_op (op : controller_op) : Prop :=
  exists content, op = Enqueue (content_frame content).

Lemma split_nonempty sep s : split sep s <> [].
Proof.
  destruct s as [|c s]; [done|]. cbn [split].
  destruct (Ascii.eqb c sep); [done|]. destruct (split sep s); done.
Qed.

(** Splitting distributes over a separator. *)
Lemma split_app sep a r :
  split sep (a +:+ String sep r) = split sep a ++ split sep r.
Proof.
  induction a as [|c a IH].
  - cbn [split]. change ("" +:+ String sep r) with (String sep r).
    cbn [split]. rewrite Ascii.eqb_refl. reflexivity.
  - rewrite append_cons. cbn [split]. rewrite IH.
    destruct (Ascii.eqb c sep); [reflexivity|].
    pose proof (split_nonempty sep a).
    destruct (split sep a); [done|reflexivity].
Qed.

(** The sentinel line ends the loop over the lines of its read. *)
Lemma on_lines_sentinel pre post st :
  on_lines (pre ++ "data: [DONE]" :: post) st = on_lines pre st.
Proof.
  revert st. induction pre as [|line pre IH]; intros st; [reflexivity|].
  cbn [app on_lines]. destruct (startsWith line "data: "); [|apply IH].
  destruct (String.eqb (slice 6 line) "[DONE]"); [reflexivity|apply IH].
Qed.

(** One [data:] line only ever adds content events to the stream. *)
Lemma on_data_enqueues data st st' :
  on_data data st = Some st' ->
  exists body, st'.2 = st.2 ++ body /\ Forall content_op body.
Proof.
  assert (forall text,
             exists body,
               st.2 ++ [Enqueue (content_frame text)] = st.2 ++ body
               /\ Forall content_op body) as Hone.
  { intros text. eexists. split; [reflexivity|].
    apply Forall_cons. split; [eexists; reflexivity|constructor]. }
  assert (exists body, st.2 = st.2 ++ body /\ Forall content_op body)
    as Hnone.
  { exists []. rewrite app_nil_r. split; [reflexivity|constructor]. }
  unfold on_data. destruct (JSON_parse data) as [parsed|]; [|done].
  cbn [mbind option_bind].
  destruct parsed; [done|..];
    (destruct (is_str _ "content_block_delta" && _);
     [destruct (opt_chain (prop _ "delta") "text") as [[]|]|]);
    cbn [mbind option_bind]; try done; intros [= <-];
    repeat match goal with
      | |- context [if ?c then _ else _] => destruct c
      end; cbn [fst snd];
    first [apply Hnone | apply Hone].
Qed.

Lemma on_lines_enqueues lines : forall st,
  exists body, (on_lines lines st).2 = st.2 ++ body /\ Forall content_op body.
Proof.
  induction lines as [|line lines IH]; intros st; cbn [on_lines].
  { exists []. rewrite app_nil_r. split; [done|constructor]. }
  destruct (startsWith line "data: "); [|apply IH].
  destruct (String.eqb (slice 6 line) "[DONE]").
  { exists []. rewrite app_nil_r. split; [done|constructor]. }
  destruct (on_data (slice 6 line) st) as [st'|] eqn:Hdata;
    cbn [default from_option Datatypes.id]; [|apply IH].
  destruct (on_data_enqueues _ _ _ Hdata) as (b1 & H1 & Hb1).
  destruct (IH st') as (b2 & H2 & Hb2).
  exists (b1 ++ b2). rewrite H2, H1, app_assoc. split; [done|].
  apply Forall_app; done.
Qed.

Lemma on_reads_enqueues reads : forall st,
  exists body, (on_reads reads st).2 = st.2 ++ body /\ Forall content_op body.
Proof.
  induction reads as [|chunk reads IH]; intros st; cbn [on_reads].
  { exists []. rewrite app_nil_r. split; [done|constructor]. }
  destruct (on_lines_enqueues (split newline chunk) st) as (b1 & H1 & Hb1).
  destruct (IH (on_lines (split newline chunk) st)) as (b2 & H2 & Hb2).
  exists (b1 ++ b2). rewrite H2, H1, app_assoc. split; [done|].
  apply Forall_app; done.
Qed.

(** What the stream of a request holds, whatever the provider does. *)
Lemma start_shape env model messages provider userApiKey :
  let r := start env model messages provider userApiKey in
  exists body,
    Forall content_op body
    /\ (length r.1.1 <= 1)%nat
    /\ ((r.1.2 = Enqueue (metadata_frame model)
                 :: body ++ [Enqueue done_frame; Close]
         /\ is_Some r.2)
        \/ exists e, r.1.2 = Enqueue (metadata_frame model) :: body ++ [Error e]
                     /\ r.2 = None).
Proof.
  unfold start.
  destruct (is_str (Some provider) "openai").
  - destruct (openai env) as [st|chunks fin]; cbn -[content_frame].
    + exists []. split; [constructor|]. split; [lia|]. right. eauto.
    + pose proof (on_chunks_effect chunks
                    ({| totalTokens := Some 0; inputTokens := JNum 0;
                        outputTokens := JNum 0; totalCharacters := 0;
                        finishReason := "" |},
                     [Enqueue (metadata_frame model)])) as [Htrace _].
      cbn [snd] in Htrace.
      exists (map (fun t => Enqueue (content_frame (JStr t)))
                (omap chunk_text chunks)).
      split.
      { apply Forall_map, Forall_true. intros t. eexists. reflexivity. }
      destruct fin; cbn [fst snd length]; rewrite Htrace; (split; [lia|]).
      * left. split; [reflexivity|eauto].
      * right. eauto.
  - destruct (is_str (Some provider) "anthropic").
    2: { exists []. split; [constructor|]. split; [cbn; lia|]. right.
         eauto. }
    unfold anthropicStream.
    destruct (negb (ok (anthropic env))).
    { exists []. split; [constructor|]. split; [cbn; lia|]. right. eauto. }
    destruct (body (anthropic env)) as [[reads fin]|].
    2: { exists []. split; [constructor|]. split; [cbn; lia|]. right.
         eauto. }
    destruct (on_reads_enqueues reads
                ({| input_tokens := JNum 0; output_tokens := JNum 0;
                    characters := Some 0 |},
                 [Enqueue (metadata_frame model)])) as (body & Hbody & Hall).
    destruct (on_reads reads _) as [usage trace']. cbn [snd] in Hbody.
    subst trace'. exists body. split; [done|].
    destruct fin; cbn [fst snd length]; (split; [lia|]).
    + left. split; [reflexivity|eauto].
    + right. eauto.
Qed.

(** The totals the loop over the chunks keeps are those of the last chunk
    that reports them. *)
Lemma on_chunk_totals chunk st :
  let st' := on_chunk chunk st in
  finishReason st'.1 = default (finishReason st.1) (reason_of chunk)
  /\ totalTokens st'.1
     = default (totalTokens st.1) (Some ∘ total_tokens <$> usage chunk)
  /\ inputTokens st'.1
     = default (inputTokens st.1) (JNum ∘ prompt_tokens <$> usage chunk)
  /\ outputTokens st'.1
     = default (outputTokens st.1) (JNum ∘ completion_tokens <$> usage chunk).
Proof.
  destruct st as [totals trace]. unfold on_chunk, reason_of.
  destruct (choices chunk) as [|ch chs]; cbn.
  2: destruct (delta_content ch) as [t|], (finish_reason ch) as [r|]; cbn.
  all: destruct (usage chunk); cbn.
  all: repeat match goal with
         | |- context [String.eqb ?a ""] => destruct (String.eqb a ""); cbn
         end.
  all: done.
Qed.

Lemma default_last_cons {A} (d x : A) l :
  default d (last (x :: l)) = default x (last l).
Proof. rewrite last_cons. destruct (last l); reflexivity. Qed.

Lemma on_chunks_totals chunks : forall st,
  let st' := fold_left (fun st chunk => on_chunk chunk st) chunks st in
  finishReason st'.1
  = default (finishReason st.1) (last (omap reason_of chunks))
  /\ totalTokens st'.1
     = default (totalTokens st.1)
         (Some ∘ total_tokens <$> last (omap usage chunks))
  /\ inputTokens st'.1
     = default (inputTokens st.1)
         (JNum ∘ prompt_tokens <$> last (omap usage chunks))
  /\ outputTokens st'.1
     = default (outputTokens st.1)
         (JNum ∘ completion_tokens <$> last (omap usage chunks)).
Proof.
  induction chunks as [|chunk chunks IH]; intros st; [done|].
  cbn [fold_left]. destruct (IH (on_chunk chunk st)) as (-> & -> & -> & ->).
  destruct (on_chunk_totals chunk st) as (-> & -> & -> & ->).
  cbn [omap list_omap]. fold (omap reason_of chunks) (omap usage chunks).
  destruct (reason_of chunk) as [r|], (usage chunk) as [u|];
    rewrite ?last_cons;
    destruct (last (omap reason_of chunks)), (last (omap usage chunks));
    done.
Qed.

End facts.
End RouteFacts.

Import RouteFacts.

(** X13. The usage event is sent exactly for the requests that pass the session
    and entitlement gates: for these it is sent whatever the outcome (a
    rejected body, an unsupported model, a failed stream), and for the
    others never. *)
Theorem usage_event_iff_admitted (codec : JSON) env request :
  event_sent (POST env request) = true
  <-> is_Some (session request) /\ entitled request = true.
Proof.
  unfold POST. destruct (session request) as [uid|].
  2: { split; [done|]. intros [[? [=]] _]. }
  destruct (entitled request); cbn [negb].
  2: { split; [done|]. intros [_ [=]]. }
  assert (forall o, event_sent o = true ->
                    (event_sent o = true <-> is_Some (Some uid) /\ true = true))
    as Hyes by (intros o Ho; split; eauto).
  destruct (request_json request) as [b|]; [|apply Hyes; reflexivity].
  destruct b; try (apply Hyes; reflexivity);
    destruct (prop _ "messages") as [[]|]; try (apply Hyes; reflexivity);
    destruct (find _ AVAILABLE_MODELS); try (apply Hyes; reflexivity);
    destruct (start env _ _ _ _) as [[? ?] ?]; apply Hyes; reflexivity.
Qed.

(** X14. Every event stream the route answers with has one shape: the metadata
    event, then content events only, then either the sentinel and a close,
    with the usage logged, or one error, with nothing logged.  The stream is
    ended exactly once, at most one provider request is made, and an answer
    that is not a stream comes with no provider request at all. *)
Theorem stream_ends_exactly_once (codec : JSON) env request :
  (length (calls (POST env request)) <= 1)%nat
  /\ match response_of (POST env request) with
     | JsonResponse _ _ =>
         calls (POST env request) = [] /\ logged (POST env request) = None
     | EventStream trace =>
         exists body,
           Forall content_op body
           /\ ((trace = Enqueue (metadata_frame (requested_model request))
                        :: body ++ [Enqueue done_frame; Close]
                /\ is_Some (logged (POST env request)))
               \/ exists e,
                    trace = Enqueue (metadata_frame (requested_model request))
                            :: body ++ [Error e]
                    /\ logged (POST env request) = None)
     end.
Proof.
  unfold POST, requested_model.
  destruct (session request) as [uid|]; [|cbn; split; [lia|done]].
  destruct (entitled request); cbn [negb]; [|cbn; split; [lia|done]].
  destruct (request_json request) as [b|]; [|cbn; split; [lia|done]].
  cbn [mbind option_bind].
  destruct b; try (cbn; split; [lia|done]);
    destruct (prop _ "messages") as [[]|]; try (cbn; split; [lia|done]);
    destruct (find _ AVAILABLE_MODELS); try (cbn; split; [lia|done]);
    match goal with
    | |- context [start ?e ?m ?ms ?p ?k] =>
        destruct (start_shape e m ms p k) as (body & Hall & Hlen & Hshape);
        destruct (start e m ms p k) as [[cs trace] log]
    end; cbn [fst snd calls response_of logged] in *; eauto.
Qed.

(** X15. A provider stream that breaks off keeps what it has delivered: the
    content events forwarded so far stay in the response, the error follows
    them, the sentinel is not sent and no usage is logged. *)
Theorem interrupted_stream_keeps_content (codec : JSON)
    env request model messages provider userApiKey :
  accepts request model messages provider userApiKey -> supported model ->
  (forall chunks,
      provider = JStr "openai" ->
      openai env = OpenAIStream chunks Interrupted ->
      response_of (POST env request)
      = EventStream
          (Enqueue (metadata_frame model)
           :: map (fun t => Enqueue (content_frame (JStr t)))
                (omap chunk_text chunks)
           ++ [Error StreamFailure])
      /\ logged (POST env request) = None)
  /\ (forall groups st msg,
      provider = JStr "anthropic" ->
      anthropic env
      = {| ok := true; status := st; statusText := msg;
           body := Some (map read_of groups, Interrupted) |} ->
      response_of (POST env request)
      = EventStream
          (Enqueue (metadata_frame model)
           :: map (fun t => Enqueue (content_frame (JStr t)))
                (omap event_text (concat groups))
           ++ [Error StreamFailure])
      /\ logged (POST env request) = None).
Proof.
  intros Hacc Hsup. rewrite (POST_accepted _ _ _ _ _ _ Hacc Hsup).
  cbn [response_of logged]. split.
  - intros chunks -> Hreply. unfold start.
    cbn [is_str String.eqb Ascii.eqb Bool.eqb]. rewrite Hreply.
    pose proof (on_chunks_effect chunks
                  ({| totalTokens := Some 0; inputTokens := JNum 0;
                      outputTokens := JNum 0; totalCharacters := 0;
                      finishReason := "" |},
                   [Enqueue (metadata_frame model)])) as [Htrace _].
    cbn [fst snd] in *. rewrite Htrace. done.
  - intros groups st msg -> Hreply. unfold start, anthropicStream.
    cbn [is_str String.eqb Ascii.eqb Bool.eqb]. rewrite Hreply.
    cbn [ok body negb]. rewrite on_reads_script.
    pose proof (apply_events_effect (concat groups)
                  ({| input_tokens := JNum 0; output_tokens := JNum 0;
                      characters := Some 0 |},
                   [Enqueue (metadata_frame model)]) 0 eq_refl)
      as [Htrace _].
    destruct (fold_left apply_event (concat groups) _) as [usage trace].
    cbn [fst snd] in *. rewrite Htrace. done.
Qed.

Lemma interrupted_stream_keeps_content_witness :
  let env :=
    sample_env (OpenAIStream [text_chunk "Hel"; text_chunk "lo"] Interrupted)
      no_reply in
  let r := POST (codec := reference_codec) env
             (sample_request "gpt-4o" "openai") in
  response_of r
  = EventStream
      [Enqueue (metadata_frame (JStr "gpt-4o"));
       Enqueue (content_frame (JStr "Hel"));
       Enqueue (content_frame (JStr "lo"));
       Error StreamFailure]
  /\ logged r = None.
Proof.
  intros env r.
  exact (proj1 (interrupted_stream_keeps_content reference_codec env _ _ _ _ _
                  (sample_request_accepted "gpt-4o" "openai")
                  gpt_4o_supported)
           [text_chunk "Hel"; text_chunk "lo"] eq_refl eq_refl).
Defined.

(** X16. The totals logged for an OpenAI stream are those of the last chunk that
    carries a usage report, and the finish reason is the last non-empty one
    of a first choice; zero and the empty string when no chunk has any. *)
Theorem openai_totals_from_last_report (codec : JSON)
    env request model messages provider userApiKey chunks :
  accepts request model messages provider userApiKey -> supported model ->
  provider = JStr "openai" -> openai env = OpenAIStream chunks Finished ->
  exists log,
    logged (POST env request) = Some log
    /\ finishReason log = default "" (last (omap reason_of chunks))
    /\ totalTokens log
       = Some (default 0 (total_tokens <$> last (omap usage chunks)))
    /\ inputTokens log
       = JNum (default 0 (prompt_tokens <$> last (omap usage chunks)))
    /\ outputTokens log
       = JNum (default 0 (completion_tokens <$> last (omap usage chunks))).
Proof.
  intros Hacc Hsup -> Hreply. rewrite (POST_accepted _ _ _ _ _ _ Hacc Hsup).
  cbn [logged]. unfold start.
  cbn [is_str String.eqb Ascii.eqb Bool.eqb]. rewrite Hreply.
  pose proof (on_chunks_totals chunks
                ({| totalTokens := Some 0; inputTokens := JNum 0;
                    outputTokens := JNum 0; totalCharacters := 0;
                    finishReason := "" |},
                 [Enqueue (metadata_frame model)])) as (Hr & Ht & Hi & Ho).
  cbn [fst snd finishReason totalTokens inputTokens outputTokens] in *.
  eexists. split; [reflexivity|]. rewrite Hr, Ht, Hi, Ho.
  destruct (last (omap usage chunks)); done.
Qed.

Lemma openai_totals_from_last_report_witness :
  let report n :=
    {| choices := [{| delta_content := Some "x"; finish_reason := Some "stop" |}];
       usage := Some {| prompt_tokens := n; completion_tokens := 1;
                        total_tokens := n + 1 |} |} in
  let env :=
    sample_env (OpenAIStream [report 3; text_chunk "y"; report 7; text_chunk "z"]
                  Finished) no_reply in
  exists log,
    logged (POST (codec := reference_codec) env
              (sample_request "gpt-4o" "openai")) = Some log
    /\ finishReason log = "stop" /\ totalTokens log = Some 8.
Proof.
  intros report env.
  destruct (openai_totals_from_last_report reference_codec env _ _ _ _ _
              [report 3; text_chunk "y"; report 7; text_chunk "z"]
              (sample_request_accepted "gpt-4o" "openai")
              gpt_4o_supported eq_refl eq_refl)
    as (log & Hlog & Hr & Ht & _).
  exists log. split; [exact Hlog|]. split; [exact Hr|exact Ht].
Defined.

(** X17. The upstream is chosen by the [provider] field of the request
    alone: the model's own provider is not consulted.  With [openai] and a
    key at hand (the caller's, or else the server's), OpenAI gets one
    request with the model and the messages as sent and that key; with
    [anthropic], the Anthropic API gets one; any other value gets none, and
    the stream fails right after the metadata event. *)
Theorem provider_field_selects_upstream (codec : JSON)
    env request model messages provider userApiKey :
  accepts request model messages provider userApiKey -> supported model ->
  (provider = JStr "openai" ->
   forall key,
     api_key userApiKey (OPENAI_API_KEY env) = Some (JStr key) ->
     key <> "" ->
     calls (POST env request)
     = [OpenAICreate model messages true true (Some (JStr key))])
  /\ (provider = JStr "anthropic" ->
      calls (POST env request)
      = [anthropic_request model messages
           (api_key userApiKey (ANTHROPIC_API_KEY env))])
  /\ (provider <> JStr "openai" -> provider <> JStr "anthropic" ->
      calls (POST env request) = []
      /\ response_of (POST env request)
         = EventStream [Enqueue (metadata_frame model);
                        Error (UnknownProvider provider)]
      /\ logged (POST env request) = None).
Proof.
  intros Hacc Hsup. rewrite (POST_accepted _ _ _ _ _ _ Hacc Hsup).
  cbn [response_of logged calls]. unfold start, anthropicStream.
  split; [|split].
  - intros -> key <- _. cbn [is_str String.eqb Ascii.eqb Bool.eqb].
    destruct (openai env) as [|chunks []]; reflexivity.
  - intros ->. cbn [is_str String.eqb Ascii.eqb Bool.eqb].
    destruct (negb (ok (anthropic env))); [reflexivity|].
    destruct (body (anthropic env)) as [[reads []]|];
      try destruct (on_reads _ _); reflexivity.
  - intros Ho Ha.
    assert (is_str (Some provider) "openai" = false) as ->.
    { destruct provider; try done. cbn [is_str].
      apply String.eqb_neq. congruence. }
    assert (is_str (Some provider) "anthropic" = false) as ->; [|done].
    destruct provider; try done. cbn [is_str].
    apply String.eqb_neq. congruence.
Qed.

Lemma provider_field_selects_upstream_witness :
  let r := POST (codec := reference_codec)
             (sample_env (OpenAIStream [] Finished) no_reply)
             (sample_request "claude-sonnet-4-20250514" "openai") in
  calls r
  = [OpenAICreate (JStr "claude-sonnet-4-20250514")
       (JArr [JObj [("role", JStr "user"); ("content", JStr "Hi")]])
       true true (Some (JStr "sk-test"))].
Proof.
  intros r.
  apply (proj1 (provider_field_selects_upstream reference_codec
                  (sample_env (OpenAIStream [] Finished) no_reply) _ _ _ _ _
                  (sample_request_accepted "claude-sonnet-4-20250514" "openai")
                  claude_sonnet_supported) eq_refl "sk-test" eq_refl).
  discriminate.
Defined.

(** X18. The [messages] check comes before the model check: an admitted request
    whose body has no [messages] array is answered 400 whatever model it
    names, reaches no provider, and is still metered. *)
Theorem messages_checked_before_model (codec : JSON) env request b :
  is_Some (session request) -> entitled request = true ->
  request_json request = Some b -> b <> JNull ->
  (forall msgs, prop b "messages" <> Some (JArr msgs)) ->
  POST env request
  = {| response_of := JsonResponse 400 "Messages array is required";
       calls := []; caught := None; logged := None; event_sent := true |}.
Proof.
  intros [uid Hs] He Hb Hnull Hmsgs. unfold POST. rewrite Hs, He, Hb.
  cbn [negb].
  destruct b; try done; destruct (prop _ "messages") as [[]|] eqn:Hm;
    try reflexivity; destruct (Hmsgs _ eq_refl).
Qed.

Lemma messages_checked_before_model_witness :
  let request :=
    {| session := Some "user-1"; entitled := true;
       request_json := Some (JObj [("messages", JStr "Hi");
                                   ("model", JStr "gpt-5")]) |} in
  POST (codec := reference_codec) (sample_env (OpenAIRejected 500) no_reply)
    request
  = {| response_of := JsonResponse 400 "Messages array is required";
       calls := []; caught := None; logged := None; event_sent := true |}.
Proof.
  intros request.
  apply (messages_checked_before_model reference_codec _ request
           (JObj [("messages", JStr "Hi"); ("model", JStr "gpt-5")])
           (ex_intro _ "user-1" eq_refl) eq_refl eq_refl).
  - discriminate.
  - intros msgs. discriminate.
Defined.

Import ChatPage.

(** ** The chat page *)

Module PageFacts.
Import Chat ChatFacts StringFacts RouteFacts ChatPage.

(** The frames a response stream puts on the wire. *)
Definition enqueued (trace : list controller_op) : list string :=
  omap (fun op => match op with Enqueue frame => Some frame | _ => None end)
    trace.

(** The text of a read that delivers the given pieces. *)
Definition join (pieces : list string) : string :=
  foldr String.append "" pieces.

(** The events of the route's stream before the sentinel. *)
Inductive route_event :=
| Metadata (model : json)
| Content (text : string).

Definition text_of (e : route_event) : string :=
  match e with
  | Metadata _ => ""
  | Content text => text
  end.

Definition event_wf (e : route_event) : Prop :=
  match e with
  | Metadata model => json_wf model = true
  | Content _ => True
  end.

(** The identifiers of the chats, in order. *)
Definition chat_ids (d : ChatsData) : list string := map chat_id (chats d).

(** The selected chat is one of the chats. *)
Definition current_exists (d : ChatsData) : Prop :=
  match currentChatId d with
  | Some current => In current (chat_ids d)
  | None => True
  end.

Section facts.
Context {codec : JSON}.

Definition wire (e : route_event) : string :=
  match e with
  | Metadata model => metadata_frame model
  | Content text => content_frame (JStr text)
  end.

Lemma join_app a b : join (a ++ b) = join a +:+ join b.
Proof.
  induction a as [|x a IH]; [reflexivity|].
  cbn [app join foldr]. fold (join (a ++ b)) (join a).
  rewrite IH, append_assoc. reflexivity.
Qed.

(** *** The reader loop of [sendMessage] *)

Lemma receive_lines_sentinel pre post acc :
  receive_lines (pre ++ "data: [DONE]" :: post) acc = receive_lines pre acc.
Proof.
  revert acc. induction pre as [|line pre IH]; intros acc; [reflexivity|].
  cbn [app receive_lines]. destruct (startsWith line "data: "); [|apply IH].
  destruct (String.eqb (slice 6 line) "[DONE]"); [reflexivity|apply IH].
Qed.

Lemma stringify_not_sentinel v :
  json_wf v = true -> String.eqb (JSON_stringify v) "[DONE]" = false.
Proof.
  intros Hwf. apply String.eqb_neq. intros Heq.
  pose proof (JSON_parse_stringify v Hwf) as Hparse.
  rewrite Heq, JSON_parse_DONE in Hparse. discriminate.
Qed.

(** The lines of an event of the route followed by more text. *)
Lemma receive_lines_sse v r acc :
  json_wf v = true ->
  receive_lines (split newline (sse v +:+ r)) acc
  = receive_lines (split newline r) (on_event (JSON_stringify v) acc).
Proof.
  intros Hwf. unfold sse. rewrite !append_assoc.
  rewrite <- (append_assoc "data: " (JSON_stringify v)).
  rewrite split_line by apply data_line_one_line.
  change (split newline (NL +:+ r)) with ("" :: split newline r).
  cbn [receive_lines]. unfold startsWith at 1. rewrite prefix_append.
  change (slice 6 ("data: " +:+ ?s))
    with (slice (String.length "data: ") ("data: " +:+ s)).
  rewrite slice_append, stringify_not_sentinel by done. reflexivity.
Qed.

Lemma receive_lines_wire e r acc :
  event_wf e ->
  receive_lines (split newline (wire e +:+ r)) acc
  = receive_lines (split newline r) (acc +:+ text_of e).
Proof.
  destruct e as [model|text]; cbn [event_wf wire text_of]; intros Hwf.
  - unfold metadata_frame. rewrite receive_lines_sse by (cbn; rewrite Hwf; done).
    unfold on_event. rewrite JSON_parse_stringify by (cbn; rewrite Hwf; done).
    rewrite append_nil_r. reflexivity.
  - unfold content_frame. rewrite receive_lines_sse by done.
    unfold on_event. rewrite JSON_parse_stringify by done.
    cbn. destruct (String.eqb_spec text "") as [->|]; cbn;
      rewrite ?append_nil_r; reflexivity.
Qed.

Lemma receive_lines_events es : forall r acc,
  Forall event_wf es ->
  receive_lines (split newline (join (map wire es) +:+ r)) acc
  = receive_lines (split newline r) (acc +:+ join (map text_of es)).
Proof.
  induction es as [|e es IH]; intros r acc Hwf.
  - cbn. rewrite append_nil_r. reflexivity.
  - apply Forall_cons in Hwf as [He Hes].
    cbn [map join foldr]. fold (join (map wire es)) (join (map text_of es)).
    rewrite append_assoc, receive_lines_wire, IH, append_assoc by done.
    reflexivity.
Qed.

Lemma receive_reads_nothing groups : forall acc,
  concat groups = [] -> receive_reads (map join groups) acc = acc.
Proof.
  induction groups as [|g groups IH]; intros acc Hnil; [reflexivity|].
  cbn [concat] in Hnil. apply app_eq_nil in Hnil as [-> Hnil].
  cbn [map receive_reads]. apply IH, Hnil.
Qed.

(** The page reads back a stream of the route: whatever way the frames are
    grouped into reads, what it accumulates is the texts of the content
    events, in order. *)
Lemma receive_reads_stream groups : forall es acc,
  Forall event_wf es ->
  concat groups = map wire es ++ [done_frame] ->
  receive_reads (map join groups) acc = acc +:+ join (map text_of es).
Proof.
  induction groups as [|g groups IH]; intros es acc Hwf Hcat.
  { destruct (map wire es); discriminate. }
  cbn [concat] in Hcat. cbn [map receive_reads].
  apply app_eq_app in Hcat as [l [[Hg Htail]|[Hes Hrest]]].
  - destruct l as [|x l].
    + rewrite app_nil_r in Hg. subst g. cbn [app] in Htail.
      rewrite <- (append_nil_r (join (map wire es))).
      rewrite receive_lines_events by done.
      change (receive_lines (split newline "") ?a) with a.
      rewrite (IH [] _ (@List.Forall_nil _ _)) by (symmetry; exact Htail).
      cbn. rewrite append_nil_r. reflexivity.
    + injection Htail as <- Htail. symmetry in Htail.
      apply app_eq_nil in Htail as [-> Htail]. subst g.
      rewrite join_app, receive_lines_events by done.
      change (receive_lines (split newline (join [done_frame])) ?a) with a.
      apply receive_reads_nothing, Htail.
  - apply map_eq_app in Hes as (es1 & es2 & -> & <- & <-).
    apply Forall_app in Hwf as [Hwf1 Hwf2].
    rewrite <- (append_nil_r (join (map wire es1))).
    rewrite receive_lines_events by done.
    change (receive_lines (split newline "") ?a) with a.
    rewrite (IH es2) by done.
    rewrite map_app, join_app, append_assoc. reflexivity.
Qed.

Lemma enqueued_stream model texts :
  enqueued (Enqueue (metadata_frame model)
            :: map (fun t => Enqueue (content_frame (JStr t))) texts
            ++ [Enqueue done_frame; Close])
  = map wire (Metadata model :: map Content texts) ++ [done_frame].
Proof.
  cbn [enqueued omap list_omap map app wire]. f_equal.
  induction texts as [|t texts IH]; [reflexivity|].
  cbn [map app omap list_omap wire]. f_equal. exact IH.
Qed.

Lemma join_texts texts : join (map text_of (map Content texts)) = join texts.
Proof.
  induction texts as [|t texts IH]; [reflexivity|].
  cbn [map join foldr text_of]. fold (join (map text_of (map Content texts))).
  fold (join texts). rewrite IH. reflexivity.
Qed.

(** The provider named streams the given texts, in this order, and its
    stream runs to its end. *)
Definition streamed (env : providers) (provider : string)
    (texts : list string) : Prop :=
  (provider = "openai"
   /\ exists chunks,
        openai env = OpenAIStream chunks Finished
        /\ texts = omap chunk_text chunks)
  \/ (provider = "anthropic"
      /\ exists events st msg,
           anthropic env
           = {| ok := true; status := st; statusText := msg;
                body := Some (map read_of events, Finished) |}
           /\ texts = omap event_text (concat events)).

(** The response of the route to an accepted request when the provider
    streams to its end. *)
Lemma streamed_response env request model messages provider userApiKey texts :
  accepts request model messages (JStr provider) userApiKey ->
  supported model -> streamed env provider texts ->
  response_of (POST env request)
  = EventStream
      (Enqueue (metadata_frame model)
       :: map (fun t => Enqueue (content_frame (JStr t))) texts
       ++ [Enqueue done_frame; Close]).
Proof.
  intros Hacc Hsup Hstream. rewrite (POST_accepted _ _ _ _ _ _ Hacc Hsup).
  cbn [response_of]. f_equal.
  destruct Hstream as [[-> (chunks & Hreply & ->)]
                      |[-> (events & st & msg & Hreply & ->)]].
  - unfold start. cbn [is_str String.eqb Ascii.eqb Bool.eqb]. rewrite Hreply.
    pose proof (on_chunks_effect chunks
                  ({| totalTokens := Some 0; inputTokens := JNum 0;
                      outputTokens := JNum 0; totalCharacters := 0;
                      finishReason := "" |},
                   [Enqueue (metadata_frame model)])) as [Htrace _].
    cbn [fst snd] in *. rewrite Htrace. reflexivity.
  - unfold start, anthropicStream.
    cbn [is_str String.eqb Ascii.eqb Bool.eqb]. rewrite Hreply.
    cbn [ok body negb]. rewrite on_reads_script.
    pose proof (apply_events_effect (concat events)
                  ({| input_tokens := JNum 0; output_tokens := JNum 0;
                      characters := Some 0 |},
                   [Enqueue (metadata_frame model)]) 0 eq_refl)
      as [Htrace _].
    destruct (fold_left apply_event (concat events) _) as [usage tr].
    cbn [fst snd] in *. rewrite Htrace. reflexivity.
Qed.

(** What the page accumulates from the reads of such a response. *)
Lemma streamed_read_back env request model messages provider userApiKey
    texts trace groups :
  accepts request model messages (JStr provider) userApiKey ->
  supported model -> streamed env provider texts ->
  response_of (POST env request) = EventStream trace ->
  concat groups = enqueued trace ->
  receive_reads (map join groups) "" = join texts.
Proof.
  intros Hacc Hsup Hstream.
  rewrite (streamed_response _ _ _ _ _ _ _ Hacc Hsup Hstream).
  intros [= <-] Hgroups. rewrite enqueued_stream in Hgroups.
  assert (Forall event_wf (Metadata model :: map Content texts)) as Hwf.
  { destruct Hsup as (m & _ & ->). apply Forall_cons. split; [done|].
    apply Forall_map, Forall_true. done. }
  rewrite (receive_reads_stream groups _ "" Hwf Hgroups).
  cbn [map join foldr text_of]. apply join_texts.
Qed.

End facts.
End PageFacts.

Import PageFacts.

(** X19. The sentinel ends the treatment of its own read only: in the helper of
    the route and in the reader of the page alike, what follows a
    [data: [DONE]] line in the same read is ignored, and the reads that come
    after it are treated as if that read had stopped before the sentinel. *)
Theorem sentinel_ends_its_read_only (codec : JSON) a b rest :
  (forall st,
      on_reads ((a +:+ NL +:+ "data: [DONE]" +:+ NL +:+ b) :: rest) st
      = on_reads (a :: rest) st)
  /\ (forall acc,
      receive_reads ((a +:+ NL +:+ "data: [DONE]" +:+ NL +:+ b) :: rest) acc
      = receive_reads (a :: rest) acc).
Proof.
  assert (split newline (a +:+ NL +:+ "data: [DONE]" +:+ NL +:+ b)
          = split newline a ++ "data: [DONE]" :: split newline b) as Hsplit.
  { change (a +:+ NL +:+ "data: [DONE]" +:+ NL +:+ b)
      with (a +:+ String newline ("data: [DONE]" +:+ String newline b)).
    rewrite split_app. apply (f_equal (app (split newline a))).
    apply (split_app newline "data: [DONE]" b). }
  split; intros st; cbn [on_reads receive_reads]; rewrite Hsplit.
  - rewrite on_lines_sentinel. reflexivity.
  - rewrite receive_lines_sentinel. reflexivity.
Qed.

(** X20. End to end, the page reads back what the provider streamed: for a
    request the route accepts and a provider stream that runs to its end,
    however the frames written by the route are grouped into the reads of
    the page, the text the page accumulates is the concatenation of the
    provider's texts. *)
Theorem page_reads_back_route_stream (codec : JSON)
    env request model messages provider userApiKey texts trace groups :
  accepts request model messages (JStr provider) userApiKey ->
  supported model -> streamed env provider texts ->
  response_of (POST env request) = EventStream trace ->
  concat groups = enqueued trace ->
  receive_reads (map join groups) "" = join texts.
Proof. apply streamed_read_back. Qed.

Lemma page_reads_back_route_stream_witness :
  let env :=
    sample_env (OpenAIStream [text_chunk "Hel"; text_chunk ""; text_chunk "lo"]
                  Finished) no_reply in
  let meta := metadata_frame (codec := reference_codec) (JStr "gpt-4o") in
  let hel := content_frame (codec := reference_codec) (JStr "Hel") in
  let lo := content_frame (codec := reference_codec) (JStr "lo") in
  receive_reads (codec := reference_codec)
    (map join [[meta; hel]; []; [lo; done_frame]]) ""
  = "Hello".
Proof.
  intros env meta hel lo.
  apply (page_reads_back_route_stream reference_codec env
           (sample_request "gpt-4o" "openai") _ _ _ _ ["Hel"; "lo"]
           [Enqueue meta; Enqueue hel; Enqueue lo; Enqueue done_frame; Close]
           [[meta; hel]; []; [lo; done_frame]]
           (sample_request_accepted "gpt-4o" "openai")
           gpt_4o_supported).
  - left. split; [reflexivity|]. eexists. split; reflexivity.
  - reflexivity.
  - reflexivity.
Defined.

Module FormatFacts.
Import Chat ChatFacts StringFacts RouteFacts ChatPage.

Lemma includes_char_cons c x s :
  includes (String x s) (String c "")
  = Ascii.eqb x c || includes s (String c "").
Proof.
  cbn [includes String.prefix].
  destruct (ascii_dec c x) as [<-|Hne].
  - rewrite Ascii.eqb_refl, prefix_nil. reflexivity.
  - rewrite (proj2 (Ascii.eqb_neq x c)) by congruence. reflexivity.
Qed.

(** A text without the separator is a single piece. *)
Lemma split_whole c s : includes s (String c "") = false -> split c s = [s].
Proof.
  induction s as [|x s IH]; [reflexivity|].
  rewrite includes_char_cons. intros [Hx Hs]%orb_false_iff.
  cbn [split]. rewrite Hx, IH by done. reflexivity.
Qed.

Lemma attachment_parts_wf provider a :
  forallb json_wf (attachment_parts provider a) = true.
Proof.
  unfold attachment_parts.
  destruct (String.eqb (att_type a) "image").
  - destruct (String.eqb provider "openai"); [reflexivity|].
    destruct (String.eqb provider "anthropic"); [|reflexivity].
    destruct (nth_error _ 1); reflexivity.
  - destruct (String.eqb (att_type a) "text"); reflexivity.
Qed.

Lemma forallb_concat {A} (f : A -> bool) (ls : list (list A)) :
  forallb (forallb f) ls = true -> forallb f (concat ls) = true.
Proof.
  induction ls as [|l ls IH]; [done|]. cbn [forallb concat].
  intros [Hl Hls]%andb_true_iff. rewrite forallb_app, Hl. apply IH, Hls.
Qed.

Lemma format_message_wf provider m : json_wf (format_message provider m) = true.
Proof.
  unfold format_message.
  assert (forall atts,
             forallb json_wf
               (concat (map (attachment_parts provider) atts)) = true)
    as Hparts.
  { intros atts. apply forallb_concat. induction atts as [|a atts IH]; [done|].
    cbn [map forallb]. rewrite attachment_parts_wf. exact IH. }
  destruct (msg_attachments m) as [[|a atts]|]; [reflexivity| |reflexivity].
  cbn -[concat map attachment_parts]. rewrite forallb_app, Hparts.
  destruct (negb _); reflexivity.
Qed.

Lemma formatted_wf history provider :
  forallb json_wf (formatMessagesForAPI history provider) = true.
Proof.
  induction history as [|m history IH]; [done|].
  cbn [formatMessagesForAPI map forallb]. rewrite format_message_wf. exact IH.
Qed.

(** The provider the page names for a model of the list is that model's. *)
Lemma provider_for_listed m :
  In m AVAILABLE_MODELS -> provider_for (JStr (id m)) = provider m.
Proof. intros [<-|[<-|[<-|[<-|[]]]]]; reflexivity. Qed.

Lemma listed_provider m :
  In m AVAILABLE_MODELS -> provider m = "openai" \/ provider m = "anthropic".
Proof. intros [<-|[<-|[<-|[<-|[]]]]]; auto. Qed.

Lemma listed_supported m : In m AVAILABLE_MODELS -> supported (JStr (id m)).
Proof. intros Hin. exists m. done. Qed.

Section facts.
Context {codec : JSON}.

(** The route accepts what [callBackendAPI] posts for well-formed messages
    and a model of the list. *)
Lemma posted_request_accepted uid messages m :
  forallb json_wf messages = true -> In m AVAILABLE_MODELS ->
  accepts {| session := Some uid; entitled := true;
             request_json :=
               JSON_parse (request_body messages (JStr (id m))) |}
    (JStr (id m)) (JArr messages) (JStr (provider m)) None.
Proof.
  intros Hwf Hin. unfold request_body.
  rewrite JSON_parse_stringify by (cbn; rewrite Hwf; done).
  rewrite (provider_for_listed m Hin).
  split; cbn [session entitled request_json]; [eauto|done| |eauto].
  eexists. split; [reflexivity|]. repeat split. discriminate.
Qed.

Lemma start_calls env model messages provider userApiKey :
  (provider = JStr "openai" ->
   (start env model messages provider userApiKey).1.1
   = [OpenAICreate model messages true true
        (api_key userApiKey (OPENAI_API_KEY env))])
  /\ (provider = JStr "anthropic" ->
      (start env model messages provider userApiKey).1.1
      = [anthropic_request model messages
           (api_key userApiKey (ANTHROPIC_API_KEY env))]).
Proof.
  unfold start, anthropicStream. split; intros ->;
    cbn [is_str String.eqb Ascii.eqb Bool.eqb].
  - destruct (openai env) as [|chunks []]; reflexivity.
  - destruct (negb (ok (anthropic env))); [reflexivity|].
    destruct (body (anthropic env)) as [[reads []]|];
      try destruct (on_reads _ _); reflexivity.
Qed.

End facts.
End FormatFacts.

Import FormatFacts.

(** X21. What the page sends is what the route expects: for any history
    and any model of the list, the body built by [callBackendAPI] from the
    messages of [formatMessagesForAPI] passes the gates of the route for an
    entitled user, is not refused as unsupported, and is answered with the
    event stream.  When the server holds a key for OpenAI, a model of
    OpenAI gets one request to OpenAI, with the model and the messages as
    the page built them and the server's key; a model of Anthropic gets one
    request to the Anthropic API. *)
Theorem page_request_reaches_provider (codec : JSON) env history m uid :
  In m AVAILABLE_MODELS ->
  let selected := JStr (id m) in
  let messages := formatMessagesForAPI history (provider_for selected) in
  let r := POST env {| session := Some uid; entitled := true;
                       request_json :=
                         JSON_parse (request_body messages selected) |} in
  caught r = None
  /\ (exists trace,
         response_of r
         = EventStream (Enqueue (metadata_frame selected) :: trace))
  /\ (provider m = "openai" ->
      forall key,
        OPENAI_API_KEY env = Some key -> key <> "" ->
        calls r
        = [OpenAICreate selected (JArr messages) true true
             (Some (JStr key))])
  /\ (provider m = "anthropic" ->
      calls r
      = [anthropic_request selected (JArr messages)
           (JStr <$> ANTHROPIC_API_KEY env)]).
Proof.
  intros Hin selected messages r. subst r.
  rewrite (POST_accepted env _ _ _ _ _
             (posted_request_accepted uid messages m
                (formatted_wf history _) Hin)
             (listed_supported m Hin)).
  cbn [caught response_of calls]. fold selected. fold messages.
  split; [done|].
  destruct (start_calls env selected (JArr messages) (JStr (provider m)) None)
    as [Hopenai Hanthropic].
  split; [|split].
  - destruct (start_shape env selected (JArr messages) (JStr (provider m)) None)
      as (body & _ & _ & [[-> _]|(e & -> & _)]); eauto.
  - intros Hp key Hkey _. rewrite Hp in *. rewrite Hopenai by done.
    unfold api_key. cbn [truthy_opt]. rewrite Hkey. reflexivity.
  - intros Hp. rewrite Hp in *. rewrite Hanthropic by done. reflexivity.
Qed.

Lemma page_request_reaches_provider_witness :
  let history :=
    [{| msg_id := "m1"; msg_role := "user"; msg_content := "Hi";
        msg_timestamp := 0; msg_model := None; msg_attachments := None |}] in
  let r := POST (codec := reference_codec)
             (sample_env (OpenAIRejected 500) no_reply)
             {| session := Some "user-1"; entitled := true;
                request_json :=
                  JSON_parse
                    (request_body
                       (formatMessagesForAPI history "openai")
                       (JStr "gpt-4o")) |} in
  calls r
  = [OpenAICreate (JStr "gpt-4o")
       (JArr [JObj [("role", JStr "user"); ("content", JStr "Hi")]])
       true true (Some (JStr "sk-test"))].
Proof.
  intros history r.
  apply (proj1 (proj2 (proj2 (page_request_reaches_provider reference_codec
                                (sample_env (OpenAIRejected 500) no_reply)
                                history
                                {| id := "gpt-4o"; name := "GPT-4o";
                                   description := "Optimized for conversations";
                                   provider := "openai" |} "user-1"
                                (or_intror (or_introl eq_refl)))))
           eq_refl "sk-test" eq_refl).
  discriminate.
Defined.

(** X22. [formatMessagesForAPI] keeps the messages apart and in order: one
    object per message, each with the role of its message, each well formed
    (no repeated key), whatever the attachments; a message without
    attachments keeps its content as a plain string, one with attachments
    gets a list of parts. *)
Theorem formatted_messages_keep_roles history provider :
  map (fun j => prop j "role") (formatMessagesForAPI history provider)
  = map (fun m => Some (JStr (msg_role m))) history
  /\ forallb json_wf (formatMessagesForAPI history provider) = true
  /\ Forall2 (fun m j =>
                match msg_attachments m with
                | None | Some [] =>
                    prop j "content" = Some (JStr (msg_content m))
                | Some (_ :: _) =>
                    exists parts, prop j "content" = Some (JArr parts)
                end)
       history (formatMessagesForAPI history provider).
Proof.
  split; [|split; [apply formatted_wf|]].
  - induction history as [|m history IH]; [done|].
    cbn [formatMessagesForAPI map]. f_equal; [|exact IH].
    unfold format_message. destruct (msg_attachments m) as [[]|]; reflexivity.
  - induction history as [|m history IH]; [constructor|].
    cbn [formatMessagesForAPI map]. constructor; [|exact IH].
    unfold format_message.
    destruct (msg_attachments m) as [[]|]; cbn [prop assoc String.eqb];
      eauto.
Qed.

(** X23. An image attachment whose data is a data URL goes to OpenAI as that
    URL, and to Anthropic as the text after the comma, with the MIME type of
    the attachment. *)
Theorem image_attachment_encoding a header base64 :
  att_type a = "image" ->
  att_data a = header +:+ "," +:+ base64 ->
  includes header "," = false -> includes base64 "," = false ->
  attachment_parts "openai" a
  = [JObj [("type", JStr "image_url");
           ("image_url", JObj [("url", JStr (att_data a))])]]
  /\ attachment_parts "anthropic" a
     = [JObj [("type", JStr "image");
              ("source", JObj [("type", JStr "base64");
                               ("media_type", JStr (att_mimeType a));
                               ("data", JStr base64)])]].
Proof.
  intros Htype Hdata Hheader Hbase64. unfold attachment_parts.
  rewrite Htype, Hdata. cbn [String.eqb Ascii.eqb Bool.eqb].
  split; [reflexivity|].
  change (header +:+ "," +:+ base64) with (header +:+ String "," base64).
  rewrite split_app, (split_whole "," header), (split_whole "," base64)
    by done.
  reflexivity.
Qed.

Lemma image_attachment_encoding_witness :
  let a := {| att_id := "a1"; att_name := "dot.png"; att_type := "image";
              att_size := 68; att_data := "data:image/png;base64,iVBORw0KGgo=";
              att_mimeType := "image/png"; att_supabasePath := None |} in
  attachment_parts "anthropic" a
  = [JObj [("type", JStr "image");
           ("source", JObj [("type", JStr "base64");
                            ("media_type", JStr "image/png");
                            ("data", JStr "iVBORw0KGgo=")])]].
Proof.
  intros a.
  exact (proj2 (image_attachment_encoding a "data:image/png;base64"
                  "iVBORw0KGgo=" eq_refl eq_refl eq_refl eq_refl)).
Defined.

(** X24. Every attachment the file input adds can be sent: it comes from a file
    of at most 10 MB whose type is on the list of supported types, it is an
    image or a text, never a bare file, and each of the two providers gets
    exactly one content part for it. *)
Theorem selected_files_are_sendable files a :
  In a (handleFileSelect files) ->
  att_size a <= 10 * 1024 * 1024
  /\ In (att_mimeType a) supportedTypes
  /\ (att_type a = "image" \/ att_type a = "text")
  /\ length (attachment_parts "openai" a) = 1%nat
  /\ length (attachment_parts "anthropic" a) = 1%nat.
Proof.
  induction files as [|file files IH]; [intros []|]. cbn [handleFileSelect].
  destruct (Z.ltb_spec (10 * 1024 * 1024) (file_size file)) as [|Hsize];
    [exact IH|].
  destruct (existsb _ supportedTypes) eqn:Htype; cbn [negb]; [|exact IH].
  destruct (file_result file) as [result|]; [|exact IH].
  intros [<-|Hin]; [|exact (IH Hin)].
  cbn [att_size att_mimeType att_type processFile].
  split; [exact Hsize|].
  apply existsb_exists in Htype as (t & Hin & <-%String.eqb_eq).
  split; [exact Hin|].
  unfold attachment_parts. cbn [att_type att_data att_mimeType].
  cbn [supportedTypes In] in Hin.
  destruct Hin as [<-|[<-|[<-|[<-|[<-|[<-|[<-|[<-|[]]]]]]]]];
    cbn; try destruct (nth_error _ 1); auto.
Qed.

Lemma selected_files_are_sendable_witness :
  let file := {| file_name := "notes.md"; file_type := "text/markdown";
                 file_size := 120; file_uuid := "a1";
                 file_result := Some "# Notes"; file_uploaded := None |} in
  let a := {| att_id := "a1"; att_name := "notes.md"; att_type := "text";
              att_size := 120; att_data := "# Notes";
              att_mimeType := "text/markdown"; att_supabasePath := None |} in
  att_size a <= 10 * 1024 * 1024
  /\ In (att_mimeType a) supportedTypes
  /\ (att_type a = "image" \/ att_type a = "text")
  /\ length (attachment_parts "openai" a) = 1%nat
  /\ length (attachment_parts "anthropic" a) = 1%nat.
Proof.
  intros file a.
  apply (selected_files_are_sendable [file] a). left. reflexivity.
Defined.

Module ChatListFacts.
Import ChatPage PageFacts.

Lemma substring_length n s : (String.length (String.substring 0 n s) <= n)%nat.
Proof.
  revert s. induction n as [|n IH]; intros [|c s]; cbn; try lia.
  specialize (IH s). lia.
Qed.

Lemma substring_whole n s :
  (String.length s <= n)%nat -> String.substring 0 n s = s.
Proof.
  revert s. induction n as [|n IH]; intros [|c s]; cbn; try done; try lia.
  intros Hn. rewrite IH by lia. reflexivity.
Qed.

Lemma add_user_message_ids id u t d :
  chat_ids (add_user_message id u t d) = chat_ids d.
Proof.
  unfold chat_ids, add_user_message. cbn [chats]. rewrite map_map.
  apply map_ext. intros c. destruct (String.eqb (chat_id c) id); reflexivity.
Qed.

Lemma add_assistant_message_ids id a t d :
  chat_ids (add_assistant_message id a t d) = chat_ids d.
Proof.
  unfold chat_ids, add_assistant_message. cbn [chats]. rewrite map_map.
  apply map_ext. intros c. destruct (String.eqb (chat_id c) id); reflexivity.
Qed.

Lemma deleteChat_ids id d :
  chat_ids (deleteChat id d)
  = List.filter (fun c => negb (String.eqb c id)) (chat_ids d).
Proof.
  unfold chat_ids, deleteChat. cbn [chats].
  induction (chats d) as [|c cs IH]; [reflexivity|].
  cbn [List.filter map]. destruct (negb (String.eqb (chat_id c) id));
    cbn [map]; rewrite IH; reflexivity.
Qed.

(** The two saves of [sendMessage], taken together. *)
Lemma exchange_chats id u a t1 t2 d :
  chats (add_assistant_message id a t2 (add_user_message id u t1 d))
  = map (fun chat =>
           if String.eqb (chat_id chat) id then
             {| chat_id := chat_id chat;
                chat_title :=
                  match chat_messages chat with
                  | [] => auto_title (msg_content u)
                  | _ :: _ => chat_title chat
                  end;
                chat_messages := chat_messages chat ++ [u; a];
                chat_createdAt := chat_createdAt chat;
                chat_updatedAt := t2 |}
           else chat) (chats d).
Proof.
  unfold add_assistant_message, add_user_message. cbn [chats].
  rewrite map_map. apply map_ext. intros c.
  destruct (String.eqb (chat_id c) id) eqn:Hid; cbn [chat_id]; rewrite Hid;
    [|reflexivity].
  cbn [chat_messages chat_title chat_createdAt]. rewrite <- app_assoc.
  destruct (chat_messages c) as [|m [|m' ms]]; reflexivity.
Qed.

End ChatListFacts.

Import ChatListFacts.

(** X25. The chat list stays consistent under the operations of the page: the
    selected chat is one of the chats after a chat is created, after any
    chat is deleted, after an existing chat is selected, and after messages
    are added; and the identifiers stay distinct, provided a new chat gets
    an identifier that is not in use. *)
Theorem chat_list_stays_consistent d :
  current_exists d -> List.NoDup (chat_ids d) ->
  (forall newId now,
      current_exists (createNewChat newId now d)
      /\ (~ In newId (chat_ids d) ->
          List.NoDup (chat_ids (createNewChat newId now d))))
  /\ (forall chatId,
      current_exists (deleteChat chatId d)
      /\ List.NoDup (chat_ids (deleteChat chatId d)))
  /\ (forall chatId,
      In chatId (chat_ids d) ->
      current_exists (selectChat chatId d)
      /\ List.NoDup (chat_ids (selectChat chatId d)))
  /\ (forall id m now,
      current_exists (add_user_message id m now d)
      /\ List.NoDup (chat_ids (add_user_message id m now d))
      /\ current_exists (add_assistant_message id m now d)
      /\ List.NoDup (chat_ids (add_assistant_message id m now d))).
Proof.
  intros Hcur Hnodup. split; [|split; [|split]].
  - intros newId now. split; [left; reflexivity|].
    intros Hfresh. constructor; done.
  - intros chatId. split.
    + unfold current_exists, chat_ids, deleteChat in *.
      cbn [currentChatId chats].
      destruct (currentChatId d) as [current|]; [|done].
      destruct (String.eqb_spec current chatId) as [->|Hne].
      * destruct (List.filter _ (chats d)); [done|left; reflexivity].
      * apply in_map_iff in Hcur as (c & <- & Hin).
        apply in_map, filter_In. split; [exact Hin|].
        apply negb_true_iff, String.eqb_neq, Hne.
    + rewrite deleteChat_ids. apply List.NoDup_filter, Hnodup.
  - intros chatId Hin. split; [exact Hin|exact Hnodup].
  - intros id m now. unfold current_exists.
    rewrite add_user_message_ids, add_assistant_message_ids. done.
Qed.

Lemma chat_list_stays_consistent_witness :
  let chat id :=
    {| chat_id := id; chat_title := "New Chat"; chat_messages := [];
       chat_createdAt := 0; chat_updatedAt := 0 |} in
  let d := {| chats := [chat "a"; chat "b"]; currentChatId := Some "a" |} in
  current_exists (deleteChat "a" d) /\ List.NoDup (chat_ids (deleteChat "a" d)).
Proof.
  intros chat d.
  refine (proj1 (proj2 (chat_list_stays_consistent d _ _)) "a").
  - left. reflexivity.
  - apply List.NoDup_cons; [intros [H|[]]; discriminate|].
    apply List.NoDup_cons; [intros []|]. apply List.NoDup_nil.
Defined.

(** X26. [deleteChat] removes the chats with the given identifier and no other,
    keeping the order; the selection is kept when another chat was
    selected, and falls to the first remaining chat, or to none, when the
    selected chat is the one deleted. *)
Theorem deleteChat_removes_only_that_chat chatId d :
  ~ In chatId (chat_ids (deleteChat chatId d))
  /\ (forall c, In c (chats (deleteChat chatId d))
                <-> In c (chats d) /\ chat_id c <> chatId)
  /\ match currentChatId d with
     | Some current =>
         if String.eqb current chatId
         then currentChatId (deleteChat chatId d)
              = chat_id <$> head (chats (deleteChat chatId d))
         else currentChatId (deleteChat chatId d) = Some current
     | None => currentChatId (deleteChat chatId d) = None
     end.
Proof.
  split; [|split].
  - rewrite deleteChat_ids. intros [_ Hne]%filter_In.
    rewrite String.eqb_refl in Hne. discriminate.
  - intros c. unfold deleteChat. cbn [chats]. rewrite filter_In.
    rewrite negb_true_iff, String.eqb_neq. reflexivity.
  - unfold deleteChat. cbn [currentChatId chats].
    destruct (currentChatId d) as [current|]; [|reflexivity].
    destruct (String.eqb current chatId); [|reflexivity].
    destruct (List.filter _ (chats d)); reflexivity.
Qed.

(** X27. The first exchange names the chat: after the two saves of a send, the
    chat addressed holds the question and the answer after its earlier
    messages; if it had none, its title is the question, cut to 50
    characters and marked with an ellipsis when it is longer, and otherwise
    its title is unchanged; the other chats are untouched. *)
Theorem first_exchange_titles_chat id u a t1 t2 d :
  chats (add_assistant_message id a t2 (add_user_message id u t1 d))
  = map (fun chat =>
           if String.eqb (chat_id chat) id then
             {| chat_id := chat_id chat;
                chat_title :=
                  match chat_messages chat with
                  | [] => auto_title (msg_content u)
                  | _ :: _ => chat_title chat
                  end;
                chat_messages := chat_messages chat ++ [u; a];
                chat_createdAt := chat_createdAt chat;
                chat_updatedAt := t2 |}
           else chat) (chats d)
  /\ (String.length (auto_title (msg_content u)) <= 53)%nat
  /\ ((String.length (msg_content u) <= 50)%nat ->
      auto_title (msg_content u) = msg_content u).
Proof.
  split; [apply exchange_chats|]. unfold auto_title. split.
  - rewrite StringFacts.length_append.
    pose proof (substring_length 50 (msg_content u)).
    destruct (50 <? String.length (msg_content u))%nat; cbn; lia.
  - intros Hshort. rewrite substring_whole by done.
    destruct (Nat.ltb_spec 50 (String.length (msg_content u))); [lia|].
    apply StringFacts.append_nil_r.
Qed.

Lemma first_exchange_titles_chat_witness :
  let u := {| msg_id := "m1"; msg_role := "user"; msg_content := "Hi";
              msg_timestamp := 0; msg_model := None;
              msg_attachments := None |} in
  auto_title (msg_content u) = "Hi".
Proof.
  intros u.
  refine (proj2 (proj2 (first_exchange_titles_chat "c" u u 0 0
                          {| chats := []; currentChatId := None |})) _).
  cbn. lia.
Defined.

Module SendFacts.
Import Chat ChatFacts ChatPage PageFacts FormatFacts ChatListFacts.

(** [sendMessage] goes ahead: there is something to send, no send is under
    way, and a chat is open. *)
Definition send_ready (p : page) (current : Chat) : Prop :=
  (trim (inputMessage p) <> "" \/ attachments p <> [])
  /\ isLoadingMessage p = false
  /\ currentChat p = Some current.

(** The request to the backend fails: [fetch] rejects, the status is not a
    success, or the body breaks off. *)
Definition reply_fails (reply : backend_reply) : Prop :=
  reply = FetchRejected
  \/ (exists body, reply = Replied false body)
  \/ (exists reads, reply = Replied true (Some (reads, Interrupted))).

(** The chat holds these messages after those it had. *)
Definition extended (d : ChatsData) (c : Chat) (added : list Message) : Prop :=
  exists c', In c' (chats d) /\ chat_id c' = chat_id c
             /\ chat_messages c' = chat_messages c ++ added.

Section facts.
Context {codec : JSON}.

Lemma send_ready_guard p current :
  send_ready p current ->
  (String.eqb (trim (inputMessage p)) "" && (length (attachments p) =? 0)%nat)
  || isLoadingMessage p = false.
Proof.
  intros ([Hinput|Hatt] & -> & _); rewrite orb_false_r.
  - apply String.eqb_neq in Hinput. rewrite Hinput. reflexivity.
  - destruct (attachments p); [done|]. apply andb_false_r.
Qed.

Lemma add_user_message_extends id u t d c :
  In c (chats d) -> chat_id c = id ->
  extended (add_user_message id u t d) c [u].
Proof.
  intros Hin Hid. eexists. split; [|split].
  - unfold add_user_message. cbn [chats].
    apply (in_map _ _ _ Hin).
  - cbn beta. rewrite Hid, String.eqb_refl. reflexivity.
  - cbn beta. rewrite Hid, String.eqb_refl. reflexivity.
Qed.

Lemma exchange_extends id u a t1 t2 d c :
  In c (chats d) -> chat_id c = id ->
  extended (add_assistant_message id a t2 (add_user_message id u t1 d)) c
    [u; a].
Proof.
  intros Hin Hid. unfold extended. rewrite exchange_chats.
  eexists. split; [apply (in_map _ _ _ Hin)|].
  cbn beta. rewrite Hid, String.eqb_refl. split; reflexivity.
Qed.

End facts.
End SendFacts.

Import SendFacts.

(** X28. When the request to the backend fails, the question stays and no answer
    is recorded: [sendMessage] has saved the chats once, with the trimmed
    input added as a user message to the open chat, and whatever text had
    arrived before the failure is dropped. *)
Theorem failed_send_keeps_question (codec : JSON) p f reply current c :
  send_ready p current -> user p = true -> reply_fails reply ->
  In c (chats (chatsData p)) -> chat_id c = chat_id current ->
  exists d question,
    saved (sendMessage p f reply) = [d]
    /\ is_Some (posted (sendMessage p f reply))
    /\ extended d c [question]
    /\ msg_role question = "user"
    /\ msg_content question = trim (inputMessage p).
Proof.
  intros Hready Huser Hfail Hin Hid. unfold sendMessage.
  rewrite (send_ready_guard p current Hready).
  destruct Hready as (_ & _ & ->). rewrite Huser.
  eexists _, _.
  split; [destruct Hfail as [ -> |[[body ->]|[reads ->]]]; reflexivity|].
  split; [destruct Hfail as [ -> |[[body ->]|[reads ->]]]; cbn; eauto|].
  split; [exact (add_user_message_extends _ _ _ _ c Hin Hid)|].
  split; reflexivity.
Qed.

Lemma failed_send_keeps_question_witness :
  let chat := {| chat_id := "c"; chat_title := "New Chat"; chat_messages := [];
                 chat_createdAt := 0; chat_updatedAt := 0 |} in
  let p := {| inputMessage := " Hi "; attachments := [];
              isLoadingMessage := false; currentChat := Some chat;
              chatsData := {| chats := [chat]; currentChatId := Some "c" |};
              selectedModel := "gpt-4o"; user := true |} in
  let f := {| userMessageId := "m1"; userMessageAt := 0; userSavedAt := 0;
              assistantMessageId := "m2"; assistantMessageAt := 0;
              assistantSavedAt := 0 |} in
  exists d question,
    saved (sendMessage (codec := reference_codec) p f
             (Replied true (Some (["data: x"], Interrupted)))) = [d]
    /\ extended d chat [question]
    /\ msg_content question = "Hi".
Proof.
  intros chat p f.
  destruct (failed_send_keeps_question reference_codec p f
              (Replied true (Some (["data: x"], Interrupted))) chat chat)
    as (d & question & Hsaved & _ & Hext & _ & Hcontent).
  - split; [left; discriminate|split; reflexivity].
  - reflexivity.
  - right. right. eexists. reflexivity.
  - left. reflexivity.
  - reflexivity.
  - exists d, question. split; [exact Hsaved|]. split; [exact Hext|].
    exact Hcontent.
Defined.

(** X29. Without a signed-in user [sendMessage] posts nothing and still records
    an answer: the chats are saved twice, and the second save adds an
    assistant message with empty content after the question. *)
Theorem signed_out_send_saves_empty_answer (codec : JSON)
    p f reply current c :
  send_ready p current -> user p = false ->
  In c (chats (chatsData p)) -> chat_id c = chat_id current ->
  posted (sendMessage p f reply) = None
  /\ exists d1 d2 question answer,
       saved (sendMessage p f reply) = [d1; d2]
       /\ extended d1 c [question]
       /\ extended d2 c [question; answer]
       /\ msg_content question = trim (inputMessage p)
       /\ msg_role answer = "assistant"
       /\ msg_content answer = "".
Proof.
  intros Hready Huser Hin Hid. unfold sendMessage.
  rewrite (send_ready_guard p current Hready).
  destruct Hready as (_ & _ & ->). rewrite Huser.
  split; [reflexivity|]. eexists _, _, _, _.
  split; [reflexivity|].
  split; [exact (add_user_message_extends _ _ _ _ c Hin Hid)|].
  split; [exact (exchange_extends _ _ _ _ _ _ c Hin Hid)|].
  repeat split.
Qed.

Lemma signed_out_send_saves_empty_answer_witness :
  let chat := {| chat_id := "c"; chat_title := "New Chat"; chat_messages := [];
                 chat_createdAt := 0; chat_updatedAt := 0 |} in
  let p := {| inputMessage := "Hi"; attachments := [];
              isLoadingMessage := false; currentChat := Some chat;
              chatsData := {| chats := [chat]; currentChatId := Some "c" |};
              selectedModel := "gpt-4o"; user := false |} in
  let f := {| userMessageId := "m1"; userMessageAt := 0; userSavedAt := 0;
              assistantMessageId := "m2"; assistantMessageAt := 0;
              assistantSavedAt := 0 |} in
  posted (sendMessage (codec := reference_codec) p f FetchRejected) = None.
Proof.
  intros chat p f.
  refine (proj1 (signed_out_send_saves_empty_answer reference_codec p f
                   FetchRejected chat chat _ eq_refl (or_introl eq_refl)
                   eq_refl)).
  split; [left; discriminate|split; reflexivity].
Defined.

(** X30. A whole exchange, from the input box to the saved answer: the page
    posts the question for a model of the list, the route (for an entitled
    user) forwards it to the provider of that model, the provider streams
    its texts to the end, the frames of the route reach the page grouped
    into reads in any way; then [sendMessage] saves the chats twice, and the
    second save holds, after the question, an assistant message whose
    content is the concatenation of the provider's texts. *)
Theorem send_round_trip (codec : JSON)
    env p f m uid current c texts body trace groups :
  send_ready p current -> user p = true ->
  In m AVAILABLE_MODELS -> selectedModel p = id m ->
  streamed env (provider m) texts ->
  In c (chats (chatsData p)) -> chat_id c = chat_id current ->
  let reply := Replied true (Some (map join groups, Finished)) in
  posted (sendMessage p f reply) = Some body ->
  response_of (POST env {| session := Some uid; entitled := true;
                           request_json := JSON_parse body |})
  = EventStream trace ->
  concat groups = enqueued trace ->
  exists d1 d2 question answer,
    saved (sendMessage p f reply) = [d1; d2]
    /\ extended d2 c [question; answer]
    /\ msg_content question = trim (inputMessage p)
    /\ msg_role answer = "assistant"
    /\ msg_content answer = join texts.
Proof.
  intros Hready Huser Hin Hmodel Hstream Hc Hid reply. subst reply.
  unfold sendMessage. rewrite (send_ready_guard p current Hready).
  destruct Hready as (_ & _ & ->). rewrite Huser, Hmodel.
  cbn [negb posted saved]. intros [= <-] Hresponse Hgroups.
  rewrite (streamed_read_back env _ _ _ _ _ texts trace groups
             (posted_request_accepted uid _ m (formatted_wf _ _) Hin)
             (listed_supported m Hin) Hstream Hresponse Hgroups).
  eexists _, _, _, _. split; [reflexivity|].
  split; [exact (exchange_extends _ _ _ _ _ _ c Hc Hid)|].
  repeat split.
Qed.

Lemma send_round_trip_witness :
  let chat := {| chat_id := "c"; chat_title := "New Chat"; chat_messages := [];
                 chat_createdAt := 0; chat_updatedAt := 0 |} in
  let p := {| inputMessage := " Hi "; attachments := [];
              isLoadingMessage := false; currentChat := Some chat;
              chatsData := {| chats := [chat]; currentChatId := Some "c" |};
              selectedModel := "gpt-4o"; user := true |} in
  let f := {| userMessageId := "m1"; userMessageAt := 0; userSavedAt := 1;
              assistantMessageId := "m2"; assistantMessageAt := 2;
              assistantSavedAt := 3 |} in
  let env :=
    sample_env (OpenAIStream [text_chunk "Hel"; text_chunk "lo"] Finished)
      no_reply in
  let meta := metadata_frame (codec := reference_codec) (JStr "gpt-4o") in
  let hel := content_frame (codec := reference_codec) (JStr "Hel") in
  let lo := content_frame (codec := reference_codec) (JStr "lo") in
  exists d1 d2 question answer,
    saved (sendMessage (codec := reference_codec) p f
             (Replied true
                (Some (map join [[meta]; [hel; lo; done_frame]], Finished))))
    = [d1; d2]
    /\ extended d2 chat [question; answer]
    /\ msg_content question = "Hi"
    /\ msg_role answer = "assistant"
    /\ msg_content answer = "Hello".
Proof.
  intros chat p f env meta hel lo.
  apply (send_round_trip reference_codec env p f
           {| id := "gpt-4o"; name := "GPT-4o";
              description := "Optimized for conversations";
              provider := "openai" |} "user-1" chat chat ["Hel"; "lo"]
           (request_body (codec := reference_codec)
              [JObj [("role", JStr "user"); ("content", JStr "Hi")]]
              (JStr "gpt-4o"))
           [Enqueue meta; Enqueue hel; Enqueue lo; Enqueue done_frame; Close]
           [[meta]; [hel; lo; done_frame]]).
  - split; [left; discriminate|split; reflexivity].
  - reflexivity.
  - right. left. reflexivity.
  - reflexivity.
  - left. split; [reflexivity|]. eexists. split; reflexivity.
  - left. reflexivity.
  - reflexivity.
  - reflexivity.
  - vm_compute. reflexivity.
  - reflexivity.
Defined.
